(** * Verification of the Pentobi Monte-Carlo playout state

    Shallow embedding of [libpentobi_mcts/State.cpp] (the per-simulation
    state of the search: gamma-weighted move generation, the playout policy,
    symmetry detection and the evaluation of finished playouts) and of the
    budget setters of [libpentobi_mcts/Player.h], and of the text functions
    [Response::write] and [Writer::get_escaped] of the GTP and SGF
    libraries.

    What the sources take from other translation units (the board, the move
    tables, the local-value heuristic, the running statistics, the random
    generator and the floating-point arithmetic itself) enters the
    development as interfaces: every theorem holds for whatever implements
    them.  Concrete implementations (real-number arithmetic, Welford
    statistics, a small mirror board) are given afterwards and serve to run
    the functions on explicit positions. *)

From Stdlib Require Import ZArith List Bool Arith Lia QArith Reals Lra Ascii.
Import ListNotations.

Close Scope Q_scope.
Close Scope R_scope.
Close Scope Z_scope.
Open Scope nat_scope.

Set Implicit Arguments.

(** ** Identifiers

    [Color], [Piece] and [Point] wrap small unsigned integers; a
    [ColorIterator(n)] visits the colours [0 .. n-1]. *)

Definition Color := nat.
Definition Piece := nat.
Definition Point := nat.

Definition colors (nu_colors : nat) : list Color := seq 0 nu_colors.

(** A [ColorMap<T>] is an array indexed by colour, a [Grid<T>] one indexed by
    point, a [PieceMap<T>] one indexed by piece. *)

Definition ColorMap (T : Type) := Color -> T.

Definition cm_set {T : Type} (m : ColorMap T) (c : Color) (v : T) : ColorMap T :=
  fun c' => if Nat.eqb c' c then v else m c'.

Definition Grid (T : Type) := Point -> T.

Definition grid_set {T : Type} (g : Grid T) (p : Point) (v : T) : Grid T :=
  fun p' => if Nat.eqb p' p then v else g p'.

(** A move is the null move, the pass move or a regular move, which indexes
    the move tables. *)

Inductive Move : Type :=
| MvNull
| MvPass
| MvReg (id : nat).

Definition move_eqb (a b : Move) : bool :=
  match a, b with
  | MvNull, MvNull => true
  | MvPass, MvPass => true
  | MvReg i, MvReg j => Nat.eqb i j
  | _, _ => false
  end.

Definition is_pass (mv : Move) : bool :=
  match mv with MvPass => true | _ => false end.

Definition is_regular (mv : Move) : bool :=
  match mv with MvReg _ => true | _ => false end.

(** State of a point of the board. *)

Inductive PointState : Type :=
| PsEmpty
| PsColor (c : Color).

Definition ps_is_empty (s : PointState) : bool :=
  match s with PsEmpty => true | PsColor _ => false end.

(** [s == c] for a point state [s] and a colour [c]. *)

Definition ps_is_color (s : PointState) (c : Color) : bool :=
  match s with PsEmpty => false | PsColor c' => Nat.eqb c' c end.

(** The points of a move and its piece.  Every loop over a [MoveInfo] in
    [State.cpp] reads [*info.begin()] before it tests for the end, so the
    sequence is kept as its first point and the remaining ones. *)

Record MoveInfo : Type := {
  mi_first : Point;
  mi_rest : list Point;
  get_piece : Piece
}.

Definition mi_points (info : MoveInfo) : list Point :=
  mi_first info :: mi_rest info.

(** The attach points of a move, read by a do-while loop in [update_moves]. *)

Record MoveInfoExt : Type := {
  mie_first_attach : Point;
  mie_rest_attach : list Point
}.

Definition mie_attach_points (info : MoveInfoExt) : list Point :=
  mie_first_attach info :: mie_rest_attach info.

Inductive Variant : Type :=
| classic | classic_2 | duo | junior | trigon | trigon_2 | trigon_3.

Inductive BoardType : Type :=
| bt_classic | bt_duo | bt_trigon | bt_trigon_3.

Definition variant_eqb (a b : Variant) : bool :=
  match a, b with
  | classic, classic | classic_2, classic_2 | duo, duo | junior, junior
  | trigon, trigon | trigon_2, trigon_2 | trigon_3, trigon_3 => true
  | _, _ => false
  end.

(** ** Machine integers

    The counters of the state are [unsigned] (passes) and [size_t]
    (simulations, playout moves, last-good-reply hits); an increment wraps. *)

Definition wrap_unsigned (z : Z) : Z := (z mod 2 ^ 32)%Z.
Definition wrap_size_t (z : Z) : Z := (z mod 2 ^ 64)%Z.

(** ** Floating-point arithmetic

    [Float], [float] and [double] values are elements of a type [F] with the
    operations the sources use.  Nothing is assumed about rounding. *)

Class FloatOps (F : Type) : Type := {
  f_of_Q : Q -> F;              (* a literal, or the conversion of an integer *)
  fadd : F -> F -> F;
  fsub : F -> F -> F;
  fmul : F -> F -> F;
  fdiv : F -> F -> F;
  fneg : F -> F;
  fexp : F -> F;
  fsqrt : F -> F;
  fpow : F -> F -> F;
  fltb : F -> F -> bool;        (* operator< *)
  feqb : F -> F -> bool         (* operator== *)
}.

Arguments f_of_Q {F _} q%_Q.

Declare Scope float_scope.
Delimit Scope float_scope with fl.
Infix "+@" := fadd (at level 50, left associativity) : float_scope.
Infix "-@" := fsub (at level 50, left associativity) : float_scope.
Infix "*@" := fmul (at level 40, left associativity) : float_scope.
Infix "/@" := fdiv (at level 40, left associativity) : float_scope.
Infix "<@?" := fltb (at level 70, no associativity) : float_scope.
Infix "=@?" := feqb (at level 70, no associativity) : float_scope.

Definition f_of_Z {F} `{FloatOps F} (z : Z) : F := f_of_Q (inject_Z z).
Definition f_of_nat {F} `{FloatOps F} (n : nat) : F := f_of_Z (Z.of_nat n).

(** [operator<=] on the floating-point numbers, with the facts about it that
    the invariants of the cumulative gamma array rest on (the gamma weights
    and their sums are [double] in the source).  Each law is stated so that
    it is true of IEEE-754 binary64, NaN, the infinities and the signed
    zeros included:
    - [fle_trans]: a comparison with NaN is false, so no chain passes
      through NaN;
    - [fle_nonneg_refl]: [0 <= x] excludes NaN, and every other value is
      [<=] itself (reflexivity does not hold of NaN, so it is not a law);
    - [fadd_nondecreasing]: with [0 <= x] and [0 <= g] the sum is the
      rounding of a number that is at least [x] (or is infinite), and
      rounding is monotone;
    - [fmul_at_least_one]: with [1 <= x] and [1 <= y] no operand is zero or
      NaN, so the product is the rounding of a number that is at least one,
      or is infinite (the law with [0] in the place of [1] does not hold:
      infinity times zero is NaN);
    - [fpow_at_least_one]: the power of a base that is at least one with
      an exponent that is not negative is at least one, and a faithfully
      rounded [pow] returns one of the two neighbours of that power, none
      of which is below one ([pow(x, 0)] is [1] for every [x], and [pow]
      of infinity with a positive exponent is infinity);
    - [f_of_Q_monotone]: a literal or an integer is converted by rounding,
      which is monotone and never yields NaN. *)

Class FloatOrder (F : Type) `{FloatOps F} : Type := {
  fle : F -> F -> Prop;
  fle_trans : forall x y z, fle x y -> fle y z -> fle x z;
  fle_nonneg_refl : forall x, fle (f_of_Q 0) x -> fle x x;
  fadd_nondecreasing :
    forall x g, fle (f_of_Q 0) x -> fle (f_of_Q 0) g -> fle x (fadd x g);
  fmul_at_least_one :
    forall x y, fle (f_of_Q 1) x -> fle (f_of_Q 1) y -> fle (f_of_Q 1) (fmul x y);
  fpow_at_least_one :
    forall x y, fle (f_of_Q 1) x -> fle (f_of_Q 0) y -> fle (f_of_Q 1) (fpow x y);
  f_of_Q_monotone :
    forall q1 q2, (q1 <= q2)%Q -> fle (f_of_Q q1) (f_of_Q q2)
}.

Arguments FloatOrder F {_}.

(** ** Running statistics ([libboardgame_util::Statistics]) *)

Class StatisticsOps (F Stat : Type) : Type := {
  stat_clear : Stat -> Stat;
  stat_add : Stat -> F -> Stat;
  stat_get_mean : Stat -> F;
  stat_get_deviation : Stat -> F
}.

(** ** Random generator: [generate_double] returns a value and advances *)

Class RandomOps (F Rng : Type) : Type := {
  generate_double : Rng -> F * Rng
}.

(** ** The board ([libpentobi_base::Board])

    The board is used through its accessors; a [Board] value records what
    each of them returns in one position.  [is_forbidden c] is the grid
    returned by [is_forbidden(c)], so [is_forbidden(p, c)] is
    [is_forbidden bd c p]. *)

Record BoardConst : Type := {
  get_move_info_array : Move -> MoveInfo;
  get_move_info_ext_array : Move -> MoveInfoExt;
  get_nu_pieces : nat;
  get_size : Piece -> Z;               (* get_piece_info(piece).get_size() *)
  get_nu_attach_points : Piece -> Z;
  bc_get_moves : Color -> Piece -> Point -> nat -> list Move
}.

Record Board : Type := {
  get_variant : Variant;
  get_board_type : BoardType;
  get_nu_colors : nat;
  get_nu_players : nat;
  get_to_play : Color;
  get_next : Color -> Color;
  get_second_color : Color -> Color;
  get_nu_onboard_pieces : nat;
  get_nu_moves : nat;
  get_move : nat -> Move;              (* get_move(i).move *)
  get_point_state : Point -> PointState;
  is_forbidden : Color -> Grid bool;
  get_starting_points : Color -> list Point;
  get_attach_points : Color -> list Point;
  get_pieces_left : Color -> list Piece;
  is_first_piece : Color -> bool;
  get_adj_status : Point -> Color -> nat;
  is_legal_nonpass : Move -> bool;
  get_points_with_bonus : Color -> Z;
  get_score : Color -> Z;
  get_width : nat;                     (* get_geometry().get_width() *)
  get_board_const : BoardConst
}.

Definition set_to_play (bd : Board) (c : Color) : Board :=
  {| get_variant := get_variant bd;
     get_board_type := get_board_type bd;
     get_nu_colors := get_nu_colors bd;
     get_nu_players := get_nu_players bd;
     get_to_play := c;
     get_next := get_next bd;
     get_second_color := get_second_color bd;
     get_nu_onboard_pieces := get_nu_onboard_pieces bd;
     get_nu_moves := get_nu_moves bd;
     get_move := get_move bd;
     get_point_state := get_point_state bd;
     is_forbidden := is_forbidden bd;
     get_starting_points := get_starting_points bd;
     get_attach_points := get_attach_points bd;
     get_pieces_left := get_pieces_left bd;
     is_first_piece := is_first_piece bd;
     get_adj_status := get_adj_status bd;
     is_legal_nonpass := is_legal_nonpass bd;
     get_points_with_bonus := get_points_with_bonus bd;
     get_score := get_score bd;
     get_width := get_width bd;
     get_board_const := get_board_const bd |}.

(** What changes a board, and the coordinates of a point, are implemented
    outside [State.cpp]. *)

Class BoardOps : Type := {
  copy_from : Board -> Board -> Board;       (* m_bd.copy_from(bd) *)
  take_snapshot : Board -> Board;
  restore_snapshot : Board -> Board;
  play_nonpass : Board -> Move -> Board;
  play_pass : Board -> Board;
  get_x : Point -> nat -> nat;               (* p.get_x(width) *)
  get_y : Point -> nat -> nat;
  check_symmetry_broken : Board -> Grid Point -> bool;
  max_size : nat                             (* PieceInfo::max_size *)
}.

(** ** The local-value heuristic ([LocalValue] and [LocalValue::Compute]) *)

Class LocalValueOps (LV Compute : Type) : Type := {
  lv_init : LV -> Board -> LV;                       (* m_local_value.init(m_bd) *)
  compute_new : Point -> LV -> Compute;              (* Compute local(p, lv) *)
  add_move_point : Compute -> Point -> LV -> Compute;
  has_local : Compute -> bool;
  get_nu_attach : Compute -> nat;
  has_adj_attach : Compute -> bool
}.

Class PriorKnowledgeOps (PK : Type) : Type := {
  pk_start_search : PK -> Board -> PK
}.

(** ** Constants shared by the states of a search

    The piece-consideration tables are reached through pointers that
    [update_moves] compares; a pointer is the address of a table and
    [piece_map] reads the table stored there. *)

Definition PieceMapPtr := nat.

Record SharedConst : Type := {
  board : Board;
  to_play : Color;
  avoid_symmetric_draw : bool;
  detect_symmetry : bool;
  symmetric_points : Grid Point;
  min_move_all_considered : nat;
  is_piece_considered : nat -> PieceMapPtr;
  is_piece_considered_all : PieceMapPtr;
  piece_map : PieceMapPtr -> Piece -> bool
}.

(** ** The simulation state ([libpentobi_mcts::State])

    One field per data member that [State.cpp] reads or writes.  The move
    lists are [ArrayList]s (a list here); the markers, the sets of points
    and the gamma arrays are arrays indexed by move, point, piece or
    position (total functions here, an array keeping its old contents
    beyond the part in use). *)

Section StateModel.

Context {F Stat Rng LV Compute PK : Type}.
Context {float_ops : FloatOps F}.
Context {stat_ops : StatisticsOps F Stat}.
Context {random_ops : RandomOps F Rng}.
Context {lv_ops : LocalValueOps LV Compute}.
Context {pk_ops : PriorKnowledgeOps PK}.
Context {board_ops : BoardOps}.

Open Scope float_scope.

Record State : Type := {
  m_shared_const : SharedConst;
  m_bd : Board;
  m_bc : BoardConst;
  m_nu_colors : nat;
  m_move_info_array : Move -> MoveInfo;
  m_move_info_ext_array : Move -> MoveInfoExt;
  m_nu_moves_initial : nat;
  m_check_terminate_early : bool;
  m_nu_simulations : Z;
  m_nu_playout_moves : Z;
  m_nu_last_good_reply_moves : Z;
  m_check_symmetric_draw : bool;
  m_symmetry_min_nu_pieces : nat;
  m_is_symmetry_broken : bool;
  m_prior_knowledge : PK;
  m_stat_score : ColorMap Stat;
  m_stat_len : Stat;
  m_gamma_piece : Piece -> F;
  m_gamma_nu_attach : nat -> F;
  m_total_gamma : F;
  m_cumulative_gamma : nat -> F;
  m_moves : ColorMap (list Move);
  m_marker : ColorMap (Move -> bool);
  m_moves_added_at : ColorMap (Grid bool);
  m_new_moves : ColorMap (list Move);
  m_is_move_list_initialized : ColorMap bool;
  m_has_moves : ColorMap bool;
  m_is_piece_considered : ColorMap PieceMapPtr;
  m_force_consider_all_pieces : bool;
  m_nu_passes : Z;
  m_local_value : LV;
  m_random : Rng
}.

(** Assignment to one data member. *)

Definition set_m_bd (v : Board) (st : State) : State :=
  {| m_shared_const := m_shared_const st; m_bd := v; m_bc := m_bc st;
     m_nu_colors := m_nu_colors st;
     m_move_info_array := m_move_info_array st;
     m_move_info_ext_array := m_move_info_ext_array st;
     m_nu_moves_initial := m_nu_moves_initial st;
     m_check_terminate_early := m_check_terminate_early st;
     m_nu_simulations := m_nu_simulations st;
     m_nu_playout_moves := m_nu_playout_moves st;
     m_nu_last_good_reply_moves := m_nu_last_good_reply_moves st;
     m_check_symmetric_draw := m_check_symmetric_draw st;
     m_symmetry_min_nu_pieces := m_symmetry_min_nu_pieces st;
     m_is_symmetry_broken := m_is_symmetry_broken st;
     m_prior_knowledge := m_prior_knowledge st;
     m_stat_score := m_stat_score st; m_stat_len := m_stat_len st;
     m_gamma_piece := m_gamma_piece st;
     m_gamma_nu_attach := m_gamma_nu_attach st;
     m_total_gamma := m_total_gamma st;
     m_cumulative_gamma := m_cumulative_gamma st; m_moves := m_moves st;
     m_marker := m_marker st; m_moves_added_at := m_moves_added_at st;
     m_new_moves := m_new_moves st;
     m_is_move_list_initialized := m_is_move_list_initialized st;
     m_has_moves := m_has_moves st;
     m_is_piece_considered := m_is_piece_considered st;
     m_force_consider_all_pieces := m_force_consider_all_pieces st;
     m_nu_passes := m_nu_passes st; m_local_value := m_local_value st;
     m_random := m_random st |}.

Definition set_m_bc (v : BoardConst) (st : State) : State :=
  {| m_shared_const := m_shared_const st; m_bd := m_bd st; m_bc := v;
     m_nu_colors := m_nu_colors st;
     m_move_info_array := m_move_info_array st;
     m_move_info_ext_array := m_move_info_ext_array st;
     m_nu_moves_initial := m_nu_moves_initial st;
     m_check_terminate_early := m_check_terminate_early st;
     m_nu_simulations := m_nu_simulations st;
     m_nu_playout_moves := m_nu_playout_moves st;
     m_nu_last_good_reply_moves := m_nu_last_good_reply_moves st;
     m_check_symmetric_draw := m_check_symmetric_draw st;
     m_symmetry_min_nu_pieces := m_symmetry_min_nu_pieces st;
     m_is_symmetry_broken := m_is_symmetry_broken st;
     m_prior_knowledge := m_prior_knowledge st;
     m_stat_score := m_stat_score st; m_stat_len := m_stat_len st;
     m_gamma_piece := m_gamma_piece st;
     m_gamma_nu_attach := m_gamma_nu_attach st;
     m_total_gamma := m_total_gamma st;
     m_cumulative_gamma := m_cumulative_gamma st; m_moves := m_moves st;
     m_marker := m_marker st; m_moves_added_at := m_moves_added_at st;
     m_new_moves := m_new_moves st;
     m_is_move_list_initialized := m_is_move_list_initialized st;
     m_has_moves := m_has_moves st;
     m_is_piece_considered := m_is_piece_considered st;
     m_force_consider_all_pieces := m_force_consider_all_pieces st;
     m_nu_passes := m_nu_passes st; m_local_value := m_local_value st;
     m_random := m_random st |}.

Definition set_m_nu_colors (v : nat) (st : State) : State :=
  {| m_shared_const := m_shared_const st; m_bd := m_bd st; m_bc := m_bc st;
     m_nu_colors := v; m_move_info_array := m_move_info_array st;
     m_move_info_ext_array := m_move_info_ext_array st;
     m_nu_moves_initial := m_nu_moves_initial st;
     m_check_terminate_early := m_check_terminate_early st;
     m_nu_simulations := m_nu_simulations st;
     m_nu_playout_moves := m_nu_playout_moves st;
     m_nu_last_good_reply_moves := m_nu_last_good_reply_moves st;
     m_check_symmetric_draw := m_check_symmetric_draw st;
     m_symmetry_min_nu_pieces := m_symmetry_min_nu_pieces st;
     m_is_symmetry_broken := m_is_symmetry_broken st;
     m_prior_knowledge := m_prior_knowledge st;
     m_stat_score := m_stat_score st; m_stat_len := m_stat_len st;
     m_gamma_piece := m_gamma_piece st;
     m_gamma_nu_attach := m_gamma_nu_attach st;
     m_total_gamma := m_total_gamma st;
     m_cumulative_gamma := m_cumulative_gamma st; m_moves := m_moves st;
     m_marker := m_marker st; m_moves_added_at := m_moves_added_at st;
     m_new_moves := m_new_moves st;
     m_is_move_list_initialized := m_is_move_list_initialized st;
     m_has_moves := m_has_moves st;
     m_is_piece_considered := m_is_piece_considered st;
     m_force_consider_all_pieces := m_force_consider_all_pieces st;
     m_nu_passes := m_nu_passes st; m_local_value := m_local_value st;
     m_random := m_random st |}.

Definition set_m_move_info_array (v : Move -> MoveInfo) (st : State) : State :=
  {| m_shared_const := m_shared_const st; m_bd := m_bd st; m_bc := m_bc st;
     m_nu_colors := m_nu_colors st; m_move_info_array := v;
     m_move_info_ext_array := m_move_info_ext_array st;
     m_nu_moves_initial := m_nu_moves_initial st;
     m_check_terminate_early := m_check_terminate_early st;
     m_nu_simulations := m_nu_simulations st;
     m_nu_playout_moves := m_nu_playout_moves st;
     m_nu_last_good_reply_moves := m_nu_last_good_reply_moves st;
     m_check_symmetric_draw := m_check_symmetric_draw st;
     m_symmetry_min_nu_pieces := m_symmetry_min_nu_pieces st;
     m_is_symmetry_broken := m_is_symmetry_broken st;
     m_prior_knowledge := m_prior_knowledge st;
     m_stat_score := m_stat_score st; m_stat_len := m_stat_len st;
     m_gamma_piece := m_gamma_piece st;
     m_gamma_nu_attach := m_gamma_nu_attach st;
     m_total_gamma := m_total_gamma st;
     m_cumulative_gamma := m_cumulative_gamma st; m_moves := m_moves st;
     m_marker := m_marker st; m_moves_added_at := m_moves_added_at st;
     m_new_moves := m_new_moves st;
     m_is_move_list_initialized := m_is_move_list_initialized st;
     m_has_moves := m_has_moves st;
     m_is_piece_considered := m_is_piece_considered st;
     m_force_consider_all_pieces := m_force_consider_all_pieces st;
     m_nu_passes := m_nu_passes st; m_local_value := m_local_value st;
     m_random := m_random st |}.

Definition set_m_move_info_ext_array (v : Move -> MoveInfoExt) (st : State) : State :=
  {| m_shared_const := m_shared_const st; m_bd := m_bd st; m_bc := m_bc st;
     m_nu_colors := m_nu_colors st;
     m_move_info_array := m_move_info_array st;
     m_move_info_ext_array := v;
     m_nu_moves_initial := m_nu_moves_initial st;
     m_check_terminate_early := m_check_terminate_early st;
     m_nu_simulations := m_nu_simulations st;
     m_nu_playout_moves := m_nu_playout_moves st;
     m_nu_last_good_reply_moves := m_nu_last_good_reply_moves st;
     m_check_symmetric_draw := m_check_symmetric_draw st;
     m_symmetry_min_nu_pieces := m_symmetry_min_nu_pieces st;
     m_is_symmetry_broken := m_is_symmetry_broken st;
     m_prior_knowledge := m_prior_knowledge st;
     m_stat_score := m_stat_score st; m_stat_len := m_stat_len st;
     m_gamma_piece := m_gamma_piece st;
     m_gamma_nu_attach := m_gamma_nu_attach st;
     m_total_gamma := m_total_gamma st;
     m_cumulative_gamma := m_cumulative_gamma st; m_moves := m_moves st;
     m_marker := m_marker st; m_moves_added_at := m_moves_added_at st;
     m_new_moves := m_new_moves st;
     m_is_move_list_initialized := m_is_move_list_initialized st;
     m_has_moves := m_has_moves st;
     m_is_piece_considered := m_is_piece_considered st;
     m_force_consider_all_pieces := m_force_consider_all_pieces st;
     m_nu_passes := m_nu_passes st; m_local_value := m_local_value st;
     m_random := m_random st |}.

Definition set_m_nu_moves_initial (v : nat) (st : State) : State :=
  {| m_shared_const := m_shared_const st; m_bd := m_bd st; m_bc := m_bc st;
     m_nu_colors := m_nu_colors st;
     m_move_info_array := m_move_info_array st;
     m_move_info_ext_array := m_move_info_ext_array st;
     m_nu_moves_initial := v;
     m_check_terminate_early := m_check_terminate_early st;
     m_nu_simulations := m_nu_simulations st;
     m_nu_playout_moves := m_nu_playout_moves st;
     m_nu_last_good_reply_moves := m_nu_last_good_reply_moves st;
     m_check_symmetric_draw := m_check_symmetric_draw st;
     m_symmetry_min_nu_pieces := m_symmetry_min_nu_pieces st;
     m_is_symmetry_broken := m_is_symmetry_broken st;
     m_prior_knowledge := m_prior_knowledge st;
     m_stat_score := m_stat_score st; m_stat_len := m_stat_len st;
     m_gamma_piece := m_gamma_piece st;
     m_gamma_nu_attach := m_gamma_nu_attach st;
     m_total_gamma := m_total_gamma st;
     m_cumulative_gamma := m_cumulative_gamma st; m_moves := m_moves st;
     m_marker := m_marker st; m_moves_added_at := m_moves_added_at st;
     m_new_moves := m_new_moves st;
     m_is_move_list_initialized := m_is_move_list_initialized st;
     m_has_moves := m_has_moves st;
     m_is_piece_considered := m_is_piece_considered st;
     m_force_consider_all_pieces := m_force_consider_all_pieces st;
     m_nu_passes := m_nu_passes st; m_local_value := m_local_value st;
     m_random := m_random st |}.

Definition set_m_check_terminate_early (v : bool) (st : State) : State :=
  {| m_shared_const := m_shared_const st; m_bd := m_bd st; m_bc := m_bc st;
     m_nu_colors := m_nu_colors st;
     m_move_info_array := m_move_info_array st;
     m_move_info_ext_array := m_move_info_ext_array st;
     m_nu_moves_initial := m_nu_moves_initial st;
     m_check_terminate_early := v;
     m_nu_simulations := m_nu_simulations st;
     m_nu_playout_moves := m_nu_playout_moves st;
     m_nu_last_good_reply_moves := m_nu_last_good_reply_moves st;
     m_check_symmetric_draw := m_check_symmetric_draw st;
     m_symmetry_min_nu_pieces := m_symmetry_min_nu_pieces st;
     m_is_symmetry_broken := m_is_symmetry_broken st;
     m_prior_knowledge := m_prior_knowledge st;
     m_stat_score := m_stat_score st; m_stat_len := m_stat_len st;
     m_gamma_piece := m_gamma_piece st;
     m_gamma_nu_attach := m_gamma_nu_attach st;
     m_total_gamma := m_total_gamma st;
     m_cumulative_gamma := m_cumulative_gamma st; m_moves := m_moves st;
     m_marker := m_marker st; m_moves_added_at := m_moves_added_at st;
     m_new_moves := m_new_moves st;
     m_is_move_list_initialized := m_is_move_list_initialized st;
     m_has_moves := m_has_moves st;
     m_is_piece_considered := m_is_piece_considered st;
     m_force_consider_all_pieces := m_force_consider_all_pieces st;
     m_nu_passes := m_nu_passes st; m_local_value := m_local_value st;
     m_random := m_random st |}.

Definition set_m_nu_simulations (v : Z) (st : State) : State :=
  {| m_shared_const := m_shared_const st; m_bd := m_bd st; m_bc := m_bc st;
     m_nu_colors := m_nu_colors st;
     m_move_info_array := m_move_info_array st;
     m_move_info_ext_array := m_move_info_ext_array st;
     m_nu_moves_initial := m_nu_moves_initial st;
     m_check_terminate_early := m_check_terminate_early st;
     m_nu_simulations := v; m_nu_playout_moves := m_nu_playout_moves st;
     m_nu_last_good_reply_moves := m_nu_last_good_reply_moves st;
     m_check_symmetric_draw := m_check_symmetric_draw st;
     m_symmetry_min_nu_pieces := m_symmetry_min_nu_pieces st;
     m_is_symmetry_broken := m_is_symmetry_broken st;
     m_prior_knowledge := m_prior_knowledge st;
     m_stat_score := m_stat_score st; m_stat_len := m_stat_len st;
     m_gamma_piece := m_gamma_piece st;
     m_gamma_nu_attach := m_gamma_nu_attach st;
     m_total_gamma := m_total_gamma st;
     m_cumulative_gamma := m_cumulative_gamma st; m_moves := m_moves st;
     m_marker := m_marker st; m_moves_added_at := m_moves_added_at st;
     m_new_moves := m_new_moves st;
     m_is_move_list_initialized := m_is_move_list_initialized st;
     m_has_moves := m_has_moves st;
     m_is_piece_considered := m_is_piece_considered st;
     m_force_consider_all_pieces := m_force_consider_all_pieces st;
     m_nu_passes := m_nu_passes st; m_local_value := m_local_value st;
     m_random := m_random st |}.

Definition set_m_nu_playout_moves (v : Z) (st : State) : State :=
  {| m_shared_const := m_shared_const st; m_bd := m_bd st; m_bc := m_bc st;
     m_nu_colors := m_nu_colors st;
     m_move_info_array := m_move_info_array st;
     m_move_info_ext_array := m_move_info_ext_array st;
     m_nu_moves_initial := m_nu_moves_initial st;
     m_check_terminate_early := m_check_terminate_early st;
     m_nu_simulations := m_nu_simulations st; m_nu_playout_moves := v;
     m_nu_last_good_reply_moves := m_nu_last_good_reply_moves st;
     m_check_symmetric_draw := m_check_symmetric_draw st;
     m_symmetry_min_nu_pieces := m_symmetry_min_nu_pieces st;
     m_is_symmetry_broken := m_is_symmetry_broken st;
     m_prior_knowledge := m_prior_knowledge st;
     m_stat_score := m_stat_score st; m_stat_len := m_stat_len st;
     m_gamma_piece := m_gamma_piece st;
     m_gamma_nu_attach := m_gamma_nu_attach st;
     m_total_gamma := m_total_gamma st;
     m_cumulative_gamma := m_cumulative_gamma st; m_moves := m_moves st;
     m_marker := m_marker st; m_moves_added_at := m_moves_added_at st;
     m_new_moves := m_new_moves st;
     m_is_move_list_initialized := m_is_move_list_initialized st;
     m_has_moves := m_has_moves st;
     m_is_piece_considered := m_is_piece_considered st;
     m_force_consider_all_pieces := m_force_consider_all_pieces st;
     m_nu_passes := m_nu_passes st; m_local_value := m_local_value st;
     m_random := m_random st |}.

Definition set_m_nu_last_good_reply_moves (v : Z) (st : State) : State :=
  {| m_shared_const := m_shared_const st; m_bd := m_bd st; m_bc := m_bc st;
     m_nu_colors := m_nu_colors st;
     m_move_info_array := m_move_info_array st;
     m_move_info_ext_array := m_move_info_ext_array st;
     m_nu_moves_initial := m_nu_moves_initial st;
     m_check_terminate_early := m_check_terminate_early st;
     m_nu_simulations := m_nu_simulations st;
     m_nu_playout_moves := m_nu_playout_moves st;
     m_nu_last_good_reply_moves := v;
     m_check_symmetric_draw := m_check_symmetric_draw st;
     m_symmetry_min_nu_pieces := m_symmetry_min_nu_pieces st;
     m_is_symmetry_broken := m_is_symmetry_broken st;
     m_prior_knowledge := m_prior_knowledge st;
     m_stat_score := m_stat_score st; m_stat_len := m_stat_len st;
     m_gamma_piece := m_gamma_piece st;
     m_gamma_nu_attach := m_gamma_nu_attach st;
     m_total_gamma := m_total_gamma st;
     m_cumulative_gamma := m_cumulative_gamma st; m_moves := m_moves st;
     m_marker := m_marker st; m_moves_added_at := m_moves_added_at st;
     m_new_moves := m_new_moves st;
     m_is_move_list_initialized := m_is_move_list_initialized st;
     m_has_moves := m_has_moves st;
     m_is_piece_considered := m_is_piece_considered st;
     m_force_consider_all_pieces := m_force_consider_all_pieces st;
     m_nu_passes := m_nu_passes st; m_local_value := m_local_value st;
     m_random := m_random st |}.

Definition set_m_check_symmetric_draw (v : bool) (st : State) : State :=
  {| m_shared_const := m_shared_const st; m_bd := m_bd st; m_bc := m_bc st;
     m_nu_colors := m_nu_colors st;
     m_move_info_array := m_move_info_array st;
     m_move_info_ext_array := m_move_info_ext_array st;
     m_nu_moves_initial := m_nu_moves_initial st;
     m_check_terminate_early := m_check_terminate_early st;
     m_nu_simulations := m_nu_simulations st;
     m_nu_playout_moves := m_nu_playout_moves st;
     m_nu_last_good_reply_moves := m_nu_last_good_reply_moves st;
     m_check_symmetric_draw := v;
     m_symmetry_min_nu_pieces := m_symmetry_min_nu_pieces st;
     m_is_symmetry_broken := m_is_symmetry_broken st;
     m_prior_knowledge := m_prior_knowledge st;
     m_stat_score := m_stat_score st; m_stat_len := m_stat_len st;
     m_gamma_piece := m_gamma_piece st;
     m_gamma_nu_attach := m_gamma_nu_attach st;
     m_total_gamma := m_total_gamma st;
     m_cumulative_gamma := m_cumulative_gamma st; m_moves := m_moves st;
     m_marker := m_marker st; m_moves_added_at := m_moves_added_at st;
     m_new_moves := m_new_moves st;
     m_is_move_list_initialized := m_is_move_list_initialized st;
     m_has_moves := m_has_moves st;
     m_is_piece_considered := m_is_piece_considered st;
     m_force_consider_all_pieces := m_force_consider_all_pieces st;
     m_nu_passes := m_nu_passes st; m_local_value := m_local_value st;
     m_random := m_random st |}.

Definition set_m_symmetry_min_nu_pieces (v : nat) (st : State) : State :=
  {| m_shared_const := m_shared_const st; m_bd := m_bd st; m_bc := m_bc st;
     m_nu_colors := m_nu_colors st;
     m_move_info_array := m_move_info_array st;
     m_move_info_ext_array := m_move_info_ext_array st;
     m_nu_moves_initial := m_nu_moves_initial st;
     m_check_terminate_early := m_check_terminate_early st;
     m_nu_simulations := m_nu_simulations st;
     m_nu_playout_moves := m_nu_playout_moves st;
     m_nu_last_good_reply_moves := m_nu_last_good_reply_moves st;
     m_check_symmetric_draw := m_check_symmetric_draw st;
     m_symmetry_min_nu_pieces := v;
     m_is_symmetry_broken := m_is_symmetry_broken st;
     m_prior_knowledge := m_prior_knowledge st;
     m_stat_score := m_stat_score st; m_stat_len := m_stat_len st;
     m_gamma_piece := m_gamma_piece st;
     m_gamma_nu_attach := m_gamma_nu_attach st;
     m_total_gamma := m_total_gamma st;
     m_cumulative_gamma := m_cumulative_gamma st; m_moves := m_moves st;
     m_marker := m_marker st; m_moves_added_at := m_moves_added_at st;
     m_new_moves := m_new_moves st;
     m_is_move_list_initialized := m_is_move_list_initialized st;
     m_has_moves := m_has_moves st;
     m_is_piece_considered := m_is_piece_considered st;
     m_force_consider_all_pieces := m_force_consider_all_pieces st;
     m_nu_passes := m_nu_passes st; m_local_value := m_local_value st;
     m_random := m_random st |}.

Definition set_m_is_symmetry_broken (v : bool) (st : State) : State :=
  {| m_shared_const := m_shared_const st; m_bd := m_bd st; m_bc := m_bc st;
     m_nu_colors := m_nu_colors st;
     m_move_info_array := m_move_info_array st;
     m_move_info_ext_array := m_move_info_ext_array st;
     m_nu_moves_initial := m_nu_moves_initial st;
     m_check_terminate_early := m_check_terminate_early st;
     m_nu_simulations := m_nu_simulations st;
     m_nu_playout_moves := m_nu_playout_moves st;
     m_nu_last_good_reply_moves := m_nu_last_good_reply_moves st;
     m_check_symmetric_draw := m_check_symmetric_draw st;
     m_symmetry_min_nu_pieces := m_symmetry_min_nu_pieces st;
     m_is_symmetry_broken := v;
     m_prior_knowledge := m_prior_knowledge st;
     m_stat_score := m_stat_score st; m_stat_len := m_stat_len st;
     m_gamma_piece := m_gamma_piece st;
     m_gamma_nu_attach := m_gamma_nu_attach st;
     m_total_gamma := m_total_gamma st;
     m_cumulative_gamma := m_cumulative_gamma st; m_moves := m_moves st;
     m_marker := m_marker st; m_moves_added_at := m_moves_added_at st;
     m_new_moves := m_new_moves st;
     m_is_move_list_initialized := m_is_move_list_initialized st;
     m_has_moves := m_has_moves st;
     m_is_piece_considered := m_is_piece_considered st;
     m_force_consider_all_pieces := m_force_consider_all_pieces st;
     m_nu_passes := m_nu_passes st; m_local_value := m_local_value st;
     m_random := m_random st |}.

Definition set_m_prior_knowledge (v : PK) (st : State) : State :=
  {| m_shared_const := m_shared_const st; m_bd := m_bd st; m_bc := m_bc st;
     m_nu_colors := m_nu_colors st;
     m_move_info_array := m_move_info_array st;
     m_move_info_ext_array := m_move_info_ext_array st;
     m_nu_moves_initial := m_nu_moves_initial st;
     m_check_terminate_early := m_check_terminate_early st;
     m_nu_simulations := m_nu_simulations st;
     m_nu_playout_moves := m_nu_playout_moves st;
     m_nu_last_good_reply_moves := m_nu_last_good_reply_moves st;
     m_check_symmetric_draw := m_check_symmetric_draw st;
     m_symmetry_min_nu_pieces := m_symmetry_min_nu_pieces st;
     m_is_symmetry_broken := m_is_symmetry_broken st;
     m_prior_knowledge := v; m_stat_score := m_stat_score st;
     m_stat_len := m_stat_len st; m_gamma_piece := m_gamma_piece st;
     m_gamma_nu_attach := m_gamma_nu_attach st;
     m_total_gamma := m_total_gamma st;
     m_cumulative_gamma := m_cumulative_gamma st; m_moves := m_moves st;
     m_marker := m_marker st; m_moves_added_at := m_moves_added_at st;
     m_new_moves := m_new_moves st;
     m_is_move_list_initialized := m_is_move_list_initialized st;
     m_has_moves := m_has_moves st;
     m_is_piece_considered := m_is_piece_considered st;
     m_force_consider_all_pieces := m_force_consider_all_pieces st;
     m_nu_passes := m_nu_passes st; m_local_value := m_local_value st;
     m_random := m_random st |}.

Definition set_m_stat_score (v : ColorMap Stat) (st : State) : State :=
  {| m_shared_const := m_shared_const st; m_bd := m_bd st; m_bc := m_bc st;
     m_nu_colors := m_nu_colors st;
     m_move_info_array := m_move_info_array st;
     m_move_info_ext_array := m_move_info_ext_array st;
     m_nu_moves_initial := m_nu_moves_initial st;
     m_check_terminate_early := m_check_terminate_early st;
     m_nu_simulations := m_nu_simulations st;
     m_nu_playout_moves := m_nu_playout_moves st;
     m_nu_last_good_reply_moves := m_nu_last_good_reply_moves st;
     m_check_symmetric_draw := m_check_symmetric_draw st;
     m_symmetry_min_nu_pieces := m_symmetry_min_nu_pieces st;
     m_is_symmetry_broken := m_is_symmetry_broken st;
     m_prior_knowledge := m_prior_knowledge st; m_stat_score := v;
     m_stat_len := m_stat_len st; m_gamma_piece := m_gamma_piece st;
     m_gamma_nu_attach := m_gamma_nu_attach st;
     m_total_gamma := m_total_gamma st;
     m_cumulative_gamma := m_cumulative_gamma st; m_moves := m_moves st;
     m_marker := m_marker st; m_moves_added_at := m_moves_added_at st;
     m_new_moves := m_new_moves st;
     m_is_move_list_initialized := m_is_move_list_initialized st;
     m_has_moves := m_has_moves st;
     m_is_piece_considered := m_is_piece_considered st;
     m_force_consider_all_pieces := m_force_consider_all_pieces st;
     m_nu_passes := m_nu_passes st; m_local_value := m_local_value st;
     m_random := m_random st |}.

Definition set_m_stat_len (v : Stat) (st : State) : State :=
  {| m_shared_const := m_shared_const st; m_bd := m_bd st; m_bc := m_bc st;
     m_nu_colors := m_nu_colors st;
     m_move_info_array := m_move_info_array st;
     m_move_info_ext_array := m_move_info_ext_array st;
     m_nu_moves_initial := m_nu_moves_initial st;
     m_check_terminate_early := m_check_terminate_early st;
     m_nu_simulations := m_nu_simulations st;
     m_nu_playout_moves := m_nu_playout_moves st;
     m_nu_last_good_reply_moves := m_nu_last_good_reply_moves st;
     m_check_symmetric_draw := m_check_symmetric_draw st;
     m_symmetry_min_nu_pieces := m_symmetry_min_nu_pieces st;
     m_is_symmetry_broken := m_is_symmetry_broken st;
     m_prior_knowledge := m_prior_knowledge st;
     m_stat_score := m_stat_score st; m_stat_len := v;
     m_gamma_piece := m_gamma_piece st;
     m_gamma_nu_attach := m_gamma_nu_attach st;
     m_total_gamma := m_total_gamma st;
     m_cumulative_gamma := m_cumulative_gamma st; m_moves := m_moves st;
     m_marker := m_marker st; m_moves_added_at := m_moves_added_at st;
     m_new_moves := m_new_moves st;
     m_is_move_list_initialized := m_is_move_list_initialized st;
     m_has_moves := m_has_moves st;
     m_is_piece_considered := m_is_piece_considered st;
     m_force_consider_all_pieces := m_force_consider_all_pieces st;
     m_nu_passes := m_nu_passes st; m_local_value := m_local_value st;
     m_random := m_random st |}.

Definition set_m_gamma_piece (v : Piece -> F) (st : State) : State :=
  {| m_shared_const := m_shared_const st; m_bd := m_bd st; m_bc := m_bc st;
     m_nu_colors := m_nu_colors st;
     m_move_info_array := m_move_info_array st;
     m_move_info_ext_array := m_move_info_ext_array st;
     m_nu_moves_initial := m_nu_moves_initial st;
     m_check_terminate_early := m_check_terminate_early st;
     m_nu_simulations := m_nu_simulations st;
     m_nu_playout_moves := m_nu_playout_moves st;
     m_nu_last_good_reply_moves := m_nu_last_good_reply_moves st;
     m_check_symmetric_draw := m_check_symmetric_draw st;
     m_symmetry_min_nu_pieces := m_symmetry_min_nu_pieces st;
     m_is_symmetry_broken := m_is_symmetry_broken st;
     m_prior_knowledge := m_prior_knowledge st;
     m_stat_score := m_stat_score st; m_stat_len := m_stat_len st;
     m_gamma_piece := v; m_gamma_nu_attach := m_gamma_nu_attach st;
     m_total_gamma := m_total_gamma st;
     m_cumulative_gamma := m_cumulative_gamma st; m_moves := m_moves st;
     m_marker := m_marker st; m_moves_added_at := m_moves_added_at st;
     m_new_moves := m_new_moves st;
     m_is_move_list_initialized := m_is_move_list_initialized st;
     m_has_moves := m_has_moves st;
     m_is_piece_considered := m_is_piece_considered st;
     m_force_consider_all_pieces := m_force_consider_all_pieces st;
     m_nu_passes := m_nu_passes st; m_local_value := m_local_value st;
     m_random := m_random st |}.

Definition set_m_gamma_nu_attach (v : nat -> F) (st : State) : State :=
  {| m_shared_const := m_shared_const st; m_bd := m_bd st; m_bc := m_bc st;
     m_nu_colors := m_nu_colors st;
     m_move_info_array := m_move_info_array st;
     m_move_info_ext_array := m_move_info_ext_array st;
     m_nu_moves_initial := m_nu_moves_initial st;
     m_check_terminate_early := m_check_terminate_early st;
     m_nu_simulations := m_nu_simulations st;
     m_nu_playout_moves := m_nu_playout_moves st;
     m_nu_last_good_reply_moves := m_nu_last_good_reply_moves st;
     m_check_symmetric_draw := m_check_symmetric_draw st;
     m_symmetry_min_nu_pieces := m_symmetry_min_nu_pieces st;
     m_is_symmetry_broken := m_is_symmetry_broken st;
     m_prior_knowledge := m_prior_knowledge st;
     m_stat_score := m_stat_score st; m_stat_len := m_stat_len st;
     m_gamma_piece := m_gamma_piece st; m_gamma_nu_attach := v;
     m_total_gamma := m_total_gamma st;
     m_cumulative_gamma := m_cumulative_gamma st; m_moves := m_moves st;
     m_marker := m_marker st; m_moves_added_at := m_moves_added_at st;
     m_new_moves := m_new_moves st;
     m_is_move_list_initialized := m_is_move_list_initialized st;
     m_has_moves := m_has_moves st;
     m_is_piece_considered := m_is_piece_considered st;
     m_force_consider_all_pieces := m_force_consider_all_pieces st;
     m_nu_passes := m_nu_passes st; m_local_value := m_local_value st;
     m_random := m_random st |}.

Definition set_m_total_gamma (v : F) (st : State) : State :=
  {| m_shared_const := m_shared_const st; m_bd := m_bd st; m_bc := m_bc st;
     m_nu_colors := m_nu_colors st;
     m_move_info_array := m_move_info_array st;
     m_move_info_ext_array := m_move_info_ext_array st;
     m_nu_moves_initial := m_nu_moves_initial st;
     m_check_terminate_early := m_check_terminate_early st;
     m_nu_simulations := m_nu_simulations st;
     m_nu_playout_moves := m_nu_playout_moves st;
     m_nu_last_good_reply_moves := m_nu_last_good_reply_moves st;
     m_check_symmetric_draw := m_check_symmetric_draw st;
     m_symmetry_min_nu_pieces := m_symmetry_min_nu_pieces st;
     m_is_symmetry_broken := m_is_symmetry_broken st;
     m_prior_knowledge := m_prior_knowledge st;
     m_stat_score := m_stat_score st; m_stat_len := m_stat_len st;
     m_gamma_piece := m_gamma_piece st;
     m_gamma_nu_attach := m_gamma_nu_attach st; m_total_gamma := v;
     m_cumulative_gamma := m_cumulative_gamma st; m_moves := m_moves st;
     m_marker := m_marker st; m_moves_added_at := m_moves_added_at st;
     m_new_moves := m_new_moves st;
     m_is_move_list_initialized := m_is_move_list_initialized st;
     m_has_moves := m_has_moves st;
     m_is_piece_considered := m_is_piece_considered st;
     m_force_consider_all_pieces := m_force_consider_all_pieces st;
     m_nu_passes := m_nu_passes st; m_local_value := m_local_value st;
     m_random := m_random st |}.

Definition set_m_cumulative_gamma (v : nat -> F) (st : State) : State :=
  {| m_shared_const := m_shared_const st; m_bd := m_bd st; m_bc := m_bc st;
     m_nu_colors := m_nu_colors st;
     m_move_info_array := m_move_info_array st;
     m_move_info_ext_array := m_move_info_ext_array st;
     m_nu_moves_initial := m_nu_moves_initial st;
     m_check_terminate_early := m_check_terminate_early st;
     m_nu_simulations := m_nu_simulations st;
     m_nu_playout_moves := m_nu_playout_moves st;
     m_nu_last_good_reply_moves := m_nu_last_good_reply_moves st;
     m_check_symmetric_draw := m_check_symmetric_draw st;
     m_symmetry_min_nu_pieces := m_symmetry_min_nu_pieces st;
     m_is_symmetry_broken := m_is_symmetry_broken st;
     m_prior_knowledge := m_prior_knowledge st;
     m_stat_score := m_stat_score st; m_stat_len := m_stat_len st;
     m_gamma_piece := m_gamma_piece st;
     m_gamma_nu_attach := m_gamma_nu_attach st;
     m_total_gamma := m_total_gamma st; m_cumulative_gamma := v;
     m_moves := m_moves st; m_marker := m_marker st;
     m_moves_added_at := m_moves_added_at st;
     m_new_moves := m_new_moves st;
     m_is_move_list_initialized := m_is_move_list_initialized st;
     m_has_moves := m_has_moves st;
     m_is_piece_considered := m_is_piece_considered st;
     m_force_consider_all_pieces := m_force_consider_all_pieces st;
     m_nu_passes := m_nu_passes st; m_local_value := m_local_value st;
     m_random := m_random st |}.

Definition set_m_moves (v : ColorMap (list Move)) (st : State) : State :=
  {| m_shared_const := m_shared_const st; m_bd := m_bd st; m_bc := m_bc st;
     m_nu_colors := m_nu_colors st;
     m_move_info_array := m_move_info_array st;
     m_move_info_ext_array := m_move_info_ext_array st;
     m_nu_moves_initial := m_nu_moves_initial st;
     m_check_terminate_early := m_check_terminate_early st;
     m_nu_simulations := m_nu_simulations st;
     m_nu_playout_moves := m_nu_playout_moves st;
     m_nu_last_good_reply_moves := m_nu_last_good_reply_moves st;
     m_check_symmetric_draw := m_check_symmetric_draw st;
     m_symmetry_min_nu_pieces := m_symmetry_min_nu_pieces st;
     m_is_symmetry_broken := m_is_symmetry_broken st;
     m_prior_knowledge := m_prior_knowledge st;
     m_stat_score := m_stat_score st; m_stat_len := m_stat_len st;
     m_gamma_piece := m_gamma_piece st;
     m_gamma_nu_attach := m_gamma_nu_attach st;
     m_total_gamma := m_total_gamma st;
     m_cumulative_gamma := m_cumulative_gamma st; m_moves := v;
     m_marker := m_marker st; m_moves_added_at := m_moves_added_at st;
     m_new_moves := m_new_moves st;
     m_is_move_list_initialized := m_is_move_list_initialized st;
     m_has_moves := m_has_moves st;
     m_is_piece_considered := m_is_piece_considered st;
     m_force_consider_all_pieces := m_force_consider_all_pieces st;
     m_nu_passes := m_nu_passes st; m_local_value := m_local_value st;
     m_random := m_random st |}.

Definition set_m_marker (v : ColorMap (Move -> bool)) (st : State) : State :=
  {| m_shared_const := m_shared_const st; m_bd := m_bd st; m_bc := m_bc st;
     m_nu_colors := m_nu_colors st;
     m_move_info_array := m_move_info_array st;
     m_move_info_ext_array := m_move_info_ext_array st;
     m_nu_moves_initial := m_nu_moves_initial st;
     m_check_terminate_early := m_check_terminate_early st;
     m_nu_simulations := m_nu_simulations st;
     m_nu_playout_moves := m_nu_playout_moves st;
     m_nu_last_good_reply_moves := m_nu_last_good_reply_moves st;
     m_check_symmetric_draw := m_check_symmetric_draw st;
     m_symmetry_min_nu_pieces := m_symmetry_min_nu_pieces st;
     m_is_symmetry_broken := m_is_symmetry_broken st;
     m_prior_knowledge := m_prior_knowledge st;
     m_stat_score := m_stat_score st; m_stat_len := m_stat_len st;
     m_gamma_piece := m_gamma_piece st;
     m_gamma_nu_attach := m_gamma_nu_attach st;
     m_total_gamma := m_total_gamma st;
     m_cumulative_gamma := m_cumulative_gamma st; m_moves := m_moves st;
     m_marker := v; m_moves_added_at := m_moves_added_at st;
     m_new_moves := m_new_moves st;
     m_is_move_list_initialized := m_is_move_list_initialized st;
     m_has_moves := m_has_moves st;
     m_is_piece_considered := m_is_piece_considered st;
     m_force_consider_all_pieces := m_force_consider_all_pieces st;
     m_nu_passes := m_nu_passes st; m_local_value := m_local_value st;
     m_random := m_random st |}.

Definition set_m_moves_added_at (v : ColorMap (Grid bool)) (st : State) : State :=
  {| m_shared_const := m_shared_const st; m_bd := m_bd st; m_bc := m_bc st;
     m_nu_colors := m_nu_colors st;
     m_move_info_array := m_move_info_array st;
     m_move_info_ext_array := m_move_info_ext_array st;
     m_nu_moves_initial := m_nu_moves_initial st;
     m_check_terminate_early := m_check_terminate_early st;
     m_nu_simulations := m_nu_simulations st;
     m_nu_playout_moves := m_nu_playout_moves st;
     m_nu_last_good_reply_moves := m_nu_last_good_reply_moves st;
     m_check_symmetric_draw := m_check_symmetric_draw st;
     m_symmetry_min_nu_pieces := m_symmetry_min_nu_pieces st;
     m_is_symmetry_broken := m_is_symmetry_broken st;
     m_prior_knowledge := m_prior_knowledge st;
     m_stat_score := m_stat_score st; m_stat_len := m_stat_len st;
     m_gamma_piece := m_gamma_piece st;
     m_gamma_nu_attach := m_gamma_nu_attach st;
     m_total_gamma := m_total_gamma st;
     m_cumulative_gamma := m_cumulative_gamma st; m_moves := m_moves st;
     m_marker := m_marker st; m_moves_added_at := v;
     m_new_moves := m_new_moves st;
     m_is_move_list_initialized := m_is_move_list_initialized st;
     m_has_moves := m_has_moves st;
     m_is_piece_considered := m_is_piece_considered st;
     m_force_consider_all_pieces := m_force_consider_all_pieces st;
     m_nu_passes := m_nu_passes st; m_local_value := m_local_value st;
     m_random := m_random st |}.

Definition set_m_new_moves (v : ColorMap (list Move)) (st : State) : State :=
  {| m_shared_const := m_shared_const st; m_bd := m_bd st; m_bc := m_bc st;
     m_nu_colors := m_nu_colors st;
     m_move_info_array := m_move_info_array st;
     m_move_info_ext_array := m_move_info_ext_array st;
     m_nu_moves_initial := m_nu_moves_initial st;
     m_check_terminate_early := m_check_terminate_early st;
     m_nu_simulations := m_nu_simulations st;
     m_nu_playout_moves := m_nu_playout_moves st;
     m_nu_last_good_reply_moves := m_nu_last_good_reply_moves st;
     m_check_symmetric_draw := m_check_symmetric_draw st;
     m_symmetry_min_nu_pieces := m_symmetry_min_nu_pieces st;
     m_is_symmetry_broken := m_is_symmetry_broken st;
     m_prior_knowledge := m_prior_knowledge st;
     m_stat_score := m_stat_score st; m_stat_len := m_stat_len st;
     m_gamma_piece := m_gamma_piece st;
     m_gamma_nu_attach := m_gamma_nu_attach st;
     m_total_gamma := m_total_gamma st;
     m_cumulative_gamma := m_cumulative_gamma st; m_moves := m_moves st;
     m_marker := m_marker st; m_moves_added_at := m_moves_added_at st;
     m_new_moves := v;
     m_is_move_list_initialized := m_is_move_list_initialized st;
     m_has_moves := m_has_moves st;
     m_is_piece_considered := m_is_piece_considered st;
     m_force_consider_all_pieces := m_force_consider_all_pieces st;
     m_nu_passes := m_nu_passes st; m_local_value := m_local_value st;
     m_random := m_random st |}.

Definition set_m_is_move_list_initialized (v : ColorMap bool) (st : State) : State :=
  {| m_shared_const := m_shared_const st; m_bd := m_bd st; m_bc := m_bc st;
     m_nu_colors := m_nu_colors st;
     m_move_info_array := m_move_info_array st;
     m_move_info_ext_array := m_move_info_ext_array st;
     m_nu_moves_initial := m_nu_moves_initial st;
     m_check_terminate_early := m_check_terminate_early st;
     m_nu_simulations := m_nu_simulations st;
     m_nu_playout_moves := m_nu_playout_moves st;
     m_nu_last_good_reply_moves := m_nu_last_good_reply_moves st;
     m_check_symmetric_draw := m_check_symmetric_draw st;
     m_symmetry_min_nu_pieces := m_symmetry_min_nu_pieces st;
     m_is_symmetry_broken := m_is_symmetry_broken st;
     m_prior_knowledge := m_prior_knowledge st;
     m_stat_score := m_stat_score st; m_stat_len := m_stat_len st;
     m_gamma_piece := m_gamma_piece st;
     m_gamma_nu_attach := m_gamma_nu_attach st;
     m_total_gamma := m_total_gamma st;
     m_cumulative_gamma := m_cumulative_gamma st; m_moves := m_moves st;
     m_marker := m_marker st; m_moves_added_at := m_moves_added_at st;
     m_new_moves := m_new_moves st; m_is_move_list_initialized := v;
     m_has_moves := m_has_moves st;
     m_is_piece_considered := m_is_piece_considered st;
     m_force_consider_all_pieces := m_force_consider_all_pieces st;
     m_nu_passes := m_nu_passes st; m_local_value := m_local_value st;
     m_random := m_random st |}.

Definition set_m_has_moves (v : ColorMap bool) (st : State) : State :=
  {| m_shared_const := m_shared_const st; m_bd := m_bd st; m_bc := m_bc st;
     m_nu_colors := m_nu_colors st;
     m_move_info_array := m_move_info_array st;
     m_move_info_ext_array := m_move_info_ext_array st;
     m_nu_moves_initial := m_nu_moves_initial st;
     m_check_terminate_early := m_check_terminate_early st;
     m_nu_simulations := m_nu_simulations st;
     m_nu_playout_moves := m_nu_playout_moves st;
     m_nu_last_good_reply_moves := m_nu_last_good_reply_moves st;
     m_check_symmetric_draw := m_check_symmetric_draw st;
     m_symmetry_min_nu_pieces := m_symmetry_min_nu_pieces st;
     m_is_symmetry_broken := m_is_symmetry_broken st;
     m_prior_knowledge := m_prior_knowledge st;
     m_stat_score := m_stat_score st; m_stat_len := m_stat_len st;
     m_gamma_piece := m_gamma_piece st;
     m_gamma_nu_attach := m_gamma_nu_attach st;
     m_total_gamma := m_total_gamma st;
     m_cumulative_gamma := m_cumulative_gamma st; m_moves := m_moves st;
     m_marker := m_marker st; m_moves_added_at := m_moves_added_at st;
     m_new_moves := m_new_moves st;
     m_is_move_list_initialized := m_is_move_list_initialized st;
     m_has_moves := v; m_is_piece_considered := m_is_piece_considered st;
     m_force_consider_all_pieces := m_force_consider_all_pieces st;
     m_nu_passes := m_nu_passes st; m_local_value := m_local_value st;
     m_random := m_random st |}.

Definition set_m_is_piece_considered (v : ColorMap PieceMapPtr) (st : State) : State :=
  {| m_shared_const := m_shared_const st; m_bd := m_bd st; m_bc := m_bc st;
     m_nu_colors := m_nu_colors st;
     m_move_info_array := m_move_info_array st;
     m_move_info_ext_array := m_move_info_ext_array st;
     m_nu_moves_initial := m_nu_moves_initial st;
     m_check_terminate_early := m_check_terminate_early st;
     m_nu_simulations := m_nu_simulations st;
     m_nu_playout_moves := m_nu_playout_moves st;
     m_nu_last_good_reply_moves := m_nu_last_good_reply_moves st;
     m_check_symmetric_draw := m_check_symmetric_draw st;
     m_symmetry_min_nu_pieces := m_symmetry_min_nu_pieces st;
     m_is_symmetry_broken := m_is_symmetry_broken st;
     m_prior_knowledge := m_prior_knowledge st;
     m_stat_score := m_stat_score st; m_stat_len := m_stat_len st;
     m_gamma_piece := m_gamma_piece st;
     m_gamma_nu_attach := m_gamma_nu_attach st;
     m_total_gamma := m_total_gamma st;
     m_cumulative_gamma := m_cumulative_gamma st; m_moves := m_moves st;
     m_marker := m_marker st; m_moves_added_at := m_moves_added_at st;
     m_new_moves := m_new_moves st;
     m_is_move_list_initialized := m_is_move_list_initialized st;
     m_has_moves := m_has_moves st; m_is_piece_considered := v;
     m_force_consider_all_pieces := m_force_consider_all_pieces st;
     m_nu_passes := m_nu_passes st; m_local_value := m_local_value st;
     m_random := m_random st |}.

Definition set_m_force_consider_all_pieces (v : bool) (st : State) : State :=
  {| m_shared_const := m_shared_const st; m_bd := m_bd st; m_bc := m_bc st;
     m_nu_colors := m_nu_colors st;
     m_move_info_array := m_move_info_array st;
     m_move_info_ext_array := m_move_info_ext_array st;
     m_nu_moves_initial := m_nu_moves_initial st;
     m_check_terminate_early := m_check_terminate_early st;
     m_nu_simulations := m_nu_simulations st;
     m_nu_playout_moves := m_nu_playout_moves st;
     m_nu_last_good_reply_moves := m_nu_last_good_reply_moves st;
     m_check_symmetric_draw := m_check_symmetric_draw st;
     m_symmetry_min_nu_pieces := m_symmetry_min_nu_pieces st;
     m_is_symmetry_broken := m_is_symmetry_broken st;
     m_prior_knowledge := m_prior_knowledge st;
     m_stat_score := m_stat_score st; m_stat_len := m_stat_len st;
     m_gamma_piece := m_gamma_piece st;
     m_gamma_nu_attach := m_gamma_nu_attach st;
     m_total_gamma := m_total_gamma st;
     m_cumulative_gamma := m_cumulative_gamma st; m_moves := m_moves st;
     m_marker := m_marker st; m_moves_added_at := m_moves_added_at st;
     m_new_moves := m_new_moves st;
     m_is_move_list_initialized := m_is_move_list_initialized st;
     m_has_moves := m_has_moves st;
     m_is_piece_considered := m_is_piece_considered st;
     m_force_consider_all_pieces := v; m_nu_passes := m_nu_passes st;
     m_local_value := m_local_value st; m_random := m_random st |}.

Definition set_m_nu_passes (v : Z) (st : State) : State :=
  {| m_shared_const := m_shared_const st; m_bd := m_bd st; m_bc := m_bc st;
     m_nu_colors := m_nu_colors st;
     m_move_info_array := m_move_info_array st;
     m_move_info_ext_array := m_move_info_ext_array st;
     m_nu_moves_initial := m_nu_moves_initial st;
     m_check_terminate_early := m_check_terminate_early st;
     m_nu_simulations := m_nu_simulations st;
     m_nu_playout_moves := m_nu_playout_moves st;
     m_nu_last_good_reply_moves := m_nu_last_good_reply_moves st;
     m_check_symmetric_draw := m_check_symmetric_draw st;
     m_symmetry_min_nu_pieces := m_symmetry_min_nu_pieces st;
     m_is_symmetry_broken := m_is_symmetry_broken st;
     m_prior_knowledge := m_prior_knowledge st;
     m_stat_score := m_stat_score st; m_stat_len := m_stat_len st;
     m_gamma_piece := m_gamma_piece st;
     m_gamma_nu_attach := m_gamma_nu_attach st;
     m_total_gamma := m_total_gamma st;
     m_cumulative_gamma := m_cumulative_gamma st; m_moves := m_moves st;
     m_marker := m_marker st; m_moves_added_at := m_moves_added_at st;
     m_new_moves := m_new_moves st;
     m_is_move_list_initialized := m_is_move_list_initialized st;
     m_has_moves := m_has_moves st;
     m_is_piece_considered := m_is_piece_considered st;
     m_force_consider_all_pieces := m_force_consider_all_pieces st;
     m_nu_passes := v; m_local_value := m_local_value st;
     m_random := m_random st |}.

Definition set_m_local_value (v : LV) (st : State) : State :=
  {| m_shared_const := m_shared_const st; m_bd := m_bd st; m_bc := m_bc st;
     m_nu_colors := m_nu_colors st;
     m_move_info_array := m_move_info_array st;
     m_move_info_ext_array := m_move_info_ext_array st;
     m_nu_moves_initial := m_nu_moves_initial st;
     m_check_terminate_early := m_check_terminate_early st;
     m_nu_simulations := m_nu_simulations st;
     m_nu_playout_moves := m_nu_playout_moves st;
     m_nu_last_good_reply_moves := m_nu_last_good_reply_moves st;
     m_check_symmetric_draw := m_check_symmetric_draw st;
     m_symmetry_min_nu_pieces := m_symmetry_min_nu_pieces st;
     m_is_symmetry_broken := m_is_symmetry_broken st;
     m_prior_knowledge := m_prior_knowledge st;
     m_stat_score := m_stat_score st; m_stat_len := m_stat_len st;
     m_gamma_piece := m_gamma_piece st;
     m_gamma_nu_attach := m_gamma_nu_attach st;
     m_total_gamma := m_total_gamma st;
     m_cumulative_gamma := m_cumulative_gamma st; m_moves := m_moves st;
     m_marker := m_marker st; m_moves_added_at := m_moves_added_at st;
     m_new_moves := m_new_moves st;
     m_is_move_list_initialized := m_is_move_list_initialized st;
     m_has_moves := m_has_moves st;
     m_is_piece_considered := m_is_piece_considered st;
     m_force_consider_all_pieces := m_force_consider_all_pieces st;
     m_nu_passes := m_nu_passes st; m_local_value := v;
     m_random := m_random st |}.

Definition set_m_random (v : Rng) (st : State) : State :=
  {| m_shared_const := m_shared_const st; m_bd := m_bd st; m_bc := m_bc st;
     m_nu_colors := m_nu_colors st;
     m_move_info_array := m_move_info_array st;
     m_move_info_ext_array := m_move_info_ext_array st;
     m_nu_moves_initial := m_nu_moves_initial st;
     m_check_terminate_early := m_check_terminate_early st;
     m_nu_simulations := m_nu_simulations st;
     m_nu_playout_moves := m_nu_playout_moves st;
     m_nu_last_good_reply_moves := m_nu_last_good_reply_moves st;
     m_check_symmetric_draw := m_check_symmetric_draw st;
     m_symmetry_min_nu_pieces := m_symmetry_min_nu_pieces st;
     m_is_symmetry_broken := m_is_symmetry_broken st;
     m_prior_knowledge := m_prior_knowledge st;
     m_stat_score := m_stat_score st; m_stat_len := m_stat_len st;
     m_gamma_piece := m_gamma_piece st;
     m_gamma_nu_attach := m_gamma_nu_attach st;
     m_total_gamma := m_total_gamma st;
     m_cumulative_gamma := m_cumulative_gamma st; m_moves := m_moves st;
     m_marker := m_marker st; m_moves_added_at := m_moves_added_at st;
     m_new_moves := m_new_moves st;
     m_is_move_list_initialized := m_is_move_list_initialized st;
     m_has_moves := m_has_moves st;
     m_is_piece_considered := m_is_piece_considered st;
     m_force_consider_all_pieces := m_force_consider_all_pieces st;
     m_nu_passes := m_nu_passes st; m_local_value := m_local_value st;
     m_random := v |}.

(** ** Small helpers for arrays and lists *)

Definition arr_set {T : Type} (a : nat -> T) (i : nat) (v : T) : nat -> T :=
  fun j => if Nat.eqb j i then v else a j.

Definition is_empty {T : Type} (l : list T) : bool :=
  match l with [] => true | _ :: _ => false end.

(** [marker.set(mv)], [marker.clear(mv)] and
    [marker.clear_all_set_known(moves)] on the marker of colour [c]. *)

Definition marker_set (c : Color) (mv : Move) (st : State) : State :=
  set_m_marker
    (cm_set (m_marker st) c
       (fun mv' => if move_eqb mv' mv then true else m_marker st c mv')) st.

Definition marker_clear (c : Color) (mv : Move) (st : State) : State :=
  set_m_marker
    (cm_set (m_marker st) c
       (fun mv' => if move_eqb mv' mv then false else m_marker st c mv')) st.

Definition marker_clear_all_set_known (c : Color) (moves : list Move)
    (st : State) : State :=
  fold_left (fun st mv => marker_clear c mv st) moves st.

(** Modelled from the spec: the accessors [get_move_info],
    [get_move_info_ext] and [get_moves] of [State.h] ("each move resolves via
    an externally supplied table to a MoveInfo and a MoveInfoExt"; "an
    externally provided function get_moves(c, piece, p, adj_status)").  They
    read the tables that [start_search] stores in the state. *)

Definition get_move_info (st : State) (mv : Move) : MoveInfo :=
  m_move_info_array st mv.

Definition get_move_info_ext (st : State) (mv : Move) : MoveInfoExt :=
  m_move_info_ext_array st mv.

Definition get_moves (st : State) (c : Color) (piece : Piece) (p : Point)
    (adj_status : nat) : list Move :=
  bc_get_moves (m_bc st) c piece p adj_status.

(** ** [sigmoid] *)

Definition sigmoid (steepness x : F) : F :=
  f_of_Q (-1) +@ f_of_Q 2 /@ (f_of_Q 1 +@ fexp (fneg steepness *@ x)).

(** ** [State::add_move]

    The list is [m_moves[c]]; the source passes it by reference. *)

Definition add_move (c : Color) (mv : Move) (gamma : F) (st : State) : State :=
  let st := set_m_total_gamma (m_total_gamma st +@ gamma) st in
  let st :=
    set_m_cumulative_gamma
      (arr_set (m_cumulative_gamma st) (length (m_moves st c)) (m_total_gamma st))
      st in
  set_m_moves (cm_set (m_moves st) c (m_moves st c ++ [mv])) st.

(** ** [State::check_move]

    [Some gamma] when the move is accepted ([true] with [gamma] assigned),
    [None] when a point is forbidden. *)

Fixpoint check_move_points (is_forb : Grid bool) (lv : LV) (local : Compute)
    (rest : list Point) : option Compute :=
  match rest with
  | [] => Some local
  | p :: rest' =>
      if is_forb p then None
      else check_move_points is_forb lv (add_move_point local p lv) rest'
  end.

Definition check_move (is_forb : Grid bool) (info : MoveInfo) (st : State)
    : option F :=
  let i := mi_first info in
  if is_forb i then None
  else
    match check_move_points is_forb (m_local_value st)
            (compute_new i (m_local_value st)) (mi_rest info) with
    | None => None
    | Some local =>
        let gamma := m_gamma_piece st (get_piece info) in
        if has_local local then
          let gamma := gamma *@ m_gamma_nu_attach st (get_nu_attach local) in
          if has_adj_attach local then Some (gamma *@ f_of_Q 1e5)
          else Some gamma
        else Some gamma
    end.

(** ** [State::check_move_without_gamma] *)

Definition check_move_without_gamma (is_forb : Grid bool) (mv : Move)
    (st : State) : bool :=
  let info := get_move_info st mv in
  if is_forb (mi_first info) then false
  else forallb (fun p => negb (is_forb p)) (mi_rest info).

(** ** [State::add_moves] (point, colour, pieces considered) *)

Definition add_moves_step (c : Color) (is_forb : Grid bool) (st : State)
    (mv : Move) : State :=
  if negb (m_marker st c mv) then
    match check_move is_forb (get_move_info st mv) st with
    | Some gamma => add_move c mv gamma (marker_set c mv st)
    | None => st
    end
  else st.

Definition add_moves (p : Point) (c : Color) (pieces_considered : list Piece)
    (st : State) : State :=
  let adj_status := get_adj_status (m_bd st) p c in
  let is_forb := is_forbidden (m_bd st) c in
  let st :=
    fold_left
      (fun st piece =>
         fold_left (add_moves_step c is_forb)
           (get_moves st c piece p adj_status) st)
      pieces_considered st in
  set_m_moves_added_at
    (cm_set (m_moves_added_at st) c (grid_set (m_moves_added_at st c) p true)) st.

(** ** [State::add_moves] (point, colour, one piece, adjacency status) *)

Definition add_moves_piece (p : Point) (c : Color) (piece : Piece)
    (adj_status : nat) (st : State) : State :=
  let is_forb := is_forbidden (m_bd st) c in
  fold_left (add_moves_step c is_forb) (get_moves st c piece p adj_status) st.

(** ** [State::find_best_starting_point]

    [None] is [Point::null()]. *)

Definition starting_distance (c : Color) (px py ratio : F) (st : State) : F :=
  let bd := m_bd st in
  let width := get_width bd in
  fold_left
    (fun d i =>
       fold_left
         (fun d pp =>
            let s := get_point_state bd pp in
            if negb (ps_is_empty s) then
              let ppx := f_of_nat (get_x pp width) in
              let ppy := f_of_nat (get_y pp width) in
              let dx := ppx -@ px in
              let dy := ratio *@ (ppy -@ py) in
              let weight :=
                if ps_is_color s c || ps_is_color s (get_second_color bd c)
                then f_of_Q 2 else f_of_Q 1 in
              d +@ weight *@ fsqrt (dx *@ dx +@ dy *@ dy)
            else d)
         (get_starting_points bd i) d)
    (colors (m_nu_colors st)) (f_of_Q 0).

Definition find_best_starting_point (c : Color) (st : State) : option Point :=
  let bd := m_bd st in
  let is_trigon :=
    match get_board_type bd with
    | bt_trigon | bt_trigon_3 => true
    | _ => false
    end in
  let ratio := if is_trigon then f_of_Q 1.732 else f_of_Q 1 in
  let width := get_width bd in
  fst
    (fold_left
       (fun (acc : option Point * F) p =>
          let (best, max_distance) := acc in
          if is_forbidden bd c p then acc
          else
            let px := f_of_nat (get_x p width) in
            let py := f_of_nat (get_y p width) in
            let d := starting_distance c px py ratio st in
            if max_distance <@? d then (Some p, d) else acc)
       (get_starting_points bd c) (None, f_of_Q (-1))).

(** ** [State::add_starting_moves] *)

Definition add_starting_moves_step (c : Color) (is_forb : Grid bool)
    (piece : Piece) (with_gamma : bool) (st : State) (mv : Move) : State :=
  if check_move_without_gamma is_forb mv st then
    let st := marker_set c mv st in
    if with_gamma then add_move c mv (m_gamma_piece st piece) st
    else set_m_moves (cm_set (m_moves st) c (m_moves st c ++ [mv])) st
  else st.

Definition add_starting_moves (c : Color) (pieces_considered : list Piece)
    (with_gamma : bool) (st : State) : State :=
  match find_best_starting_point c st with
  | None => st
  | Some p =>
      let is_forb := is_forbidden (m_bd st) c in
      fold_left
        (fun st piece =>
           fold_left (add_starting_moves_step c is_forb piece with_gamma)
             (get_moves st c piece p 0) st)
        pieces_considered st
  end.

(** ** [State::evaluate_playout]

    The result is [array<Float, 4>]; an entry that no statement wrote is
    [None].  [std::sort] on the first [m_nu_colors] points is an insertion
    sort by [operator<]. *)

Definition ResultArray : Type := nat -> option F.

Fixpoint insert_sorted (x : F) (l : list F) : list F :=
  match l with
  | [] => [x]
  | y :: l' => if x <@? y then x :: l else y :: insert_sorted x l'
  end.

Definition sort_points (l : list F) : list F :=
  fold_right insert_sorted [] l.

(** The rank value of a player when more than two play: the mean of
    [j / (m_nu_colors - 1)] over the positions [j] whose sorted points equal
    the player's. *)

Definition rank_result (nu_colors : nat) (sorted_points : list F) (pts : F) : F :=
  let '(game_result, n) :=
    fold_left
      (fun (acc : F * F) j =>
         let (game_result, n) := acc in
         if nth j sorted_points (f_of_Q 0) =@? pts then
           (game_result +@ f_of_nat j /@ f_of_Z (Z.of_nat nu_colors - 1),
            n +@ f_of_Q 1)
         else acc)
      (seq 0 nu_colors) (f_of_Q 0, f_of_Q 0) in
  game_result /@ n.

(** One round of the loop over the players; [true] in the result is the
    [break] taken for player 1 of a two-player game. *)

Definition evaluate_player (i : nat) (sorted_points : list F)
    (acc : ResultArray * State) : bool * (ResultArray * State) :=
  let (result_array, st) := acc in
  let nu_players := get_nu_players (m_bd st) in
  let c : Color := i in
  let s := f_of_Z (get_score (m_bd st) c) in
  if (nu_players =? 2) && (i =? 1) then
    (true,
     (arr_set result_array 1
        (option_map (fun r0 => f_of_Q 1 -@ r0) (result_array 0)), st))
  else
    let game_result :=
      if nu_players =? 2 then
        if f_of_Q 0 <@? s then f_of_Q 1
        else if s <@? f_of_Q 0 then f_of_Q 0
        else f_of_Q 0.5
      else
        rank_result (m_nu_colors st) sorted_points
          (f_of_Z (get_points_with_bonus (m_bd st) c)) in
    let res := game_result in
    let stat := stat_add (m_stat_score st c) s in
    let st := set_m_stat_score (cm_set (m_stat_score st) c stat) st in
    let dev := stat_get_deviation stat in
    let res :=
      if f_of_Q 0 <@? dev then
        res +@ f_of_Q 0.2 *@ sigmoid (f_of_Q 2) ((s -@ stat_get_mean stat) /@ dev)
      else res in
    let l := f_of_nat (get_nu_moves (m_bd st)) in
    let stat := stat_add (m_stat_len st) l in
    let st := set_m_stat_len stat st in
    let dev := stat_get_deviation stat in
    let res :=
      if f_of_Q 0 <@? dev then
        if game_result =@? f_of_Q 1 then
          res -@ f_of_Q 0.12 *@ sigmoid (f_of_Q 2) ((l -@ stat_get_mean stat) /@ dev)
        else if game_result =@? f_of_Q 0 then
          res +@ f_of_Q 0.12 *@ sigmoid (f_of_Q 2) ((l -@ stat_get_mean stat) /@ dev)
        else res
      else res in
    (false, (arr_set result_array i (Some res), st)).

Fixpoint evaluate_players (players : list nat) (sorted_points : list F)
    (acc : ResultArray * State) : ResultArray * State :=
  match players with
  | [] => acc
  | i :: rest =>
      let (stop, acc') := evaluate_player i sorted_points acc in
      if stop then acc' else evaluate_players rest sorted_points acc'
  end.

Definition evaluate_playout (st : State) : ResultArray * State :=
  if negb (m_is_symmetry_broken st)
     && (m_symmetry_min_nu_pieces st <=? get_nu_onboard_pieces (m_bd st))
  then
    ((fun i => if i <? 4 then Some (f_of_Q 0.5) else None), st)
  else
    let nu_players := get_nu_players (m_bd st) in
    let points (c : Color) := f_of_Z (get_points_with_bonus (m_bd st) c) in
    let sorted_points :=
      if 2 <? nu_players then sort_points (map points (colors (m_nu_colors st)))
      else [] in
    let (result_array, st) :=
      evaluate_players (seq 0 nu_players) sorted_points ((fun _ => None), st) in
    let result_array :=
      if nu_players <? m_nu_colors st then
        let result_array := arr_set result_array 2 (result_array 0) in
        arr_set result_array 3 (result_array 1)
      else result_array in
    (result_array, st).

(** ** [State::get_pieces_considered]: the address of the table in use *)

Definition get_pieces_considered (st : State) : PieceMapPtr :=
  let nu_moves := get_nu_onboard_pieces (m_bd st) in
  let sc := m_shared_const st in
  if (min_move_all_considered sc <=? nu_moves) || m_force_consider_all_pieces st
  then is_piece_considered_all sc
  else is_piece_considered sc nu_moves.

(** The pieces left of colour [c] that the table at [ptr] considers. *)

Definition pieces_considered_of (ptr : PieceMapPtr) (c : Color) (st : State)
    : list Piece :=
  filter (piece_map (m_shared_const st) ptr) (get_pieces_left (m_bd st) c).

(** ** [State::init_moves_with_gamma]

    [init_moves_with_gamma_once] is the body up to the final test.  The
    function calls itself when the list came out empty and not every piece
    was considered; it sets [m_force_consider_all_pieces] first, so the
    nested call does not recurse again and one unit of fuel is enough
    ([init_moves_with_gamma_fuel_enough]). *)

Definition init_moves_with_gamma_once (c : Color) (st : State) : State :=
  let st :=
    set_m_is_piece_considered
      (cm_set (m_is_piece_considered st) c (get_pieces_considered st)) st in
  let st := set_m_local_value (lv_init (m_local_value st) (m_bd st)) st in
  let st := set_m_total_gamma (f_of_Q 0) st in
  let st := marker_clear_all_set_known c (m_moves st c) st in
  let st := set_m_moves (cm_set (m_moves st) c []) st in
  let pieces_considered := pieces_considered_of (m_is_piece_considered st c) c st in
  let st :=
    if is_first_piece (m_bd st) c then
      add_starting_moves c pieces_considered true st
    else
      fold_left
        (fun st p =>
           if negb (is_forbidden (m_bd st) c p) then
             add_moves p c pieces_considered st
           else st)
        (get_attach_points (m_bd st) c) st in
  let st :=
    set_m_is_move_list_initialized
      (cm_set (m_is_move_list_initialized st) c true) st in
  set_m_new_moves (cm_set (m_new_moves st) c []) st.

Fixpoint init_moves_with_gamma_fuel (fuel : nat) (c : Color) (st : State)
    : State :=
  let st := init_moves_with_gamma_once c st in
  if is_empty (m_moves st c) && negb (m_force_consider_all_pieces st) then
    match fuel with
    | O => st
    | S fuel' =>
        init_moves_with_gamma_fuel fuel' c
          (set_m_force_consider_all_pieces true st)
    end
  else st.

Definition init_moves_with_gamma (c : Color) (st : State) : State :=
  init_moves_with_gamma_fuel 1 c st.

(** ** [State::update_moves]

    The first loop clears the list and walks its old contents, putting back
    the moves that are still legal; a move is written at a position not
    after the one it was read from, so the loop filters the old list. *)

Definition update_moves_keep (c : Color) (is_piece_left : Piece -> bool)
    (is_forb : Grid bool) (st : State) (mv : Move) : State :=
  let info := get_move_info st mv in
  if is_piece_left (get_piece info) then
    match check_move is_forb info st with
    | Some gamma => add_move c mv gamma st
    | None => marker_clear c mv st
    end
  else marker_clear c mv st.

Definition update_moves_new (c : Color) (is_forb : Grid bool)
    (pieces_considered : list Piece) (st : State) (mv : Move) : State :=
  let info_ext := get_move_info_ext st mv in
  fold_left
    (fun st p =>
       if negb (is_forb p) && negb (m_moves_added_at st c p) then
         add_moves p c pieces_considered st
       else st)
    (mie_attach_points info_ext) st.

Definition update_moves (c : Color) (st : State) : State :=
  let st := set_m_local_value (lv_init (m_local_value st) (m_bd st)) st in
  let st := set_m_total_gamma (f_of_Q 0) st in
  let is_piece_left (piece : Piece) :=
    existsb (Nat.eqb piece) (get_pieces_left (m_bd st) c) in
  let is_forb := is_forbidden (m_bd st) c in
  let old_moves := m_moves st c in
  let st := set_m_moves (cm_set (m_moves st) c []) st in
  let st := fold_left (update_moves_keep c is_piece_left is_forb) old_moves st in
  let pieces_considered := pieces_considered_of (m_is_piece_considered st c) c st in
  let st :=
    fold_left (update_moves_new c is_forb pieces_considered) (m_new_moves st c) st in
  let st := set_m_new_moves (cm_set (m_new_moves st) c []) st in
  let is_piece_considered := m_is_piece_considered st c in
  if negb (Nat.eqb is_piece_considered
             (is_piece_considered_all (m_shared_const st))) then
    let st :=
      if is_empty (m_moves st c) then set_m_force_consider_all_pieces true st
      else st in
    let is_piece_considered_new := get_pieces_considered st in
    if negb (Nat.eqb is_piece_considered is_piece_considered_new) then
      let pieces_considered :=
        filter
          (fun piece =>
             negb (piece_map (m_shared_const st) is_piece_considered piece)
             && piece_map (m_shared_const st) is_piece_considered_new piece)
          (get_pieces_left (m_bd st) c) in
      let st :=
        fold_left
          (fun st p =>
             if negb (is_forb p) then
               let adj_status := get_adj_status (m_bd st) p c in
               fold_left
                 (fun st piece => add_moves_piece p c piece adj_status st)
                 pieces_considered st
             else st)
          (get_attach_points (m_bd st) c) st in
      set_m_is_piece_considered
        (cm_set (m_is_piece_considered st) c is_piece_considered_new) st
    else st
  else st.

(** ** [State::update_symmetry_broken]

    Each do-while loop leaves with the flag set at the first point whose
    mirror point fails the test. *)

Definition update_symmetry_broken (mv : Move) (st : State) : State :=
  let to_play := get_to_play (m_bd st) in
  let second_color := get_second_color (m_bd st) to_play in
  let info := get_move_info st mv in
  if (to_play =? 0) || (to_play =? 2) then
    if forallb
         (fun p =>
            let symm_p := symmetric_points (m_shared_const st) p in
            ps_is_color (get_point_state (m_bd st) symm_p) second_color)
         (mi_points info)
    then st
    else set_m_is_symmetry_broken true st
  else
    if forallb
         (fun p =>
            let symm_p := symmetric_points (m_shared_const st) p in
            ps_is_empty (get_point_state (m_bd st) symm_p))
         (mi_points info)
    then st
    else set_m_is_symmetry_broken true st.

(** ** [State::play_playout] *)

Definition play_playout (mv : Move) (st : State) : State :=
  let c := get_to_play (m_bd st) in
  let st := set_m_new_moves (cm_set (m_new_moves st) c (m_new_moves st c ++ [mv])) st in
  let st := set_m_bd (play_nonpass (m_bd st) mv) st in
  let st := set_m_nu_passes 0%Z st in
  if negb (m_is_symmetry_broken st) then update_symmetry_broken mv st else st.

(** ** [State::play_expanded_child] *)

Definition play_expanded_child (mv : Move) (st : State) : State :=
  if negb (is_pass mv) then play_playout mv st
  else
    let st := set_m_bd (play_pass (m_bd st)) st in
    let st := set_m_nu_passes (wrap_unsigned (m_nu_passes st + 1)) st in
    set_m_is_symmetry_broken true st.

(** ** [State::gen_playout_move]

    One round of the [while (true)] loop either leaves the loop with a
    non-empty list, returns [false], or records a pass and goes round
    again. *)

Inductive LoopOutcome : Type :=
| LoopBreak (st : State)
| LoopReturnFalse (st : State)
| LoopPass (st : State).

(** The first statements of a round: the move list of the colour to play is
    initialized, updated, or left alone when the colour is known to have
    no moves. *)

Definition playout_loop_generate (st : State) : State :=
  let to_play := get_to_play (m_bd st) in
  if negb (m_is_move_list_initialized st to_play) then
    init_moves_with_gamma to_play st
  else if m_has_moves st to_play then update_moves to_play st
  else st.

Definition playout_loop_body (st : State) : LoopOutcome :=
  let to_play := get_to_play (m_bd st) in
  let st := playout_loop_generate st in
  let has := negb (is_empty (m_moves st to_play)) in
  let st := set_m_has_moves (cm_set (m_has_moves st) to_play has) st in
  if has then LoopBreak st
  else if (wrap_unsigned (m_nu_passes st + 1) =? Z.of_nat (m_nu_colors st))%Z then
    LoopReturnFalse st
  else if m_check_terminate_early st
          && (get_score (m_bd st) to_play <? 0)%Z
          && negb (m_has_moves st (get_second_color (m_bd st) to_play)) then
    LoopReturnFalse st
  else
    let st := set_m_nu_passes (wrap_unsigned (m_nu_passes st + 1)) st in
    let st := set_m_bd (set_to_play (m_bd st) (get_next (m_bd st) to_play)) st in
    LoopPass (set_m_is_symmetry_broken true st).

Fixpoint playout_loop (fuel : nat) (st : State) : option (bool * State) :=
  match fuel with
  | O => None
  | S fuel' =>
      match playout_loop_body st with
      | LoopBreak st' => Some (true, st')
      | LoopReturnFalse st' => Some (false, st')
      | LoopPass st' => playout_loop fuel' st'
      end
  end.

(** [std::lower_bound] over the first [n] entries of the array: the first
    position whose entry is not less than [x], or [n]. *)

Fixpoint lower_bound_from (a : nat -> F) (i n : nat) (x : F) : nat :=
  match n with
  | O => i
  | S n' => if a i <@? x then lower_bound_from a (S i) n' x else i
  end.

Definition lower_bound (a : nat -> F) (n : nat) (x : F) : nat :=
  lower_bound_from a 0 n x.

(** The result is the returned flag, the value of the reference [mv] after
    the call and the state; [None] only when the fuel of the loop runs out
    ([gen_playout_move_returns]).  A position past the end of the list, which
    the assertion on [pos] excludes, reads the null move. *)

Definition gen_playout_move (fuel : nat) (lgr1 lgr2 : Move) (mv : Move)
    (st : State) : option (bool * Move * State) :=
  if (m_nu_passes st =? Z.of_nat (m_nu_colors st))%Z then Some (false, mv, st)
  else if negb (m_is_symmetry_broken st)
          && (m_symmetry_min_nu_pieces st <=? get_nu_onboard_pieces (m_bd st))
  then Some (false, mv, st)
  else
    let st := set_m_nu_playout_moves (wrap_size_t (m_nu_playout_moves st + 1)) st in
    if is_regular lgr2 && is_legal_nonpass (m_bd st) lgr2 then
      let st :=
        set_m_nu_last_good_reply_moves
          (wrap_size_t (m_nu_last_good_reply_moves st + 1)) st in
      Some (true, lgr2, st)
    else if is_regular lgr1 && is_legal_nonpass (m_bd st) lgr1 then
      let st :=
        set_m_nu_last_good_reply_moves
          (wrap_size_t (m_nu_last_good_reply_moves st + 1)) st in
      Some (true, lgr1, st)
    else
      match playout_loop fuel st with
      | None => None
      | Some (false, st) => Some (false, mv, st)
      | Some (true, st) =>
          let to_play := get_to_play (m_bd st) in
          let moves := m_moves st to_play in
          let (r, rng) := generate_double (m_random st) in
          let st := set_m_random rng st in
          let random := m_total_gamma st *@ r in
          let pos := lower_bound (m_cumulative_gamma st) (length moves) random in
          Some (true, nth pos moves MvNull, st)
      end.

(** ** [State::gen_and_play_playout_move] *)

Definition gen_and_play_playout_move (fuel : nat) (lgr1 lgr2 : Move)
    (st : State) : option (bool * State) :=
  match gen_playout_move fuel lgr1 lgr2 MvNull st with
  | None => None
  | Some (true, mv, st) => Some (true, play_playout mv st)
  | Some (false, _, st) => Some (false, st)
  end.

(** ** [State::start_search] *)

Definition gamma_size_factor (bt : BoardType) : F :=
  match bt with
  | bt_classic => f_of_Q 5
  | bt_duo => f_of_Q 3
  | bt_trigon | bt_trigon_3 => f_of_Q 5
  end.

Definition gamma_nu_attach_factor (bt : BoardType) : F :=
  match bt with
  | bt_duo => f_of_Q 1.8
  | _ => f_of_Q 1
  end.

Definition start_search (st : State) : State :=
  let sc := m_shared_const st in
  let bd := board sc in
  let st := set_m_bd (copy_from (m_bd st) bd) st in
  let st := set_m_bd (set_to_play (m_bd st) (to_play sc)) st in
  let st := set_m_bd (take_snapshot (m_bd st)) st in
  let st := set_m_bc (get_board_const (m_bd st)) st in
  let st := set_m_nu_colors (get_nu_colors bd) st in
  let st := set_m_move_info_array (get_move_info_array (m_bc st)) st in
  let st := set_m_move_info_ext_array (get_move_info_ext_array (m_bc st)) st in
  let st := set_m_nu_moves_initial (get_nu_moves bd) st in
  let st :=
    set_m_check_terminate_early
      ((m_nu_moves_initial st <? 10 * m_nu_colors st)
       && (get_nu_players (m_bd st) =? 2)) st in
  let st := set_m_nu_simulations 0%Z st in
  let st := set_m_nu_playout_moves 0%Z st in
  let st := set_m_nu_last_good_reply_moves 0%Z st in
  let variant := get_variant bd in
  let st :=
    set_m_check_symmetric_draw
      ((variant_eqb variant duo || variant_eqb variant junior
        || variant_eqb variant trigon_2)
       && negb (((to_play sc =? 1) || (to_play sc =? 3))
                && avoid_symmetric_draw sc)
       && negb (check_symmetry_broken bd (symmetric_points sc))) st in
  let st :=
    set_m_symmetry_min_nu_pieces
      (if variant_eqb variant trigon_2 then 5 else 3) st in
  let st := set_m_prior_knowledge (pk_start_search (m_prior_knowledge st) bd) st in
  let st :=
    fold_left
      (fun st c =>
         set_m_stat_score (cm_set (m_stat_score st) c (stat_clear (m_stat_score st c))) st)
      (colors (m_nu_colors st)) st in
  let st := set_m_stat_len (stat_clear (m_stat_len st)) st in
  let size_factor := gamma_size_factor (get_board_type bd) in
  let nu_attach_factor := gamma_nu_attach_factor (get_board_type bd) in
  let st :=
    fold_left
      (fun st (piece : Piece) =>
         let piece_size := get_size (m_bc st) piece in
         let piece_nu_attach := get_nu_attach_points (m_bc st) piece in
         set_m_gamma_piece
           (arr_set (m_gamma_piece st) piece
              (fpow size_factor (f_of_Z (wrap_unsigned (piece_size - 1)))
               *@ fpow nu_attach_factor
                    (f_of_Z (wrap_unsigned (piece_nu_attach - 1))))) st)
      (seq 0 (get_nu_pieces (m_bc st))) st in
  fold_left
    (fun st i =>
       set_m_gamma_nu_attach
         (arr_set (m_gamma_nu_attach st) i (fpow (f_of_Q 1e10) (f_of_nat i))) st)
    (seq 0 (max_size + 1)) st.

(** ** [State::start_simulation]

    [trailing_passes i] is the loop that counts the pass moves at the end of
    the first [i] moves of the board. *)

Fixpoint trailing_passes (bd : Board) (i : nat) (nu_passes : Z) : Z :=
  match i with
  | O => nu_passes
  | S i' =>
      if negb (is_pass (get_move bd i')) then nu_passes
      else trailing_passes bd i' (wrap_unsigned (nu_passes + 1))
  end.

Definition start_simulation (n : nat) (st : State) : State :=
  let st := set_m_nu_simulations (wrap_size_t (m_nu_simulations st + 1)) st in
  let st := set_m_bd (restore_snapshot (m_bd st)) st in
  let st := set_m_force_consider_all_pieces false st in
  let st :=
    fold_left
      (fun st c =>
         let st := set_m_has_moves (cm_set (m_has_moves st) c true) st in
         let st :=
           set_m_is_move_list_initialized
             (cm_set (m_is_move_list_initialized st) c false) st in
         let st := set_m_new_moves (cm_set (m_new_moves st) c []) st in
         set_m_moves_added_at (cm_set (m_moves_added_at st) c (fun _ => false)) st)
      (colors (m_nu_colors st)) st in
  let st := set_m_nu_passes 0%Z st in
  set_m_nu_passes (trailing_passes (m_bd st) (get_nu_moves (m_bd st)) (m_nu_passes st)) st.


(** ** [State::init_moves_without_gamma]

    The function of the root of the search: the same generation as
    [init_moves_with_gamma] with [check_move_without_gamma] for the test and
    a plain [push_back] for the list; the local values and the gamma sums
    are not touched.  The loop over the moves is written out in the source,
    where [init_moves_with_gamma] calls [add_moves]. *)

Definition init_moves_without_gamma_step (c : Color) (is_forb : Grid bool)
    (st : State) (mv : Move) : State :=
  if negb (m_marker st c mv) && check_move_without_gamma is_forb mv st then
    let st := marker_set c mv st in
    set_m_moves (cm_set (m_moves st) c (m_moves st c ++ [mv])) st
  else st.

Definition init_moves_without_gamma_once (c : Color) (st : State) : State :=
  let st :=
    set_m_is_piece_considered
      (cm_set (m_is_piece_considered st) c (get_pieces_considered st)) st in
  let st := marker_clear_all_set_known c (m_moves st c) st in
  let st := set_m_moves (cm_set (m_moves st) c []) st in
  let pieces_considered := pieces_considered_of (m_is_piece_considered st c) c st in
  let is_forb := is_forbidden (m_bd st) c in
  let st :=
    if is_first_piece (m_bd st) c then
      add_starting_moves c pieces_considered false st
    else
      fold_left
        (fun st p =>
           if negb (is_forb p) then
             let adj_status := get_adj_status (m_bd st) p c in
             let st :=
               fold_left
                 (fun st piece =>
                    fold_left (init_moves_without_gamma_step c is_forb)
                      (get_moves st c piece p adj_status) st)
                 pieces_considered st in
             set_m_moves_added_at
               (cm_set (m_moves_added_at st) c
                  (grid_set (m_moves_added_at st c) p true)) st
           else st)
        (get_attach_points (m_bd st) c) st in
  let st :=
    set_m_is_move_list_initialized
      (cm_set (m_is_move_list_initialized st) c true) st in
  set_m_new_moves (cm_set (m_new_moves st) c []) st.

Fixpoint init_moves_without_gamma_fuel (fuel : nat) (c : Color) (st : State)
    : State :=
  let st := init_moves_without_gamma_once c st in
  if is_empty (m_moves st c) && negb (m_force_consider_all_pieces st) then
    match fuel with
    | O => st
    | S fuel' =>
        init_moves_without_gamma_fuel fuel' c
          (set_m_force_consider_all_pieces true st)
    end
  else st.

Definition init_moves_without_gamma (c : Color) (st : State) : State :=
  init_moves_without_gamma_fuel 1 c st.
(** ** Vocabulary of the theorems *)

(** The state after a last-good-reply move: the two counters went up,
    everything else, the random generator and the move lists included, is
    as before. *)

Definition count_last_good_reply (st : State) : State :=
  set_m_nu_last_good_reply_moves
    (wrap_size_t (m_nu_last_good_reply_moves st + 1))
    (set_m_nu_playout_moves (wrap_size_t (m_nu_playout_moves st + 1)) st).

(** The test that [update_symmetry_broken] makes on the mirror point of a
    point of the move, on the board [bd] on which the move was played and
    for the colour to play there. *)

Definition mirror_point_keeps_symmetry (bd : Board) (mirror : Grid Point)
    (p : Point) : Prop :=
  let t := get_to_play bd in
  if (t =? 0) || (t =? 2)
  then get_point_state bd (mirror p) = PsColor (get_second_color bd t)
  else get_point_state bd (mirror p) = PsEmpty.

(** The state in which [play_playout] looks at the symmetry. *)

Definition played (mv : Move) (st : State) : State :=
  let c := get_to_play (m_bd st) in
  set_m_nu_passes 0%Z
    (set_m_bd (play_nonpass (m_bd st) mv)
       (set_m_new_moves (cm_set (m_new_moves st) c (m_new_moves st c ++ [mv])) st)).

(** The parts of the result of a player in [evaluate_playout]: the game
    result of player 0 of a two-player game from the score [s], the score
    bonus from the statistic to which [s] was added, and the result with
    the length bonus from the statistic to which the length [l] was added. *)





(** The gamma weight of a move as the specification words it: the local
    value of the move summed over its points, the weight of its piece,
    times [m_gamma_nu_attach] of the number of local attach points when the
    move is local, and times 1e5 when it is moreover adjacent to an attach
    point. *)

Definition local_of_move (lv : LV) (info : MoveInfo) : Compute :=
  fold_left (fun local p => add_move_point local p lv) (mi_rest info)
    (compute_new (mi_first info) lv).

Definition move_gamma (st : State) (info : MoveInfo) : F :=
  let local := local_of_move (m_local_value st) info in
  let base := m_gamma_piece st (get_piece info) in
  if has_local local then
    if has_adj_attach local then
      base *@ m_gamma_nu_attach st (get_nu_attach local) *@ f_of_Q 1e5
    else base *@ m_gamma_nu_attach st (get_nu_attach local)
  else base.

(** The weight of a piece and of a number of local attach points as
    [start_search] computes them for a board type. *)

Definition piece_gamma (bt : BoardType) (bc : BoardConst) (piece : Piece) : F :=
  let size_factor :=
    match bt with
    | bt_classic => f_of_Q 5
    | bt_duo => f_of_Q 3
    | bt_trigon => f_of_Q 5
    | bt_trigon_3 => f_of_Q 5
    end in
  let attach_factor :=
    match bt with
    | bt_duo => f_of_Q 1.8
    | bt_classic | bt_trigon | bt_trigon_3 => f_of_Q 1
    end in
  fpow size_factor (f_of_Z (wrap_unsigned (get_size bc piece - 1)))
  *@ fpow attach_factor (f_of_Z (wrap_unsigned (get_nu_attach_points bc piece - 1))).

Definition nu_attach_gamma (k : nat) : F := fpow (f_of_Q 1e10) (f_of_nat k).

(** ** Invariants of move generation *)

(** The move list of colour [c] against its marker and the board: no move
    twice, the marker holds exactly the listed moves, and every listed move
    has no forbidden point and a piece that [c] has left. *)





(** What move generation expects of the board and its tables: the moves
    listed for a piece are moves of that piece, no list of moves and no list
    of pieces left has a move or a piece twice. *)


(** The test of the first loop of [update_moves] on an old move of colour
    [c]: its piece is still left and none of its points is forbidden. *)

Definition still_legal (c : Color) (st : State) (mv : Move) : bool :=
  existsb (Nat.eqb (get_piece (get_move_info st mv))) (get_pieces_left (m_bd st) c)
  && check_move_without_gamma (is_forbidden (m_bd st) c) mv st.

(** The table with which every piece is considered is in use for colour
    [c]. *)

Definition considers_all_pieces (c : Color) (st : State) : Prop :=
  m_is_piece_considered st c = is_piece_considered_all (m_shared_const st).

(** [k] samples of the playout length [l] added to a statistic. *)


(** The number of rounds of the loop over the players in
    [evaluate_playout] that add to the statistics: the round of player 1
    of a two-player game leaves the loop before it does. *)


(** What [init_moves_without_gamma] leaves alone: the gamma sums and the
    local values. *)

Definition gamma_part (st : State) : F * (nat -> F) * LV :=
  (m_total_gamma st, m_cumulative_gamma st, m_local_value st).

(** The states of a search of a two-player game: the state in which
    [start_search] leaves the search of a board with more than one colour,
    and every state that one of the member functions of [State] called
    during the search leaves from there; the positions in which
    [evaluate_playout] is called have two players. *)


(** Modelled from the spec: "a running mean/stddev of scores per color across
    simulations (Welford-style)".  [libboardgame_util::Statistics] is not
    among the sources; what is used of it is that a deviation needs two
    samples: that of a cleared statistic and that of a cleared statistic
    with one sample added are not greater than zero. *)


(** The cumulative gamma array against the move list of colour [c]: the
    part of the array in use is non-decreasing, its last entry is the total
    and the total is not negative. *)

Definition gamma_inv {float_order : FloatOrder F} (c : Color) (st : State)
    : Prop :=
  let n := length (m_moves st c) in
  (forall i j, i <= j -> j < n ->
     fle (m_cumulative_gamma st i) (m_cumulative_gamma st j)) /\
  (0 < n -> m_cumulative_gamma st (n - 1) = m_total_gamma st) /\
  fle (f_of_Q 0) (m_total_gamma st).

(** The gamma tables as [start_search] fills them: no weight is below one
    (a piece weight is a product of powers of 5, 3, 1.8 or 1 with exponents
    that are not negative, an attach weight is such a power of 1e10). *)

Definition gamma_tables_at_least_one {float_order : FloatOrder F} (st : State)
    : Prop :=
  (forall piece, fle (f_of_Q 1) (m_gamma_piece st piece)) /\
  (forall k, fle (f_of_Q 1) (m_gamma_nu_attach st k)).

End StateModel.

(** ** The search budget of the player ([libpentobi_mcts::Player])

    The data members that the inline functions of [Player.h] read or
    write. *)

Section PlayerModel.

Context {F : Type} {float_ops : FloatOps F}.

Record Player : Type := {
  m_is_book_loaded : bool;
  m_use_book : bool;
  m_level : Z;
  m_fixed_simulations : F;
  m_fixed_time : F
}.

Definition get_fixed_simulations (p : Player) : F := m_fixed_simulations p.

Definition get_fixed_time (p : Player) : F := m_fixed_time p.

Definition get_level (p : Player) : Z := m_level p.

Definition get_use_book (p : Player) : bool := m_use_book p.

Definition set_fixed_simulations (n : F) (p : Player) : Player :=
  {| m_is_book_loaded := m_is_book_loaded p;
     m_use_book := m_use_book p;
     m_level := m_level p;
     m_fixed_simulations := n;
     m_fixed_time := f_of_Q 0 |}.

Definition set_fixed_time (seconds : F) (p : Player) : Player :=
  {| m_is_book_loaded := m_is_book_loaded p;
     m_use_book := m_use_book p;
     m_level := m_level p;
     m_fixed_simulations := f_of_Q 0;
     m_fixed_time := seconds |}.

Definition set_level (level : Z) (p : Player) : Player :=
  {| m_is_book_loaded := m_is_book_loaded p;
     m_use_book := m_use_book p;
     m_level := level;
     m_fixed_simulations := f_of_Q 0;
     m_fixed_time := f_of_Q 0 |}.

Definition set_use_book (enable : bool) (p : Player) : Player :=
  {| m_is_book_loaded := m_is_book_loaded p;
     m_use_book := enable;
     m_level := m_level p;
     m_fixed_simulations := m_fixed_simulations p;
     m_fixed_time := m_fixed_time p |}.

(** A call of one of the three budget setters, and a sequence of calls run
    from left to right. *)

Inductive BudgetCall : Type :=
| CallSetFixedSimulations (n : F)
| CallSetFixedTime (seconds : F)
| CallSetLevel (level : Z).

Definition run_call (p : Player) (call : BudgetCall) : Player :=
  match call with
  | CallSetFixedSimulations n => set_fixed_simulations n p
  | CallSetFixedTime seconds => set_fixed_time seconds p
  | CallSetLevel level => set_level level p
  end.

Definition run_calls (calls : list BudgetCall) (p : Player) : Player :=
  fold_left run_call calls p.

(** At most one of the two fixed budgets is different from zero. *)

Definition at_most_one_fixed_budget (p : Player) : Prop :=
  get_fixed_simulations p = f_of_Q 0 \/ get_fixed_time p = f_of_Q 0.

End PlayerModel.

(** * Concrete implementations of the interfaces

    They are used to run the functions on explicit positions. *)

(** ** Exact arithmetic on the real numbers

    The bases given to [pow] in [State.cpp] are positive constants, for
    which [Rpower] is the power function. *)

Definition R_ltb (x y : R) : bool := if Rlt_dec x y then true else false.

Definition R_eqb (x y : R) : bool := if Req_dec_T x y then true else false.

#[export] Instance R_float_ops : FloatOps R := {|
  f_of_Q := Q2R;
  fadd := Rplus;
  fsub := Rminus;
  fmul := Rmult;
  fdiv := Rdiv;
  fneg := Ropp;
  fexp := exp;
  fsqrt := sqrt;
  fpow := Rpower;
  fltb := R_ltb;
  feqb := R_eqb
|}.

(** ** Welford statistics

    Modelled from the spec: [libboardgame_util::Statistics], "a running
    mean/stddev of scores per color across simulations (Welford-style)": the
    count, the mean and the sum of the squared distances to the mean; the
    deviation is the square root of that sum over the count, and 0 before
    the first value. *)

Record Welford : Type := {
  w_count : nat;
  w_mean : R;
  w_m2 : R
}.

Definition welford_clear (s : Welford) : Welford :=
  {| w_count := 0; w_mean := 0%R; w_m2 := 0%R |}.

Definition welford_add (s : Welford) (x : R) : Welford :=
  let count := S (w_count s) in
  let delta := (x - w_mean s)%R in
  let mean := (w_mean s + delta / INR count)%R in
  {| w_count := count;
     w_mean := mean;
     w_m2 := (w_m2 s + delta * (x - mean))%R |}.

Definition welford_deviation (s : Welford) : R :=
  match w_count s with
  | O => 0%R
  | S _ => sqrt (w_m2 s / INR (w_count s))
  end.

#[export] Instance welford_ops : StatisticsOps R Welford := {|
  stat_clear := welford_clear;
  stat_add := welford_add;
  stat_get_mean := w_mean;
  stat_get_deviation := welford_deviation
|}.

(** ** A random generator that replays a list of draws *)

#[export] Instance replay_random_ops : RandomOps R (list R) := {|
  generate_double := fun rng =>
    match rng with
    | [] => (0%R, [])
    | r :: rng' => (r, rng')
    end
|}.

(** ** Local values given point by point

    Modelled from the spec: [LocalValue], "a local value bitset over the
    simulation's most recent opponent-played points": a point is an attach
    point of a recent opponent move, adjacent to one, or neither; a move is
    local when it covers a point of either kind, [get_nu_attach] counts
    the attach points it covers and [has_adj_attach] tells whether it covers
    an adjacent point. *)

Inductive PointLocality : Type :=
| NotLocal
| LocalAttach
| LocalAdjAttach.

Record LocalCompute : Type := {
  lc_nu_attach : nat;
  lc_adj_attach : bool;
  lc_local : bool
}.

Definition local_compute_add (local : LocalCompute) (p : Point)
    (lv : Point -> PointLocality) : LocalCompute :=
  match lv p with
  | NotLocal => local
  | LocalAttach =>
      {| lc_nu_attach := S (lc_nu_attach local);
         lc_adj_attach := lc_adj_attach local;
         lc_local := true |}
  | LocalAdjAttach =>
      {| lc_nu_attach := lc_nu_attach local;
         lc_adj_attach := true;
         lc_local := true |}
  end.

#[export] Instance pointwise_lv_ops
  : LocalValueOps (Point -> PointLocality) LocalCompute := {|
  lv_init := fun lv _ => lv;
  compute_new := fun p lv =>
    local_compute_add
      {| lc_nu_attach := 0; lc_adj_attach := false; lc_local := false |} p lv;
  add_move_point := local_compute_add;
  has_local := lc_local;
  get_nu_attach := lc_nu_attach;
  has_adj_attach := lc_adj_attach
|}.

#[export] Instance unit_pk_ops : PriorKnowledgeOps unit := {|
  pk_start_search := fun pk _ => pk
|}.

(** ** A strip board

    Six points in a row, mirrored by [p -> 5 - p]; two colours that take
    turns; one piece, which covers a single point: the regular move [p]
    puts it on point [p] and its attach points are the two neighbours of
    [p].  Playing a move gives its point to the colour to play, forbids it
    to both colours, and hands the turn over. *)

Definition strip_mirror : Grid Point := fun p => 5 - p.

Definition strip_move_point (mv : Move) : Point :=
  match mv with MvReg p => p | _ => 0 end.

Definition strip_const : BoardConst := {|
  get_move_info_array := fun mv =>
    {| mi_first := strip_move_point mv; mi_rest := []; get_piece := 0 |};
  get_move_info_ext_array := fun mv =>
    {| mie_first_attach := S (strip_move_point mv);
       mie_rest_attach := [pred (strip_move_point mv)] |};
  get_nu_pieces := 1;
  get_size := fun _ => 1%Z;
  get_nu_attach_points := fun _ => 1%Z;
  bc_get_moves := fun _ piece p _ =>
    match piece with O => [MvReg p] | S _ => [] end
|}.

(** The position with the given owners of the six points, colour to play
    and history.  A colour may play on any empty point; it has its piece
    left as long as a point is empty. *)

Definition strip_owner (owners : list PointState) (p : Point) : PointState :=
  nth p owners PsEmpty.

Definition strip_occupied (owners : list PointState) (p : Point) : bool :=
  negb (ps_is_empty (strip_owner owners p)).

Definition strip_board (owners : list PointState) (to_play : Color)
    (history : list Move) : Board := {|
  get_variant := duo;
  get_board_type := bt_duo;
  get_nu_colors := 2;
  get_nu_players := 2;
  get_to_play := to_play;
  get_next := fun c => match c with O => 1 | S _ => 0 end;
  get_second_color := fun c => c;
  get_nu_onboard_pieces := length (filter (fun s => negb (ps_is_empty s)) owners);
  get_nu_moves := length history;
  get_move := fun i => nth i history MvNull;
  get_point_state := strip_owner owners;
  is_forbidden := fun _ p => strip_occupied owners p || (6 <=? p);
  get_starting_points := fun c => match c with O => [2] | S _ => [3] end;
  get_attach_points := fun _ => filter (fun p => negb (strip_occupied owners p)) (seq 0 6);
  get_pieces_left := fun _ => if existsb ps_is_empty owners then [0] else [];
  is_first_piece := fun c => negb (existsb (fun s => ps_is_color s c) owners);
  get_adj_status := fun _ _ => 0;
  is_legal_nonpass := fun mv =>
    match mv with
    | MvReg p => negb (strip_occupied owners p) && (p <? 6)
    | _ => false
    end;
  get_points_with_bonus := fun c =>
    Z.of_nat (length (filter (fun s => ps_is_color s c) owners));
  get_score := fun c =>
    (Z.of_nat (length (filter (fun s => ps_is_color s c) owners))
     - Z.of_nat (length (filter (fun s => negb (ps_is_empty s) && negb (ps_is_color s c)) owners)))%Z;
  get_width := 6;
  get_board_const := strip_const
|}.

Definition strip_owners (bd : Board) : list PointState :=
  map (get_point_state bd) (seq 0 6).

Definition strip_history (bd : Board) : list Move :=
  map (get_move bd) (seq 0 (get_nu_moves bd)).

Fixpoint list_set {T : Type} (l : list T) (i : nat) (v : T) : list T :=
  match l, i with
  | [], _ => []
  | _ :: l', O => v :: l'
  | x :: l', S i' => x :: list_set l' i' v
  end.

Definition strip_play_nonpass (bd : Board) (mv : Move) : Board :=
  strip_board
    (list_set (strip_owners bd) (strip_move_point mv) (PsColor (get_to_play bd)))
    (get_next bd (get_to_play bd))
    (strip_history bd ++ [mv]).

Definition strip_play_pass (bd : Board) : Board :=
  strip_board (strip_owners bd) (get_next bd (get_to_play bd))
    (strip_history bd ++ [MvPass]).

(** The position is symmetric when mirror points are both empty or owned by
    different colours. *)

Definition strip_symmetry_broken (bd : Board) (mirror : Grid Point) : bool :=
  negb
    (forallb
       (fun p =>
          match get_point_state bd p, get_point_state bd (mirror p) with
          | PsEmpty, PsEmpty => true
          | PsColor c, PsColor c' => negb (c =? c')
          | _, _ => false
          end)
       (seq 0 6)).

(** The operations of a search whose root position is [root]; the snapshot
    of the state's board is the root. *)

Definition strip_board_ops (root : Board) : BoardOps := {|
  copy_from := fun _ bd => bd;
  take_snapshot := fun bd => bd;
  restore_snapshot := fun _ => root;
  play_nonpass := strip_play_nonpass;
  play_pass := strip_play_pass;
  get_x := fun p width => p mod width;
  get_y := fun p width => p / width;
  check_symmetry_broken := strip_symmetry_broken;
  max_size := 1
|}.

(** ** The special values of [double] over exact finite arithmetic

    The gamma weights are [double] in the source.  A [double] is NaN, an
    infinity, a signed zero or a finite number that is not zero.  The operations act on
    the special values as IEEE-754 and the C library define them; on finite
    numbers they are the exact operations of the real numbers (no rounding,
    no overflow, no underflow).  A comparison with NaN is false, so [<=] is
    not reflexive; infinity times zero is NaN; a power of the negative zero
    can be the negative infinity. *)

Inductive XR : Type :=
| xr_nan
| xr_inf (negative : bool)
| xr_zero (negative : bool)
| xr_fin (r : R).

Definition R_negative (r : R) : bool := if Rlt_dec r 0 then true else false.

Definition R_is_zero (r : R) : bool := if Req_dec_T r 0 then true else false.

(** The result of an exact operation: an exact zero is the positive zero. *)

Definition xr_of_R (r : R) : XR :=
  if R_is_zero r then xr_zero false else xr_fin r.

Definition xr_is_zero (x : XR) : bool :=
  match x with
  | xr_zero _ => true
  | xr_fin r => R_is_zero r
  | _ => false
  end.

Definition xr_value (x : XR) : R :=
  match x with
  | xr_fin r => r
  | _ => 0%R
  end.

Definition xr_opp (x : XR) : XR :=
  match x with
  | xr_nan => xr_nan
  | xr_inf s => xr_inf (negb s)
  | xr_zero s => xr_zero (negb s)
  | xr_fin r => xr_fin (- r)
  end.

Definition xr_add (x y : XR) : XR :=
  match x, y with
  | xr_nan, _ | _, xr_nan => xr_nan
  | xr_inf s, xr_inf s' => if Bool.eqb s s' then xr_inf s else xr_nan
  | xr_inf s, _ | _, xr_inf s => xr_inf s
  | xr_zero s, xr_zero s' => xr_zero (s && s')
  | xr_zero _, xr_fin r | xr_fin r, xr_zero _ => xr_fin r
  | xr_fin a, xr_fin b => xr_of_R (a + b)
  end.

Definition xr_sub (x y : XR) : XR := xr_add x (xr_opp y).

Definition xr_mul (x y : XR) : XR :=
  match x, y with
  | xr_nan, _ | _, xr_nan => xr_nan
  | xr_inf s, xr_inf s' => xr_inf (xorb s s')
  | xr_inf s, xr_zero _ | xr_zero _, xr_inf s => xr_nan
  | xr_inf s, xr_fin r | xr_fin r, xr_inf s =>
      if R_is_zero r then xr_nan else xr_inf (xorb s (R_negative r))
  | xr_zero s, xr_zero s' => xr_zero (xorb s s')
  | xr_zero s, xr_fin r | xr_fin r, xr_zero s => xr_zero (xorb s (R_negative r))
  | xr_fin a, xr_fin b => xr_of_R (a * b)
  end.

Definition xr_div (x y : XR) : XR :=
  match x, y with
  | xr_nan, _ | _, xr_nan => xr_nan
  | xr_inf _, xr_inf _ => xr_nan
  | xr_inf s, xr_zero s' => xr_inf (xorb s s')
  | xr_inf s, xr_fin r => xr_inf (xorb s (R_negative r))
  | xr_zero s, xr_inf s' => xr_zero (xorb s s')
  | xr_zero _, xr_zero _ => xr_nan
  | xr_zero s, xr_fin r =>
      if R_is_zero r then xr_nan else xr_zero (xorb s (R_negative r))
  | xr_fin r, xr_inf s => xr_zero (xorb (R_negative r) s)
  | xr_fin r, xr_zero s =>
      if R_is_zero r then xr_nan else xr_inf (xorb (R_negative r) s)
  | xr_fin a, xr_fin b =>
      if R_is_zero b then
        if R_is_zero a then xr_nan else xr_inf (R_negative a)
      else xr_of_R (a / b)
  end.

Definition xr_exp (x : XR) : XR :=
  match x with
  | xr_nan => xr_nan
  | xr_inf false => xr_inf false
  | xr_inf true => xr_zero false
  | xr_zero _ => xr_fin 1
  | xr_fin r => xr_fin (exp r)
  end.

Definition xr_sqrt (x : XR) : XR :=
  match x with
  | xr_nan => xr_nan
  | xr_inf false => xr_inf false
  | xr_inf true => xr_nan
  | xr_zero s => xr_zero s
  | xr_fin r => if R_negative r then xr_nan else xr_of_R (sqrt r)
  end.

(** [operator<=]: false when an operand is NaN. *)

Definition xr_le (x y : XR) : Prop :=
  match x, y with
  | xr_nan, _ | _, xr_nan => False
  | xr_inf true, _ => True
  | _, xr_inf false => True
  | xr_inf false, _ => False
  | _, xr_inf true => False
  | _, _ => (xr_value x <= xr_value y)%R
  end.

Definition xr_ltb (x y : XR) : bool :=
  match x, y with
  | xr_nan, _ | _, xr_nan => false
  | xr_inf true, xr_inf true => false
  | xr_inf true, _ => true
  | xr_inf false, _ => false
  | _, xr_inf false => true
  | _, xr_inf true => false
  | _, _ => if Rlt_dec (xr_value x) (xr_value y) then true else false
  end.

Definition xr_eqb (x y : XR) : bool :=
  match x, y with
  | xr_nan, _ | _, xr_nan => false
  | xr_inf s, xr_inf s' => Bool.eqb s s'
  | xr_inf _, _ | _, xr_inf _ => false
  | _, _ => if Req_dec_T (xr_value x) (xr_value y) then true else false
  end.

(** [pow]: the exponent of a real number that is an odd integer decides
    the sign of a power of a negative base. *)

Definition R_is_integer (r : R) : bool := R_is_zero (frac_part r).

Definition R_is_odd_integer (r : R) : bool :=
  R_is_integer r && Z.odd (Int_part r).

Definition xr_pow (x y : XR) : XR :=
  if xr_is_zero y then xr_fin 1
  else if xr_eqb x (xr_fin 1) then xr_fin 1
  else
    match x, y with
    | xr_nan, _ | _, xr_nan => xr_nan
    | _, xr_zero _ => xr_fin 1
    | xr_zero _, xr_inf s' => if s' then xr_inf false else xr_zero false
    | xr_zero s, xr_fin b =>
        if R_negative b then xr_inf (s && R_is_odd_integer b)
        else xr_zero (s && R_is_odd_integer b)
    | xr_inf false, xr_inf s' => if s' then xr_zero false else xr_inf false
    | xr_inf false, xr_fin b =>
        if R_negative b then xr_zero false else xr_inf false
    | xr_inf true, xr_inf s' => if s' then xr_zero false else xr_inf false
    | xr_inf true, xr_fin b =>
        if R_negative b then xr_zero (R_is_odd_integer b)
        else xr_inf (R_is_odd_integer b)
    | xr_fin a, xr_inf s' =>
        if Rlt_dec (Rabs a) 1 then if s' then xr_inf false else xr_zero false
        else if Rlt_dec 1 (Rabs a) then
          if s' then xr_zero false else xr_inf false
        else xr_fin 1
    | xr_fin a, xr_fin b =>
        if R_is_zero a then
          if R_negative b then xr_inf false else xr_zero false
        else if R_negative a then
          if R_is_integer b then
            if R_is_odd_integer b then xr_fin (- Rpower (- a) b)
            else xr_fin (Rpower (- a) b)
          else xr_nan
        else xr_fin (Rpower a b)
    end.

#[export] Instance XR_float_ops : FloatOps XR := {|
  f_of_Q := fun q => xr_of_R (Q2R q);
  fadd := xr_add;
  fsub := xr_sub;
  fmul := xr_mul;
  fdiv := xr_div;
  fneg := xr_opp;
  fexp := xr_exp;
  fsqrt := xr_sqrt;
  fpow := xr_pow;
  fltb := xr_ltb;
  feqb := xr_eqb
|}.

(** ** States on the strip board *)

Definition strip_empty : Board := strip_board (repeat PsEmpty 6) 0 [].

#[export] Instance strip_ops : BoardOps := strip_board_ops strip_empty.

Definition StripState : Type :=
  @State R Welford (list R) (Point -> PointLocality) unit.

Definition strip_shared (bd : Board) : SharedConst := {|
  board := bd;
  to_play := get_to_play bd;
  avoid_symmetric_draw := true;
  detect_symmetry := true;
  symmetric_points := strip_mirror;
  min_move_all_considered := 0;
  is_piece_considered := fun _ => 0;
  is_piece_considered_all := 0;
  piece_map := fun _ _ => true
|}.

(** The state of a search on the position [bd] before the first move list
    is generated, with the given symmetry flag and local values. *)

Definition strip_state (bd : Board) (broken : bool)
    (lv : Point -> PointLocality) : StripState := {|
  m_shared_const := strip_shared bd;
  m_bd := bd;
  m_bc := strip_const;
  m_nu_colors := 2;
  m_move_info_array := get_move_info_array strip_const;
  m_move_info_ext_array := get_move_info_ext_array strip_const;
  m_nu_moves_initial := get_nu_moves bd;
  m_check_terminate_early := false;
  m_nu_simulations := 0%Z;
  m_nu_playout_moves := 0%Z;
  m_nu_last_good_reply_moves := 0%Z;
  m_check_symmetric_draw := true;
  m_symmetry_min_nu_pieces := 3;
  m_is_symmetry_broken := broken;
  m_prior_knowledge := tt;
  m_stat_score := fun _ => welford_clear {| w_count := 0; w_mean := 0%R; w_m2 := 0%R |};
  m_stat_len := welford_clear {| w_count := 0; w_mean := 0%R; w_m2 := 0%R |};
  m_gamma_piece := fun _ => 1%R;
  m_gamma_nu_attach := fun _ => 1%R;
  m_total_gamma := 0%R;
  m_cumulative_gamma := fun _ => 0%R;
  m_moves := fun _ => [];
  m_marker := fun _ _ => false;
  m_moves_added_at := fun _ _ => false;
  m_new_moves := fun _ => [];
  m_is_move_list_initialized := fun _ => false;
  m_has_moves := fun _ => true;
  m_is_piece_considered := fun _ => 0;
  m_force_consider_all_pieces := false;
  m_nu_passes := 0%Z;
  m_local_value := lv;
  m_random := [(1 / 2)%R]
|}.

Definition no_local_values : Point -> PointLocality := fun _ => NotLocal.

(** Colour 0 on point 1 and colour 1 on its mirror point 4. *)

Definition strip_mirrored : Board :=
  strip_board [PsEmpty; PsColor 0; PsEmpty; PsEmpty; PsColor 1; PsEmpty] 0
    [MvReg 1; MvReg 4].

(** Colour 0 on point 1, colour 1 to play. *)

Definition strip_first_played : Board :=
  strip_board [PsEmpty; PsColor 0; PsEmpty; PsEmpty; PsEmpty; PsEmpty] 1
    [MvReg 1].

(** Three pieces on the board in a mirrored position (points 1, 4 and the
    point 2, whose mirror point 3 is the reply not yet played). *)

Definition strip_three : Board :=
  strip_board [PsEmpty; PsColor 0; PsColor 0; PsEmpty; PsColor 1; PsEmpty] 1
    [MvReg 1; MvReg 4; MvReg 2].

(** Every point taken: colour 0 on the left half, colour 1 on the right. *)

Definition strip_full : Board :=
  strip_board
    [PsColor 0; PsColor 0; PsColor 0; PsColor 1; PsColor 1; PsColor 1] 0
    [MvReg 1; MvReg 4; MvReg 0; MvReg 5; MvReg 2; MvReg 3].

(** Colour 0 has played its starting point 2; colour 1 is to make its first
    move.  The attach points 1 and 3 of the move of colour 0 are local, the
    points next to them are adjacent to an attach point. *)

Definition strip_center_played : Board :=
  strip_board [PsEmpty; PsEmpty; PsColor 0; PsEmpty; PsEmpty; PsEmpty] 1
    [MvReg 2].

Definition center_local_values : Point -> PointLocality :=
  fun p =>
    match p with
    | 1 | 3 => LocalAttach
    | 0 | 4 => LocalAdjAttach
    | _ => NotLocal
    end.
(** * Text output of the GTP and SGF libraries

    [libboardgame_gtp::Response::write] and
    [libboardgame_sgf::Writer::get_escaped].  A [std::string] is the list of
    its characters; an output stream is the list of the characters written
    to it so far. *)

Definition newline : ascii := "010"%char.
Definition space : ascii := " "%char.
Definition tab : ascii := "009"%char.
Definition vertical_tab : ascii := "011"%char.
Definition form_feed : ascii := "012"%char.
Definition backslash : ascii := "092"%char.
Definition right_bracket : ascii := "]"%char.

Module Response.

(** ** [Response::write]

    [text] is [m_stream.str()], which the function copies to [buffer]; the
    result is the stream [out] after the call.  One round of the loop
    carries the stream and [was_newline]. *)

Definition write_char (acc : list ascii * bool) (c : ascii)
    : list ascii * bool :=
  let (out, was_newline) := acc in
  let is_newline := Ascii.eqb c newline in
  let out := if is_newline && was_newline then out ++ [space] else out in
  (out ++ [c], is_newline).

Definition write (text : list ascii) (out : list ascii) : list ascii :=
  let buffer := text in
  let (out, was_newline) := fold_left write_char buffer (out, false) in
  let out := if negb was_newline then out ++ [newline] else out in
  out ++ [newline].

(** What the loop and the two statements after it append to the stream for
    the rest [text] of the buffer, when the character before it was or was
    not a newline. *)

Fixpoint written (was_newline : bool) (text : list ascii) : list ascii :=
  match text with
  | [] => if was_newline then [newline] else [newline; newline]
  | c :: text' =>
      let is_newline := Ascii.eqb c newline in
      (if is_newline && was_newline then [space; c] else [c])
      ++ written is_newline text'
  end.

(** A text in which no newline follows a newline. *)

Fixpoint no_blank_line (text : list ascii) : Prop :=
  match text with
  | [] => True
  | a :: text' =>
      match text' with
      | [] => True
      | b :: _ => ~ (a = newline /\ b = newline)
      end /\ no_blank_line text'
  end.

(** The end of a response whose text ends or does not end in a newline. *)

Definition terminator (text : list ascii) : list ascii :=
  if Ascii.eqb (last text space) newline then [newline]
  else [newline; newline].

End Response.

Module Writer.

(** ** [Writer::get_escaped] *)

Definition escape_char (c : ascii) : list ascii :=
  if Ascii.eqb c right_bracket || Ascii.eqb c backslash then [backslash; c]
  else if Ascii.eqb c tab || Ascii.eqb c form_feed || Ascii.eqb c vertical_tab
  then [space]
  else [c].

Definition get_escaped (s : list ascii) : list ascii :=
  fold_left (fun buffer c => buffer ++ escape_char c) s [].

(** The whitespace that [get_escaped] replaces by a space. *)

Definition is_replaced_space (c : ascii) : bool :=
  Ascii.eqb c tab || Ascii.eqb c form_feed || Ascii.eqb c vertical_tab.

(** An escaped text read from the left: a backslash is followed by the
    bracket or the backslash that it escapes, and no bracket stands
    without one. *)

Fixpoint well_escaped (s : list ascii) : Prop :=
  match s with
  | [] => True
  | c :: s' =>
      if Ascii.eqb c backslash then
        match s' with
        | [] => False
        | c' :: s'' =>
            (c' = right_bracket \/ c' = backslash) /\ well_escaped s''
        end
      else c <> right_bracket /\ well_escaped s'
  end.

(** Reading an escaped text: a backslash stands for the character after
    it. *)

Fixpoint unescape (s : list ascii) : list ascii :=
  match s with
  | [] => []
  | c :: s' =>
      if Ascii.eqb c backslash then
        match s' with
        | [] => []
        | c' :: s'' => c' :: unescape s''
        end
      else c :: unescape s'
  end.

End Writer.


(** * Properties of the player's budget setters *)

Unset Implicit Arguments.

Section PlayerTheory.

Context {F : Type} {float_ops : FloatOps F}.

Lemma set_fixed_simulations_budget :
  forall (n : F) (p : Player),
    get_fixed_simulations (set_fixed_simulations n p) = n /\
    get_fixed_time (set_fixed_simulations n p) = f_of_Q 0.
Proof. intros n p. split; reflexivity. Qed.

Lemma set_fixed_time_budget :
  forall (seconds : F) (p : Player),
    get_fixed_time (set_fixed_time seconds p) = seconds /\
    get_fixed_simulations (set_fixed_time seconds p) = f_of_Q 0.
Proof. intros seconds p. split; reflexivity. Qed.

Lemma set_level_budget :
  forall (level : Z) (p : Player),
    get_level (set_level level p) = level /\
    get_fixed_simulations (set_level level p) = f_of_Q 0 /\
    get_fixed_time (set_level level p) = f_of_Q 0.
Proof. intros level p. repeat split; reflexivity. Qed.

Lemma run_call_at_most_one :
  forall (p : Player) (call : BudgetCall),
    at_most_one_fixed_budget (run_call p call).
Proof.
  intros p [n | seconds | level]; unfold at_most_one_fixed_budget; simpl.
  - right; reflexivity.
  - left; reflexivity.
  - left; reflexivity.
Qed.

Lemma run_calls_snoc :
  forall (calls : list BudgetCall) (call : BudgetCall) (p : Player),
    run_calls (calls ++ [call]) p = run_call (run_calls calls p) call.
Proof.
  intros calls call p. unfold run_calls. rewrite fold_left_app. reflexivity.
Qed.

(** C10: after any sequence of calls of [set_fixed_simulations],
    [set_fixed_time] and [set_level], at most one of
    [get_fixed_simulations()] and [get_fixed_time()] is different from zero
    (for the empty sequence: when that held of the player before); the
    first setter zeroes the fixed time, the second the fixed number of
    simulations, and [set_level] zeroes both. *)
Theorem fixed_budgets_exclusive :
  forall (calls : list BudgetCall) (p : Player),
    calls <> [] \/ at_most_one_fixed_budget p ->
    at_most_one_fixed_budget (run_calls calls p) /\
    (forall n q, get_fixed_time (set_fixed_simulations n q) = f_of_Q 0) /\
    (forall s q, get_fixed_simulations (set_fixed_time s q) = f_of_Q 0) /\
    (forall l q,
        get_fixed_simulations (set_level l q) = f_of_Q 0 /\
        get_fixed_time (set_level l q) = f_of_Q 0).
Proof.
  intros calls p H. split.
  - revert H. induction calls as [| call calls' _] using rev_ind; intros H.
    + destruct H as [H | H]; [congruence | exact H].
    + rewrite run_calls_snoc. apply run_call_at_most_one.
  - repeat split; reflexivity.
Qed.

End PlayerTheory.

(** * The book switch and the budget setters *)

Section PlayerCalls.

Context {F : Type} {float_ops : FloatOps F}.

Lemma set_use_book_run_call :
  forall (b : bool) (p : Player) (call : BudgetCall),
    set_use_book b (run_call p call) = run_call (set_use_book b p) call.
Proof. intros b p [n | seconds | level]; reflexivity. Qed.

(** X17: the budget setters and [set_use_book] do not interfere: switching
    the book after any sequence of [set_fixed_simulations], [set_fixed_time]
    and [set_level] calls gives the player that the same calls give after
    the switch; the calls leave the book switch as it was, and the level
    after them is the one of the last [set_level] among them, or the old
    level when there is none. *)
Theorem budget_calls_commute_with_set_use_book :
  forall (calls : list BudgetCall) (b : bool) (p : Player),
    set_use_book b (run_calls calls p) = run_calls calls (set_use_book b p) /\
    get_use_book (run_calls calls p) = get_use_book p /\
    get_level (run_calls calls p)
    = fold_left
        (fun level call =>
           match call with
           | CallSetLevel level' => level'
           | _ => level
           end)
        calls (get_level p).
Proof.
  intros calls b. unfold run_calls.
  induction calls as [| call calls IH]; intros p.
  - repeat split.
  - simpl fold_left. destruct (IH (run_call p call)) as (H1 & H2 & H3).
    rewrite H1, H2, H3, set_use_book_run_call.
    destruct call; repeat split.
Qed.

End PlayerCalls.

(** * Properties of the simulation state *)

Section StateTheory.

Context {F Stat Rng LV Compute PK : Type}.
Context {float_ops : FloatOps F}.
Context {stat_ops : StatisticsOps F Stat}.
Context {random_ops : RandomOps F Rng}.
Context {lv_ops : LocalValueOps LV Compute}.
Context {pk_ops : PriorKnowledgeOps PK}.
Context {board_ops : BoardOps}.

Notation St := (@State F Stat Rng LV PK).

Open Scope float_scope.

(** ** Folds *)

Lemma fold_left_invariant :
  forall {A B : Type} (P : A -> Prop) (f : A -> B -> A) (l : list B) (a : A),
    P a ->
    (forall a' x, In x l -> P a' -> P (f a' x)) ->
    P (fold_left f l a).
Proof.
  intros A B P f l. induction l as [| x l IH]; intros a Ha Hstep; simpl.
  - exact Ha.
  - apply IH.
    + apply Hstep; [left; reflexivity | exact Ha].
    + intros a' y Hy. apply Hstep. right. exact Hy.
Qed.

(** ** What move generation leaves alone

    Move generation writes the move lists, the markers, the gamma sums, the
    local values and the piece-consideration state, and nothing else. *)

Set Implicit Arguments.

Record gen_frame (st st' : St) : Prop := {
  gf_shared_const : m_shared_const st' = m_shared_const st;
  gf_bd : m_bd st' = m_bd st;
  gf_bc : m_bc st' = m_bc st;
  gf_nu_colors : m_nu_colors st' = m_nu_colors st;
  gf_move_info_array : m_move_info_array st' = m_move_info_array st;
  gf_move_info_ext_array : m_move_info_ext_array st' = m_move_info_ext_array st;
  gf_gamma_piece : m_gamma_piece st' = m_gamma_piece st;
  gf_gamma_nu_attach : m_gamma_nu_attach st' = m_gamma_nu_attach st;
  gf_nu_passes : m_nu_passes st' = m_nu_passes st;
  gf_is_symmetry_broken : m_is_symmetry_broken st' = m_is_symmetry_broken st;
  gf_check_terminate_early :
    m_check_terminate_early st' = m_check_terminate_early st;
  gf_symmetry_min_nu_pieces :
    m_symmetry_min_nu_pieces st' = m_symmetry_min_nu_pieces st;
  gf_nu_playout_moves : m_nu_playout_moves st' = m_nu_playout_moves st;
  gf_nu_last_good_reply_moves :
    m_nu_last_good_reply_moves st' = m_nu_last_good_reply_moves st;
  gf_random : m_random st' = m_random st;
  gf_stat_score : m_stat_score st' = m_stat_score st;
  gf_stat_len : m_stat_len st' = m_stat_len st
}.

Unset Implicit Arguments.

Lemma gen_frame_refl : forall st : St, gen_frame st st.
Proof. intros st. constructor; reflexivity. Qed.

Lemma gen_frame_trans :
  forall st1 st2 st3 : St,
    gen_frame st1 st2 -> gen_frame st2 st3 -> gen_frame st1 st3.
Proof.
  intros st1 st2 st3 [] []. constructor; congruence.
Qed.

Lemma gen_frame_fold :
  forall {B : Type} (f : St -> B -> St) (l : list B) (st : St),
    (forall st' x, In x l -> gen_frame st' (f st' x)) ->
    gen_frame st (fold_left f l st).
Proof.
  intros B f l st Hstep.
  apply (fold_left_invariant (fun st' => gen_frame st st')).
  - apply gen_frame_refl.
  - intros st' x Hx Hst'. eapply gen_frame_trans; [exact Hst' |].
    apply Hstep. exact Hx.
Qed.

Lemma set_m_moves_frame :
  forall v (st : St), gen_frame st (set_m_moves v st).
Proof. intros. constructor; reflexivity. Qed.

Lemma set_m_marker_frame :
  forall v (st : St), gen_frame st (set_m_marker v st).
Proof. intros. constructor; reflexivity. Qed.

Lemma set_m_moves_added_at_frame :
  forall v (st : St), gen_frame st (set_m_moves_added_at v st).
Proof. intros. constructor; reflexivity. Qed.

Lemma set_m_new_moves_frame :
  forall v (st : St), gen_frame st (set_m_new_moves v st).
Proof. intros. constructor; reflexivity. Qed.

Lemma set_m_is_move_list_initialized_frame :
  forall v (st : St), gen_frame st (set_m_is_move_list_initialized v st).
Proof. intros. constructor; reflexivity. Qed.

Lemma set_m_is_piece_considered_frame :
  forall v (st : St), gen_frame st (set_m_is_piece_considered v st).
Proof. intros. constructor; reflexivity. Qed.

Lemma set_m_force_consider_all_pieces_frame :
  forall v (st : St), gen_frame st (set_m_force_consider_all_pieces v st).
Proof. intros. constructor; reflexivity. Qed.

Lemma set_m_local_value_frame :
  forall v (st : St), gen_frame st (set_m_local_value v st).
Proof. intros. constructor; reflexivity. Qed.

Lemma set_m_total_gamma_frame :
  forall v (st : St), gen_frame st (set_m_total_gamma v st).
Proof. intros. constructor; reflexivity. Qed.

Lemma set_m_cumulative_gamma_frame :
  forall v (st : St), gen_frame st (set_m_cumulative_gamma v st).
Proof. intros. constructor; reflexivity. Qed.

Lemma set_m_has_moves_frame :
  forall v (st : St), gen_frame st (set_m_has_moves v st).
Proof. intros. constructor; reflexivity. Qed.

Ltac frame_set :=
  first
    [ eapply gen_frame_trans; [| apply set_m_moves_frame]
    | eapply gen_frame_trans; [| apply set_m_marker_frame]
    | eapply gen_frame_trans; [| apply set_m_moves_added_at_frame]
    | eapply gen_frame_trans; [| apply set_m_new_moves_frame]
    | eapply gen_frame_trans; [| apply set_m_is_move_list_initialized_frame]
    | eapply gen_frame_trans; [| apply set_m_is_piece_considered_frame]
    | eapply gen_frame_trans; [| apply set_m_force_consider_all_pieces_frame]
    | eapply gen_frame_trans; [| apply set_m_local_value_frame]
    | eapply gen_frame_trans; [| apply set_m_total_gamma_frame]
    | eapply gen_frame_trans; [| apply set_m_cumulative_gamma_frame]
    | eapply gen_frame_trans; [| apply set_m_has_moves_frame] ].

Ltac frame_step := repeat frame_set; try apply gen_frame_refl.

Lemma add_move_frame :
  forall c mv gamma (st : St), gen_frame st (add_move c mv gamma st).
Proof. intros. unfold add_move. frame_step. Qed.

Lemma marker_set_frame :
  forall c mv (st : St), gen_frame st (marker_set c mv st).
Proof. intros. unfold marker_set. frame_step. Qed.

Lemma marker_clear_frame :
  forall c mv (st : St), gen_frame st (marker_clear c mv st).
Proof. intros. unfold marker_clear. frame_step. Qed.

Lemma marker_clear_all_set_known_frame :
  forall c moves (st : St), gen_frame st (marker_clear_all_set_known c moves st).
Proof.
  intros. unfold marker_clear_all_set_known. apply gen_frame_fold.
  intros. apply marker_clear_frame.
Qed.

Lemma add_moves_step_frame :
  forall c is_forb (st : St) mv, gen_frame st (add_moves_step c is_forb st mv).
Proof.
  intros. unfold add_moves_step.
  destruct (negb (m_marker st c mv)); [| apply gen_frame_refl].
  destruct (check_move is_forb (get_move_info st mv) st);
    [| apply gen_frame_refl].
  eapply gen_frame_trans; [apply marker_set_frame | apply add_move_frame].
Qed.

Lemma add_moves_piece_frame :
  forall p c piece adj_status (st : St),
    gen_frame st (add_moves_piece p c piece adj_status st).
Proof.
  intros. unfold add_moves_piece. apply gen_frame_fold.
  intros. apply add_moves_step_frame.
Qed.

Lemma add_moves_frame :
  forall p c pieces (st : St), gen_frame st (add_moves p c pieces st).
Proof.
  intros. unfold add_moves. frame_set.
  apply gen_frame_fold. intros st' piece _.
  apply gen_frame_fold. intros. apply add_moves_step_frame.
Qed.

Lemma add_starting_moves_step_frame :
  forall c is_forb piece with_gamma (st : St) mv,
    gen_frame st (add_starting_moves_step c is_forb piece with_gamma st mv).
Proof.
  intros. unfold add_starting_moves_step.
  destruct (check_move_without_gamma is_forb mv st); [| apply gen_frame_refl].
  destruct with_gamma.
  - eapply gen_frame_trans; [apply marker_set_frame | apply add_move_frame].
  - frame_set. apply marker_set_frame.
Qed.

Lemma add_starting_moves_frame :
  forall c pieces with_gamma (st : St),
    gen_frame st (add_starting_moves c pieces with_gamma st).
Proof.
  intros. unfold add_starting_moves.
  destruct (find_best_starting_point c st); [| apply gen_frame_refl].
  apply gen_frame_fold. intros st' piece _.
  apply gen_frame_fold. intros. apply add_starting_moves_step_frame.
Qed.

Lemma init_moves_with_gamma_once_frame :
  forall c (st : St), gen_frame st (init_moves_with_gamma_once c st).
Proof.
  intros. unfold init_moves_with_gamma_once. do 2 frame_set.
  match goal with
  | |- gen_frame _ (if ?b then _ else _) => destruct b
  end.
  - eapply gen_frame_trans; [| apply add_starting_moves_frame].
    frame_set.
    eapply gen_frame_trans; [| apply marker_clear_all_set_known_frame].
    frame_step.
  - eapply gen_frame_trans; [| apply gen_frame_fold].
    + frame_set.
      eapply gen_frame_trans; [| apply marker_clear_all_set_known_frame].
      frame_step.
    + intros st' p _.
      destruct (negb (is_forbidden (m_bd st') c p));
        [apply add_moves_frame | apply gen_frame_refl].
Qed.

(** The recursion of [init_moves_with_gamma], one call at a time. *)

Lemma init_moves_with_gamma_fuel_unfold :
  forall (fuel : nat) (c : Color) (st : St),
    init_moves_with_gamma_fuel fuel c st
    = let st1 := init_moves_with_gamma_once c st in
      if is_empty (m_moves st1 c) && negb (m_force_consider_all_pieces st1) then
        match fuel with
        | O => st1
        | S fuel' =>
            init_moves_with_gamma_fuel fuel' c
              (set_m_force_consider_all_pieces true st1)
        end
      else st1.
Proof. intros [| fuel] c st; reflexivity. Qed.

Lemma init_moves_with_gamma_fuel_frame :
  forall fuel c (st : St), gen_frame st (init_moves_with_gamma_fuel fuel c st).
Proof.
  induction fuel as [| fuel IH]; intros c st;
    rewrite init_moves_with_gamma_fuel_unfold; cbv zeta;
    pose proof (init_moves_with_gamma_once_frame c st) as Hf;
    remember (init_moves_with_gamma_once c st) as st1 eqn:E; clear E;
    destruct (_ && _); try exact Hf.
  eapply gen_frame_trans; [| apply IH].
  eapply gen_frame_trans; [exact Hf |].
  apply set_m_force_consider_all_pieces_frame.
Qed.

Lemma init_moves_with_gamma_frame :
  forall c (st : St), gen_frame st (init_moves_with_gamma c st).
Proof. intros. apply init_moves_with_gamma_fuel_frame. Qed.

Lemma update_moves_keep_frame :
  forall c is_piece_left is_forb (st : St) mv,
    gen_frame st (update_moves_keep c is_piece_left is_forb st mv).
Proof.
  intros. unfold update_moves_keep.
  destruct (is_piece_left _); [| apply marker_clear_frame].
  destruct (check_move _ _ _); [apply add_move_frame | apply marker_clear_frame].
Qed.

Lemma update_moves_new_frame :
  forall c is_forb pieces (st : St) mv,
    gen_frame st (update_moves_new c is_forb pieces st mv).
Proof.
  intros. unfold update_moves_new. apply gen_frame_fold.
  intros st' p _.
  destruct (_ && _); [apply add_moves_frame | apply gen_frame_refl].
Qed.

Lemma update_moves_frame :
  forall c (st : St), gen_frame st (update_moves c st).
Proof.
  intros c st. unfold update_moves.
  set (st0 := set_m_moves _ (set_m_total_gamma _ (set_m_local_value _ st))).
  assert (H0 : gen_frame st st0) by (subst st0; frame_step).
  set (st1 := fold_left _ (m_moves _ c) st0).
  assert (H1 : gen_frame st st1).
  { eapply gen_frame_trans; [exact H0 |]. subst st1. apply gen_frame_fold.
    intros. apply update_moves_keep_frame. }
  set (st2 := set_m_new_moves _ _).
  assert (H2 : gen_frame st st2).
  { subst st2. frame_set. eapply gen_frame_trans; [exact H1 |].
    apply gen_frame_fold. intros. apply update_moves_new_frame. }
  clearbody st2. clear H0 H1 st0 st1.
  destruct (negb (_ =? _)); [| exact H2].
  set (st3 := if is_empty (m_moves st2 c) then _ else st2).
  assert (H3 : gen_frame st st3).
  { subst st3. destruct (is_empty _); [| exact H2].
    eapply gen_frame_trans; [exact H2 | frame_step]. }
  clearbody st3.
  destruct (negb (_ =? _)); [| exact H3].
  frame_set. eapply gen_frame_trans; [exact H3 |].
  apply gen_frame_fold. intros st' p _.
  destruct (negb _); [| apply gen_frame_refl].
  apply gen_frame_fold. intros. apply add_moves_piece_frame.
Qed.

Lemma marker_clear_all_set_known_fields :
  forall (c : Color) (l : list Move) (st : St),
    let st' := marker_clear_all_set_known c l st in
    m_is_piece_considered st' = m_is_piece_considered st /\
    m_local_value st' = m_local_value st /\
    m_force_consider_all_pieces st' = m_force_consider_all_pieces st.
Proof.
  intros c l st. cbv zeta. unfold marker_clear_all_set_known.
  apply (fold_left_invariant
           (fun st' : St =>
              m_is_piece_considered st' = m_is_piece_considered st /\
              m_local_value st' = m_local_value st /\
              m_force_consider_all_pieces st' = m_force_consider_all_pieces st)).
  - repeat split.
  - intros st' mv _ H. exact H.
Qed.

Lemma playout_loop_generate_frame :
  forall st : St, gen_frame st (playout_loop_generate st).
Proof.
  intros st. unfold playout_loop_generate.
  destruct (negb _); [apply init_moves_with_gamma_frame |].
  destruct (m_has_moves _ _); [apply update_moves_frame | apply gen_frame_refl].
Qed.

(** ** The rounds of the playout loop *)

(** A round that records a pass found the list of the colour to play
    empty, adds one to the passes, gives the turn to the next colour and
    breaks the symmetry; it changes nothing else of what move generation
    leaves alone. *)

Lemma playout_loop_body_pass :
  forall st st' : St,
    playout_loop_body st = LoopPass st' ->
    let to_play := get_to_play (m_bd st) in
    m_moves (playout_loop_generate st) to_play = [] /\
    m_moves st' to_play = [] /\
    m_nu_passes st' = wrap_unsigned (m_nu_passes st + 1) /\
    m_bd st' = set_to_play (m_bd st) (get_next (m_bd st) to_play) /\
    m_is_symmetry_broken st' = true /\
    m_nu_colors st' = m_nu_colors st /\
    wrap_unsigned (m_nu_passes st + 1) <> Z.of_nat (m_nu_colors st).
Proof.
  intros st st' H to_play. unfold playout_loop_body in H.
  fold to_play in H.
  pose proof (playout_loop_generate_frame st) as Hf.
  destruct (m_moves (playout_loop_generate st) to_play) as [| mv moves] eqn:Hm;
    simpl in H; [| discriminate].
  rewrite (gf_nu_passes Hf), (gf_nu_colors Hf) in H.
  destruct (Z.eqb_spec (wrap_unsigned (m_nu_passes st + 1))
              (Z.of_nat (m_nu_colors st))) as [| Hne]; [discriminate |].
  destruct (_ && _); [discriminate |].
  injection H as H. subst st'. simpl.
  rewrite ?(gf_nu_passes Hf), ?(gf_nu_colors Hf), ?(gf_bd Hf), ?Hm.
  repeat split; try reflexivity. exact Hne.
Qed.

(** A round that ends the loop records no pass. *)

Lemma playout_loop_body_no_pass :
  forall st st' : St,
    playout_loop_body st = LoopBreak st' \/
    playout_loop_body st = LoopReturnFalse st' ->
    m_nu_passes st' = m_nu_passes st /\
    m_bd st' = m_bd st /\
    m_is_symmetry_broken st' = m_is_symmetry_broken st /\
    m_nu_colors st' = m_nu_colors st.
Proof.
  intros st st' H. unfold playout_loop_body in H.
  pose proof (playout_loop_generate_frame st) as Hf.
  set (stg := playout_loop_generate st) in *.
  set (sth := set_m_has_moves _ stg) in *.
  assert (Hh : m_nu_passes sth = m_nu_passes st /\ m_bd sth = m_bd st /\
               m_is_symmetry_broken sth = m_is_symmetry_broken st /\
               m_nu_colors sth = m_nu_colors st).
  { subst sth. simpl.
    rewrite (gf_nu_passes Hf), (gf_bd Hf), (gf_is_symmetry_broken Hf),
      (gf_nu_colors Hf). repeat split. }
  clearbody sth.
  destruct (negb (is_empty _)).
  - destruct H as [H | H]; [| discriminate]. injection H as H. subst st'.
    exact Hh.
  - destruct (_ =? _)%Z.
    + destruct H as [H | H]; [discriminate |]. injection H as H. subst st'.
      exact Hh.
    + destruct (_ && _); destruct H as [H | H]; try discriminate.
      injection H as H. subst st'. exact Hh.
Qed.

(** With fewer passes than colours the loop ends within [m_nu_colors]
    rounds. *)

Lemma playout_loop_returns :
  forall (fuel : nat) (st : St),
    (0 <= m_nu_passes st)%Z ->
    (Z.of_nat (m_nu_colors st) < 2 ^ 32)%Z ->
    (Z.of_nat (m_nu_colors st) - m_nu_passes st <= Z.of_nat fuel)%Z ->
    (m_nu_passes st < Z.of_nat (m_nu_colors st))%Z ->
    exists r, playout_loop fuel st = Some r.
Proof.
  induction fuel as [| fuel IH]; intros st Hpos Hbound Hfuel Hlt.
  - lia.
  - simpl. destruct (playout_loop_body st) as [st' | st' | st'] eqn:Hbody.
    + eexists; reflexivity.
    + eexists; reflexivity.
    + apply playout_loop_body_pass in Hbody.
      destruct Hbody as (_ & _ & Hp & _ & _ & Hc & Hne).
      assert (Hw : wrap_unsigned (m_nu_passes st + 1) = (m_nu_passes st + 1)%Z).
      { unfold wrap_unsigned. apply Z.mod_small. lia. }
      rewrite Hw in *.
      apply IH; rewrite ?Hp, ?Hc; lia.
Qed.

(** What a run of the loop does to the passes: either none was recorded, or
    the symmetry is broken at the end. *)

Lemma playout_loop_passes :
  forall (fuel : nat) (st st' : St) (found : bool),
    playout_loop fuel st = Some (found, st') ->
    (m_nu_passes st' = m_nu_passes st /\ m_bd st' = m_bd st /\
     m_is_symmetry_broken st' = m_is_symmetry_broken st) \/
    m_is_symmetry_broken st' = true.
Proof.
  induction fuel as [| fuel IH]; intros st st' found H; simpl in H.
  - discriminate.
  - destruct (playout_loop_body st) as [st1 | st1 | st1] eqn:Hbody.
    + injection H as _ H. subst st1.
      left. destruct (@playout_loop_body_no_pass st st' (or_introl Hbody))
        as (H1 & H2 & H3 & _). auto.
    + injection H as _ H. subst st1.
      left. destruct (@playout_loop_body_no_pass st st' (or_intror Hbody))
        as (H1 & H2 & H3 & _). auto.
    + apply playout_loop_body_pass in Hbody.
      destruct Hbody as (_ & _ & _ & _ & Hb & _).
      right. destruct (IH _ _ _ H) as [(_ & _ & H3) | H3]; congruence.
Qed.

(** Enough fuel for the loop, and [gen_playout_move] returns. *)

Lemma gen_playout_move_returns :
  forall (fuel : nat) (lgr1 lgr2 mv : Move) (st : St),
    (0 <= m_nu_passes st <= Z.of_nat (m_nu_colors st))%Z ->
    (Z.of_nat (m_nu_colors st) < 2 ^ 32)%Z ->
    m_nu_colors st <= fuel ->
    exists r, gen_playout_move fuel lgr1 lgr2 mv st = Some r.
Proof.
  intros fuel lgr1 lgr2 mv st Hp Hc Hfuel. unfold gen_playout_move.
  destruct (Z.eqb_spec (m_nu_passes st) (Z.of_nat (m_nu_colors st))) as [| Hne];
    [eexists; reflexivity |].
  destruct (_ && _); [eexists; reflexivity |].
  destruct (_ && _); [eexists; reflexivity |].
  destruct (_ && _); [eexists; reflexivity |].
  destruct (playout_loop_returns fuel
              (set_m_nu_playout_moves (wrap_size_t (m_nu_playout_moves st + 1)) st))
    as [[found st'] Hr]; simpl; try lia.
  rewrite Hr. destruct found; [| eexists; reflexivity].
  destruct (generate_double (m_random st')). eexists; reflexivity.
Qed.

(** ** Symmetric positions end the playout as a draw *)

(** C1: whenever the symmetry-broken flag is false and at least
    [m_symmetry_min_nu_pieces] pieces are on the board, [gen_playout_move]
    returns [false] without generating a move (the reference [mv] and the
    state are as before), and [evaluate_playout] returns an array whose
    four entries are all 0.5. *)
Theorem symmetric_position_is_a_draw :
  forall (fuel : nat) (lgr1 lgr2 mv : Move) (st : St),
    m_is_symmetry_broken st = false ->
    m_symmetry_min_nu_pieces st <= get_nu_onboard_pieces (m_bd st) ->
    gen_playout_move fuel lgr1 lgr2 mv st = Some (false, mv, st) /\
    (forall i, i < 4 -> fst (evaluate_playout st) i = Some (f_of_Q 0.5)) /\
    snd (evaluate_playout st) = st.
Proof.
  intros fuel lgr1 lgr2 mv st Hflag Hpieces.
  apply Nat.leb_le in Hpieces.
  unfold gen_playout_move, evaluate_playout. rewrite Hflag, Hpieces. simpl.
  split.
  - destruct (_ =? _)%Z; reflexivity.
  - split; [| reflexivity].
    intros i Hi. apply Nat.ltb_lt in Hi. rewrite Hi. reflexivity.
Qed.

(** ** Last good replies *)

(** C9: when the playout is not terminated (fewer than [m_nu_colors]
    passes, the symmetry check does not fire) and [lgr2] is a regular move
    that is legal as a non-pass move, [gen_playout_move] returns [true] with
    [lgr2] and a state that differs from the old one in the two counters
    only: the last-good-reply counter is incremented and nothing is drawn
    from the random generator.  [lgr1] is played in the same way, and only
    when [lgr2] is not regular or not legal. *)
Theorem last_good_reply_is_played :
  forall (fuel : nat) (lgr1 lgr2 mv : Move) (st : St),
    (m_nu_passes st < Z.of_nat (m_nu_colors st))%Z ->
    m_is_symmetry_broken st = true \/
    get_nu_onboard_pieces (m_bd st) < m_symmetry_min_nu_pieces st ->
    (is_regular lgr2 = true -> is_legal_nonpass (m_bd st) lgr2 = true ->
     gen_playout_move fuel lgr1 lgr2 mv st
     = Some (true, lgr2, count_last_good_reply st)) /\
    (is_regular lgr2 && is_legal_nonpass (m_bd st) lgr2 = false ->
     is_regular lgr1 = true -> is_legal_nonpass (m_bd st) lgr1 = true ->
     gen_playout_move fuel lgr1 lgr2 mv st
     = Some (true, lgr1, count_last_good_reply st)) /\
    m_random (count_last_good_reply st) = m_random st /\
    m_moves (count_last_good_reply st) = m_moves st /\
    m_total_gamma (count_last_good_reply st) = m_total_gamma st /\
    m_nu_last_good_reply_moves (count_last_good_reply st)
    = wrap_size_t (m_nu_last_good_reply_moves st + 1).
Proof.
  intros fuel lgr1 lgr2 mv st Hpasses Hsym.
  assert (Hp : (m_nu_passes st =? Z.of_nat (m_nu_colors st))%Z = false)
    by (apply Z.eqb_neq; lia).
  assert (Hs : negb (m_is_symmetry_broken st)
               && (m_symmetry_min_nu_pieces st <=? get_nu_onboard_pieces (m_bd st))
               = false).
  { destruct Hsym as [Hb | Hlt].
    - rewrite Hb. reflexivity.
    - apply Nat.leb_gt in Hlt. rewrite Hlt. apply andb_false_r. }
  repeat split.
  - intros Hreg Hlegal. unfold gen_playout_move. rewrite Hp, Hs. simpl.
    rewrite Hreg, Hlegal. reflexivity.
  - intros Hno Hreg Hlegal. unfold gen_playout_move. rewrite Hp, Hs. simpl.
    rewrite Hno, Hreg, Hlegal. reflexivity.
Qed.

(** ** The symmetry flag *)

Lemma ps_is_color_spec :
  forall (s : PointState) (c : Color), ps_is_color s c = true <-> s = PsColor c.
Proof.
  intros [| c'] c; simpl.
  - split; discriminate.
  - rewrite Nat.eqb_eq. split; [intros ->; reflexivity | congruence].
Qed.

Lemma ps_is_empty_spec :
  forall s : PointState, ps_is_empty s = true <-> s = PsEmpty.
Proof.
  intros [| c]; simpl; split; congruence.
Qed.

Lemma update_symmetry_broken_bd :
  forall (mv : Move) (st : St), m_bd (update_symmetry_broken mv st) = m_bd st.
Proof.
  intros mv st. unfold update_symmetry_broken.
  destruct (_ || _); destruct (forallb _ _); reflexivity.
Qed.

Lemma update_symmetry_broken_flag :
  forall (mv : Move) (st : St),
    m_is_symmetry_broken st = false ->
    (m_is_symmetry_broken (update_symmetry_broken mv st) = false <->
     forall p, In p (mi_points (get_move_info st mv)) ->
               mirror_point_keeps_symmetry (m_bd st)
                 (symmetric_points (m_shared_const st)) p).
Proof.
  intros mv st Hflag.
  unfold update_symmetry_broken, mirror_point_keeps_symmetry.
  destruct (_ || _).
  - destruct (forallb _ _) eqn:Hall.
    + rewrite forallb_forall in Hall. split; [| intros _; exact Hflag].
      intros _ p Hp. apply ps_is_color_spec. apply Hall. exact Hp.
    + split; [discriminate |]. intros Hcond. exfalso.
      apply not_true_iff_false in Hall. apply Hall.
      apply forallb_forall. intros p Hp. apply ps_is_color_spec.
      apply Hcond. exact Hp.
  - destruct (forallb _ _) eqn:Hall.
    + rewrite forallb_forall in Hall. split; [| intros _; exact Hflag].
      intros _ p Hp. apply ps_is_empty_spec. apply Hall. exact Hp.
    + split; [discriminate |]. intros Hcond. exfalso.
      apply not_true_iff_false in Hall. apply Hall.
      apply forallb_forall. intros p Hp. apply ps_is_empty_spec.
      apply Hcond. exact Hp.
Qed.

Lemma play_playout_unbroken :
  forall (mv : Move) (st : St),
    m_is_symmetry_broken st = false ->
    play_playout mv st = update_symmetry_broken mv (played mv st).
Proof.
  intros mv st Hflag. unfold play_playout. cbv zeta.
  match goal with
  | |- (if negb (m_is_symmetry_broken ?s) then _ else _) = _ =>
      change (m_is_symmetry_broken s) with (m_is_symmetry_broken st)
  end.
  rewrite Hflag. reflexivity.
Qed.

(** C3 (as the code has it): while the symmetry is not broken, after a
    non-pass playout move the test is made for the colour [t] that is to
    play after the move.  If [t] is colour 0 or 2 (the second player has
    moved) the flag stays false exactly when the mirror point of every point
    of the move is owned by [get_second_color(t)], a colour of the first
    player; if [t] is colour 1 or 3 (the first player has moved) it stays
    false exactly when the mirror point of every point of the move is
    empty; in every other case the flag is set. *)
Theorem symmetry_flag_after_playout_move :
  forall (mv : Move) (st : St),
    m_is_symmetry_broken st = false ->
    let st' := play_playout mv st in
    let mirror := symmetric_points (m_shared_const st) in
    m_bd st' = play_nonpass (m_bd st) mv /\
    (m_is_symmetry_broken st' = false <->
     forall p, In p (mi_points (get_move_info st mv)) ->
               mirror_point_keeps_symmetry (m_bd st') mirror p) /\
    (~ (forall p, In p (mi_points (get_move_info st mv)) ->
                  mirror_point_keeps_symmetry (m_bd st') mirror p) ->
     m_is_symmetry_broken st' = true).
Proof.
  intros mv st Hflag st' mirror.
  assert (Hbd : m_bd st' = play_nonpass (m_bd st) mv).
  { subst st'. rewrite (play_playout_unbroken mv st Hflag).
    rewrite update_symmetry_broken_bd. reflexivity. }
  assert (Hiff : m_is_symmetry_broken st' = false <->
                 forall p, In p (mi_points (get_move_info st mv)) ->
                           mirror_point_keeps_symmetry (m_bd st') mirror p).
  { rewrite Hbd. subst st' mirror. rewrite (play_playout_unbroken mv st Hflag).
    apply (update_symmetry_broken_flag mv (played mv st)). exact Hflag. }
  split; [exact Hbd |]. split; [exact Hiff |].
  intros Hnot. destruct (m_is_symmetry_broken st') eqn:Hb; [reflexivity |].
  exfalso. apply Hnot. apply Hiff. reflexivity.
Qed.

(** [start_simulation] resets the state of move generation for every colour
    and the passes, and nothing of the symmetry detection. *)

Lemma start_simulation_colors_flag :
  forall (l : list Color) (st : St),
    m_is_symmetry_broken
      (fold_left
         (fun st c =>
            let st := set_m_has_moves (cm_set (m_has_moves st) c true) st in
            let st :=
              set_m_is_move_list_initialized
                (cm_set (m_is_move_list_initialized st) c false) st in
            let st := set_m_new_moves (cm_set (m_new_moves st) c []) st in
            set_m_moves_added_at
              (cm_set (m_moves_added_at st) c (fun _ => false)) st)
         l st)
    = m_is_symmetry_broken st.
Proof.
  intros l st.
  apply (fold_left_invariant
           (fun st' : St => m_is_symmetry_broken st' = m_is_symmetry_broken st)).
  - reflexivity.
  - intros st' c _ H. simpl. exact H.
Qed.

(** C4 (as the code has it): [start_simulation] does not write the
    symmetry-broken flag; after the call the flag has the value it had at
    the end of the previous simulation. *)
Theorem start_simulation_keeps_symmetry_flag :
  forall (n : nat) (st : St),
    m_is_symmetry_broken (start_simulation n st) = m_is_symmetry_broken st.
Proof.
  intros n st. unfold start_simulation. simpl.
  rewrite start_simulation_colors_flag. reflexivity.
Qed.

(** ** Passes *)

(** C8: during a playout a pass is recorded (the passes are incremented
    and the turn goes to the next colour) only in a round of the loop of
    [gen_playout_move] in which the move list of the colour to play is empty
    once it has been initialized or updated, and that round sets the
    symmetry-broken flag; a round that ends the loop records no pass.  So a
    call of [gen_playout_move] either leaves passes, board and flag as they
    were or returns with the flag set.  The pass of [play_expanded_child]
    sets the flag as well. *)
Theorem pass_only_on_empty_move_list :
  (forall st st' : St,
      playout_loop_body st = LoopPass st' ->
      m_moves (playout_loop_generate st) (get_to_play (m_bd st)) = [] /\
      m_nu_passes st' = wrap_unsigned (m_nu_passes st + 1) /\
      m_bd st' = set_to_play (m_bd st) (get_next (m_bd st) (get_to_play (m_bd st))) /\
      m_is_symmetry_broken st' = true) /\
  (forall st st' : St,
      playout_loop_body st = LoopBreak st' \/
      playout_loop_body st = LoopReturnFalse st' ->
      m_nu_passes st' = m_nu_passes st /\ m_bd st' = m_bd st) /\
  (forall (fuel : nat) (lgr1 lgr2 mv mv' : Move) (found : bool) (st st' : St),
      gen_playout_move fuel lgr1 lgr2 mv st = Some (found, mv', st') ->
      (m_nu_passes st' = m_nu_passes st /\ m_bd st' = m_bd st /\
       m_is_symmetry_broken st' = m_is_symmetry_broken st) \/
      m_is_symmetry_broken st' = true) /\
  (forall st : St,
      m_nu_passes (play_expanded_child MvPass st)
      = wrap_unsigned (m_nu_passes st + 1) /\
      m_bd (play_expanded_child MvPass st) = play_pass (m_bd st) /\
      m_is_symmetry_broken (play_expanded_child MvPass st) = true).
Proof.
  split; [| split; [| split]].
  - intros st st' H. apply playout_loop_body_pass in H.
    destruct H as (H1 & _ & H3 & H4 & H5 & _). auto.
  - intros st st' H. apply playout_loop_body_no_pass in H.
    destruct H as (H1 & H2 & _). auto.
  - intros fuel lgr1 lgr2 mv mv' found st st' H.
    unfold gen_playout_move in H.
    destruct (_ =? _)%Z; [injection H as _ _ H; subst st'; auto |].
    destruct (_ && _); [injection H as _ _ H; subst st'; auto |].
    destruct (_ && _); [injection H as _ _ H; subst st'; auto |].
    destruct (_ && _); [injection H as _ _ H; subst st'; auto |].
    destruct (playout_loop fuel _) as [[found' st1] |] eqn:Hloop;
      [| discriminate].
    apply playout_loop_passes in Hloop. simpl in Hloop.
    destruct found'.
    + destruct (generate_double (m_random st1)) as [r rng].
      injection H as _ _ H. subst st'. simpl. exact Hloop.
    + injection H as _ _ H. subst st'. exact Hloop.
  - intros st. repeat split.
Qed.

(** ** The result of a two-player playout *)

(** The round of player 0 of a two-player game. *)


(** The round of player 1 of a two-player game: one minus the entry of
    player 0, and the end of the loop. *)


(** ** Gamma weights *)

Lemma check_move_points_local :
  forall (is_forb : Grid bool) (lv : LV) (rest : list Point)
         (local local' : Compute),
    check_move_points is_forb lv local rest = Some local' ->
    local' = fold_left (fun l p => add_move_point l p lv) rest local /\
    forallb (fun p => negb (is_forb p)) rest = true.
Proof.
  intros is_forb lv rest. induction rest as [| p rest IH]; intros local local' H.
  - simpl in H. injection H as H. subst. split; reflexivity.
  - simpl in H. destruct (is_forb p) eqn:Hp; [discriminate |].
    apply IH in H. destruct H as [H1 H2]. simpl. rewrite Hp. simpl.
    split; assumption.
Qed.

Lemma check_move_points_forbidden :
  forall (is_forb : Grid bool) (lv : LV) (rest : list Point) (local : Compute),
    check_move_points is_forb lv local rest = None ->
    forallb (fun p => negb (is_forb p)) rest = false.
Proof.
  intros is_forb lv rest. induction rest as [| p rest IH]; intros local H.
  - discriminate.
  - simpl in H. simpl. destruct (is_forb p); [reflexivity |].
    simpl. eapply IH. exact H.
Qed.

(** A move that [check_move] accepts has no forbidden point and gets the
    weight [move_gamma]. *)

Lemma check_move_accepts :
  forall (is_forb : Grid bool) (info : MoveInfo) (st : St) (gamma : F),
    check_move is_forb info st = Some gamma ->
    gamma = move_gamma st info /\
    forallb (fun p => negb (is_forb p)) (mi_points info) = true.
Proof.
  intros is_forb info st gamma H. unfold check_move in H.
  destruct (is_forb (mi_first info)) eqn:Hfirst; [discriminate |].
  destruct (check_move_points _ _ _ _) as [local |] eqn:Hpts; [| discriminate].
  apply check_move_points_local in Hpts. destruct Hpts as [Hlocal Hrest].
  split.
  - unfold move_gamma, local_of_move. rewrite <- Hlocal.
    destruct (has_local local); [destruct (has_adj_attach local) |];
      injection H as H; subst gamma; reflexivity.
  - unfold mi_points. simpl. rewrite Hfirst, Hrest. reflexivity.
Qed.

Lemma check_move_rejects :
  forall (is_forb : Grid bool) (info : MoveInfo) (st : St),
    check_move is_forb info st = None ->
    forallb (fun p => negb (is_forb p)) (mi_points info) = false.
Proof.
  intros is_forb info st H. unfold check_move in H. unfold mi_points. simpl.
  destruct (is_forb (mi_first info)); [reflexivity |]. simpl.
  destruct (check_move_points _ _ _ _) as [local |] eqn:Hpts.
  - destruct (has_local local); [destruct (has_adj_attach local) |]; discriminate.
  - eapply check_move_points_forbidden. exact Hpts.
Qed.

(** The tables that [start_search] fills. *)

Lemma start_search_gamma_nu_attach_fold :
  forall (l : list nat) (st : St) (k : nat),
    m_gamma_nu_attach
      (fold_left
         (fun st i =>
            set_m_gamma_nu_attach
              (arr_set (m_gamma_nu_attach st) i (fpow (f_of_Q 1e10) (f_of_nat i))) st)
         l st) k
    = if existsb (Nat.eqb k) l then fpow (f_of_Q 1e10) (f_of_nat k)
      else m_gamma_nu_attach st k.
Proof.
  induction l as [| i l IH]; intros st k; simpl.
  - reflexivity.
  - rewrite IH. simpl. unfold arr_set.
    destruct (existsb (Nat.eqb k) l); [rewrite orb_true_r; reflexivity |].
    rewrite orb_false_r. destruct (Nat.eqb_spec k i) as [-> | _]; reflexivity.
Qed.

Lemma start_search_gamma_piece_fold :
  forall (size_factor nu_attach_factor : F) (l : list Piece) (st : St)
         (piece : Piece),
    let value (bc : BoardConst) (piece : Piece) :=
      fpow size_factor (f_of_Z (wrap_unsigned (get_size bc piece - 1)))
      *@ fpow nu_attach_factor
           (f_of_Z (wrap_unsigned (get_nu_attach_points bc piece - 1))) in
    let st' :=
      fold_left
        (fun st (piece : Piece) =>
           let piece_size := get_size (m_bc st) piece in
           let piece_nu_attach := get_nu_attach_points (m_bc st) piece in
           set_m_gamma_piece
             (arr_set (m_gamma_piece st) piece
                (fpow size_factor (f_of_Z (wrap_unsigned (piece_size - 1)))
                 *@ fpow nu_attach_factor
                      (f_of_Z (wrap_unsigned (piece_nu_attach - 1))))) st)
        l st in
    m_bc st' = m_bc st /\
    m_gamma_nu_attach st' = m_gamma_nu_attach st /\
    m_gamma_piece st' piece
    = if existsb (Nat.eqb piece) l then value (m_bc st) piece
      else m_gamma_piece st piece.
Proof.
  intros size_factor nu_attach_factor l. cbv zeta.
  induction l as [| i l IH]; intros st piece; simpl.
  - repeat split.
  - match goal with
    | |- context [fold_left ?f l ?s] => destruct (IH s piece) as (Hbc & Hna & Hgp)
    end.
    rewrite Hbc, Hna, Hgp. simpl. split; [reflexivity |]. split; [reflexivity |].
    unfold arr_set.
    destruct (existsb (Nat.eqb piece) l); [rewrite orb_true_r; reflexivity |].
    rewrite orb_false_r. destruct (Nat.eqb_spec piece i) as [-> | _]; reflexivity.
Qed.

Lemma existsb_eqb_seq :
  forall k n : nat, existsb (Nat.eqb k) (seq 0 n) = (k <? n).
Proof.
  intros k n. destruct (Nat.ltb_spec k n) as [Hlt | Hge].
  - apply existsb_exists. exists k. split; [| apply Nat.eqb_refl].
    apply in_seq. lia.
  - apply not_true_iff_false. intros H. apply existsb_exists in H.
    destruct H as (x & Hx & Heq). apply Nat.eqb_eq in Heq. subst x.
    apply in_seq in Hx. lia.
Qed.

Lemma start_search_tables :
  forall (st : St),
    let bd := board (m_shared_const st) in
    let st' := start_search st in
    (forall piece, piece < get_nu_pieces (m_bc st') ->
       m_gamma_piece st' piece = piece_gamma (get_board_type bd) (m_bc st') piece) /\
    (forall k, k <= max_size -> m_gamma_nu_attach st' k = nu_attach_gamma k).
Proof.
  intros st bd st'. subst st'. unfold start_search. cbv zeta. fold bd.
  match goal with
  | |- context [fold_left _ (seq 0 (max_size + 1)) (fold_left _ _ ?s)] =>
      set (pre := s)
  end.
  match goal with
  | |- context [fold_left _ (seq 0 (max_size + 1)) (fold_left ?f ?l pre)] =>
      destruct (start_search_gamma_piece_fold
                  (gamma_size_factor (get_board_type bd))
                  (gamma_nu_attach_factor (get_board_type bd)) l pre 0)
        as (Hbc & Hna & _);
      pose proof (fun piece =>
                    proj2 (proj2 (start_search_gamma_piece_fold
                      (gamma_size_factor (get_board_type bd))
                      (gamma_nu_attach_factor (get_board_type bd)) l pre piece)))
        as Hgp;
      cbv zeta in Hbc, Hna, Hgp;
      set (mid := fold_left f l pre) in *
  end.
  clearbody pre.
  assert (Hfin_bc :
            forall (l : list nat) (s : St),
              m_bc (fold_left
                      (fun st i =>
                         set_m_gamma_nu_attach
                           (arr_set (m_gamma_nu_attach st) i
                              (fpow (f_of_Q 1e10) (f_of_nat i))) st) l s) = m_bc s
              /\
              m_gamma_piece
                (fold_left
                   (fun st i =>
                      set_m_gamma_nu_attach
                        (arr_set (m_gamma_nu_attach st) i
                           (fpow (f_of_Q 1e10) (f_of_nat i))) st) l s)
              = m_gamma_piece s).
  { induction l as [| i l IH]; intros s; simpl; [split; reflexivity |].
    destruct (IH (set_m_gamma_nu_attach
                    (arr_set (m_gamma_nu_attach s) i
                       (fpow (f_of_Q 1e10) (f_of_nat i))) s)) as [H1 H2].
    rewrite H1, H2. split; reflexivity. }
  destruct (Hfin_bc (seq 0 (max_size + 1)) mid) as [Hbc' Hgp'].
  split.
  - intros piece Hpiece. rewrite Hbc' in Hpiece |- *. rewrite Hgp'.
    rewrite Hbc in Hpiece |- *. rewrite Hgp.
    rewrite existsb_eqb_seq.
    apply Nat.ltb_lt in Hpiece. rewrite Hpiece.
    unfold piece_gamma. destruct (get_board_type bd); reflexivity.
  - intros k Hk. rewrite start_search_gamma_nu_attach_fold.
    rewrite existsb_eqb_seq.
    assert (Hlt : (k <? max_size + 1) = true) by (apply Nat.ltb_lt; lia).
    rewrite Hlt. reflexivity.
Qed.

(** C5 (as the code has it): [start_search] sets the weight of a piece to
    size_factor^(piece_size - 1) * attach_factor^(piece_nu_attach - 1), with
    size_factor 5, 3, 5, 5 and attach_factor 1, 1.8, 1, 1 for the board
    types classic, duo, trigon, trigon_3, and the weight of [k] local attach
    points to (1e10)^k.  A move that [check_move] accepts, in [add_moves] as
    in [update_moves], is added with the weight of its piece, multiplied
    when the move is local by the weight of its number of local attach
    points and further by 1e5 when it is adjacent to an attach point.  A
    starting move, which [add_starting_moves] accepts, is added with the
    weight of its piece alone. *)
Theorem gamma_of_accepted_moves :
  (forall (st : St),
      let bd := board (m_shared_const st) in
      let st' := start_search st in
      (forall piece, piece < get_nu_pieces (m_bc st') ->
         m_gamma_piece st' piece
         = piece_gamma (get_board_type bd) (m_bc st') piece) /\
      (forall k, k <= max_size ->
         m_gamma_nu_attach st' k = fpow (f_of_Q 1e10) (f_of_nat k))) /\
  (forall (is_forb : Grid bool) (info : MoveInfo) (st : St) (gamma : F),
      check_move is_forb info st = Some gamma ->
      gamma = move_gamma st info) /\
  (forall (c : Color) (is_forb : Grid bool) (st : St) (mv : Move),
      add_moves_step c is_forb st mv = st \/
      add_moves_step c is_forb st mv
      = add_move c mv (move_gamma st (get_move_info st mv)) (marker_set c mv st)) /\
  (forall (c : Color) (is_piece_left : Piece -> bool) (is_forb : Grid bool)
          (st : St) (mv : Move),
      update_moves_keep c is_piece_left is_forb st mv = marker_clear c mv st \/
      update_moves_keep c is_piece_left is_forb st mv
      = add_move c mv (move_gamma st (get_move_info st mv)) st) /\
  (forall (c : Color) (is_forb : Grid bool) (piece : Piece) (st : St) (mv : Move),
      add_starting_moves_step c is_forb piece true st mv = st \/
      add_starting_moves_step c is_forb piece true st mv
      = add_move c mv (m_gamma_piece st piece) (marker_set c mv st)).
Proof.
  split; [| split; [| split; [| split]]].
  - intros st. exact (start_search_tables st).
  - intros is_forb info st gamma H.
    apply (check_move_accepts is_forb info st gamma H).
  - intros c is_forb st mv. unfold add_moves_step.
    destruct (negb (m_marker st c mv)); [| left; reflexivity].
    destruct (check_move is_forb (get_move_info st mv) st) as [gamma |] eqn:Hc;
      [| left; reflexivity].
    right. apply check_move_accepts in Hc. destruct Hc as [-> _]. reflexivity.
  - intros c is_piece_left is_forb st mv. unfold update_moves_keep.
    destruct (is_piece_left _); [| left; reflexivity].
    destruct (check_move is_forb (get_move_info st mv) st) as [gamma |] eqn:Hc;
      [| left; reflexivity].
    right. apply check_move_accepts in Hc. destruct Hc as [-> _]. reflexivity.
  - intros c is_forb piece st mv. unfold add_starting_moves_step.
    destruct (check_move_without_gamma is_forb mv st); [| left; reflexivity].
    right. reflexivity.
Qed.

(** ** The cumulative gamma array *)

Section GammaOrder.

Context {float_order : FloatOrder F}.

Lemma zero_le_one : fle (f_of_Q 0) (f_of_Q 1).
Proof. apply f_of_Q_monotone. unfold Qle. simpl. lia. Qed.

Lemma at_least_one_nonneg :
  forall x : F, fle (f_of_Q 1) x -> fle (f_of_Q 0) x.
Proof. intros x H. eapply fle_trans; [apply zero_le_one | exact H]. Qed.

Lemma move_gamma_at_least_one :
  forall (st : St) (info : MoveInfo),
    gamma_tables_at_least_one st -> fle (f_of_Q 1) (move_gamma st info).
Proof.
  intros st info [Hpiece Hattach]. unfold move_gamma. cbv zeta.
  assert (H5 : fle (f_of_Q 1) (f_of_Q 1e5)).
  { apply f_of_Q_monotone. unfold Qle. simpl. lia. }
  destruct (has_local _); [| apply Hpiece].
  destruct (has_adj_attach _).
  - apply fmul_at_least_one; [| exact H5].
    apply fmul_at_least_one; [apply Hpiece | apply Hattach].
  - apply fmul_at_least_one; [apply Hpiece | apply Hattach].
Qed.

Lemma check_move_nonneg :
  forall (is_forb : Grid bool) (info : MoveInfo) (st : St) (gamma : F),
    gamma_tables_at_least_one st ->
    check_move is_forb info st = Some gamma ->
    fle (f_of_Q 0) gamma.
Proof.
  intros is_forb info st gamma Htab H.
  apply check_move_accepts in H. destruct H as [-> _].
  apply at_least_one_nonneg. apply move_gamma_at_least_one. exact Htab.
Qed.

Lemma gamma_tables_at_least_one_frame :
  forall st st' : St,
    gen_frame st st' ->
    gamma_tables_at_least_one st -> gamma_tables_at_least_one st'.
Proof.
  intros st st' Hf [Hp Ha]. unfold gamma_tables_at_least_one.
  rewrite (gf_gamma_piece Hf), (gf_gamma_nu_attach Hf). split; assumption.
Qed.

(** The empty list with the total reset. *)

Lemma gamma_inv_reset :
  forall (c : Color) (st : St),
    m_moves st c = [] -> m_total_gamma st = f_of_Q 0 -> gamma_inv c st.
Proof.
  intros c st Hm Ht. unfold gamma_inv. rewrite Hm, Ht. simpl.
  split; [intros; lia |]. split; [intros; lia |].
  apply f_of_Q_monotone. apply Qle_refl.
Qed.

(** [add_move] with a weight that is not negative keeps the invariant. *)

Lemma add_move_gamma_inv :
  forall (c : Color) (mv : Move) (gamma : F) (st : St),
    gamma_inv c st ->
    fle (f_of_Q 0) gamma ->
    gamma_inv c (add_move c mv gamma st).
Proof.
  intros c mv gamma st (Hmono & Hlast & Htotal) Hgamma.
  assert (Hstep : fle (m_total_gamma st) (m_total_gamma st +@ gamma))
    by (apply fadd_nondecreasing; assumption).
  unfold gamma_inv, add_move. simpl.
  unfold cm_set. rewrite Nat.eqb_refl. rewrite length_app. simpl.
  set (n := length (m_moves st c)) in *.
  assert (Hbelow : forall i, i < n ->
                     fle (m_cumulative_gamma st i) (m_total_gamma st)).
  { intros i Hi. rewrite <- Hlast by lia. apply Hmono; lia. }
  split; [| split].
  - intros i j Hij Hj. unfold arr_set.
    destruct (Nat.eqb_spec j n) as [-> | Hjn].
    + destruct (Nat.eqb_spec i n) as [_ | Hin].
      { apply fle_nonneg_refl. eapply fle_trans; [exact Htotal | exact Hstep]. }
      eapply fle_trans; [apply Hbelow; lia | exact Hstep].
    + destruct (Nat.eqb_spec i n) as [-> | Hin]; [lia |].
      apply Hmono; lia.
  - intros _. unfold arr_set.
    replace (n + 1 - 1) with n by lia. rewrite Nat.eqb_refl. reflexivity.
  - eapply fle_trans; [exact Htotal | exact Hstep].
Qed.

(** The invariant along a run of move generation that starts in [st0]. *)

Definition gamma_run (c : Color) (st0 st : St) : Prop :=
  gen_frame st0 st /\ gamma_inv c st.

Lemma gamma_run_fold :
  forall {B : Type} (c : Color) (st0 : St) (f : St -> B -> St) (l : list B)
         (st : St),
    gamma_run c st0 st ->
    (forall st' x, In x l -> gamma_run c st0 st' -> gamma_run c st0 (f st' x)) ->
    gamma_run c st0 (fold_left f l st).
Proof.
  intros B c st0 f l st H Hstep.
  apply (fold_left_invariant (gamma_run c st0)); assumption.
Qed.

Lemma add_moves_step_gamma_run :
  forall (c : Color) (is_forb : Grid bool) (st0 st : St) (mv : Move),
    gamma_tables_at_least_one st0 ->
    gamma_run c st0 st ->
    gamma_run c st0 (add_moves_step c is_forb st mv).
Proof.
  intros c is_forb st0 st mv Htab [Hf Hinv]. unfold add_moves_step.
  destruct (negb _); [| split; assumption].
  destruct (check_move _ _ _) as [gamma |] eqn:Hc; [| split; assumption].
  split.
  - eapply gen_frame_trans; [exact Hf |].
    eapply gen_frame_trans; [apply marker_set_frame | apply add_move_frame].
  - apply add_move_gamma_inv; [exact Hinv |].
    eapply check_move_nonneg; [| exact Hc].
    eapply gamma_tables_at_least_one_frame; eassumption.
Qed.

Lemma add_moves_piece_gamma_run :
  forall (p : Point) (c : Color) (piece : Piece) (adj_status : nat) (st0 st : St),
    gamma_tables_at_least_one st0 ->
    gamma_run c st0 st ->
    gamma_run c st0 (add_moves_piece p c piece adj_status st).
Proof.
  intros p c piece adj_status st0 st Htab H. unfold add_moves_piece.
  apply gamma_run_fold; [exact H |].
  intros st' mv _ H'. apply add_moves_step_gamma_run; assumption.
Qed.

Lemma add_moves_gamma_run :
  forall (p : Point) (c : Color) (pieces : list Piece) (st0 st : St),
    gamma_tables_at_least_one st0 ->
    gamma_run c st0 st ->
    gamma_run c st0 (add_moves p c pieces st).
Proof.
  intros p c pieces st0 st Htab H. unfold add_moves.
  match goal with
  | |- gamma_run _ _ (set_m_moves_added_at _ ?s) =>
      assert (Hs : gamma_run c st0 s)
  end.
  { apply gamma_run_fold; [exact H |].
    intros st' piece _ H'. apply gamma_run_fold; [exact H' |].
    intros st'' mv _ H''. apply add_moves_step_gamma_run; assumption. }
  destruct Hs as [Hf Hinv]. split; [| exact Hinv].
  eapply gen_frame_trans; [exact Hf | apply set_m_moves_added_at_frame].
Qed.

Lemma add_starting_moves_gamma_run :
  forall (c : Color) (pieces : list Piece) (st0 st : St),
    gamma_tables_at_least_one st0 ->
    gamma_run c st0 st ->
    gamma_run c st0 (add_starting_moves c pieces true st).
Proof.
  intros c pieces st0 st Htab H. unfold add_starting_moves.
  destruct (find_best_starting_point c st); [| exact H].
  apply gamma_run_fold; [exact H |].
  intros st' piece _ H'. apply gamma_run_fold; [exact H' |].
  intros st'' mv _ [Hf Hinv]. unfold add_starting_moves_step.
  destruct (check_move_without_gamma _ _ _); [| split; assumption].
  split.
  - eapply gen_frame_trans; [exact Hf |].
    eapply gen_frame_trans; [apply marker_set_frame | apply add_move_frame].
  - apply add_move_gamma_inv; [exact Hinv |].
    apply at_least_one_nonneg.
    apply (gamma_tables_at_least_one_frame st0 st'' Hf Htab).
Qed.

Lemma marker_clear_all_set_known_gamma :
  forall (c : Color) (l : list Move) (st : St),
    m_total_gamma (marker_clear_all_set_known c l st) = m_total_gamma st /\
    m_moves (marker_clear_all_set_known c l st) = m_moves st /\
    m_cumulative_gamma (marker_clear_all_set_known c l st) = m_cumulative_gamma st.
Proof.
  intros c l st. unfold marker_clear_all_set_known.
  apply (fold_left_invariant
           (fun st' : St =>
              m_total_gamma st' = m_total_gamma st /\
              m_moves st' = m_moves st /\
              m_cumulative_gamma st' = m_cumulative_gamma st)).
  - repeat split.
  - intros st' mv _ H. exact H.
Qed.

Lemma init_moves_with_gamma_once_gamma_run :
  forall (c : Color) (st : St),
    gamma_tables_at_least_one st ->
    gamma_run c st (init_moves_with_gamma_once c st).
Proof.
  intros c st Htab. unfold init_moves_with_gamma_once.
  set (st0 := set_m_total_gamma _ (set_m_local_value _ (set_m_is_piece_considered _ st))).
  set (st1 := set_m_moves _ (marker_clear_all_set_known c (m_moves st0 c) st0)).
  assert (H1 : gamma_run c st st1).
  { split.
    - subst st1. frame_set.
      eapply gen_frame_trans; [| apply marker_clear_all_set_known_frame].
      subst st0. frame_step.
    - apply gamma_inv_reset.
      + subst st1. simpl. unfold cm_set. rewrite Nat.eqb_refl. reflexivity.
      + destruct (marker_clear_all_set_known_gamma c (m_moves st0 c) st0) as (Ht & _).
        subst st1.
        change (m_total_gamma (marker_clear_all_set_known c (m_moves st0 c) st0)
                = f_of_Q 0).
        rewrite Ht. reflexivity. }
  clearbody st1. clear st0.
  match goal with
  | |- gamma_run _ _ (set_m_new_moves _ (set_m_is_move_list_initialized _ ?s)) =>
      assert (H2 : gamma_run c st s)
  end.
  { destruct (is_first_piece (m_bd st1) c).
    - apply add_starting_moves_gamma_run; assumption.
    - apply gamma_run_fold; [exact H1 |].
      intros st' p _ H'. destruct (negb _); [| exact H'].
      apply add_moves_gamma_run; assumption. }
  destruct H2 as [Hf Hinv]. split; [| exact Hinv].
  do 2 frame_set. exact Hf.
Qed.

Lemma init_moves_with_gamma_fuel_gamma_run :
  forall (fuel : nat) (c : Color) (st : St),
    gamma_tables_at_least_one st ->
    gamma_run c st (init_moves_with_gamma_fuel fuel c st).
Proof.
  induction fuel as [| fuel IH]; intros c st Htab;
    rewrite init_moves_with_gamma_fuel_unfold; cbv zeta;
    pose proof (init_moves_with_gamma_once_gamma_run c st Htab) as Hrun;
    remember (init_moves_with_gamma_once c st) as st1 eqn:E; clear E;
    destruct (_ && _); try exact Hrun.
  destruct Hrun as [Hf Hinv].
  assert (Hf1 : gen_frame st (set_m_force_consider_all_pieces true st1)).
  { eapply gen_frame_trans; [exact Hf |].
    apply set_m_force_consider_all_pieces_frame. }
  destruct (IH c _ (gamma_tables_at_least_one_frame _ _ Hf1 Htab)) as [Hf2 Hinv2].
  split; [| exact Hinv2].
  eapply gen_frame_trans; eassumption.
Qed.

Lemma update_moves_gamma_run :
  forall (c : Color) (st : St),
    gamma_tables_at_least_one st ->
    gamma_run c st (update_moves c st).
Proof.
  intros c st Htab. unfold update_moves.
  set (st0 := set_m_moves _ (set_m_total_gamma _ (set_m_local_value _ st))).
  assert (H0 : gamma_run c st st0).
  { split; [subst st0; frame_step |].
    apply gamma_inv_reset.
    - subst st0. simpl. unfold cm_set. rewrite Nat.eqb_refl. reflexivity.
    - reflexivity. }
  set (st1 := fold_left _ (m_moves _ c) st0).
  assert (H1 : gamma_run c st st1).
  { subst st1. apply gamma_run_fold; [exact H0 |].
    intros st' mv _ [Hf Hinv]. unfold update_moves_keep.
    destruct (existsb _ _); [| split; [| exact Hinv]].
    - destruct (check_move _ _ _) as [gamma |] eqn:Hc.
      + split.
        * eapply gen_frame_trans; [exact Hf | apply add_move_frame].
        * apply add_move_gamma_inv; [exact Hinv |].
          eapply check_move_nonneg; [| exact Hc].
          eapply gamma_tables_at_least_one_frame; eassumption.
      + split; [| exact Hinv].
        eapply gen_frame_trans; [exact Hf | apply marker_clear_frame].
    - eapply gen_frame_trans; [exact Hf | apply marker_clear_frame]. }
  set (st2 := set_m_new_moves _ _).
  assert (H2 : gamma_run c st st2).
  { assert (H : gamma_run c st
                  (fold_left
                     (update_moves_new c (is_forbidden (m_bd st0) c)
                        (pieces_considered_of (m_is_piece_considered st1 c) c st1))
                     (m_new_moves st1 c) st1)).
    { apply gamma_run_fold; [exact H1 |].
      intros st' mv _ H'. unfold update_moves_new.
      apply gamma_run_fold; [exact H' |].
      intros st'' p _ H''. destruct (_ && _); [| exact H''].
      apply add_moves_gamma_run; assumption. }
    destruct H as [Hf Hinv]. subst st2. split; [| exact Hinv].
    frame_set. exact Hf. }
  clearbody st2. clear H0 H1 st1.
  destruct (negb (_ =? _)); [| exact H2].
  set (st3 := if is_empty (m_moves st2 c) then _ else st2).
  assert (H3 : gamma_run c st st3).
  { subst st3. destruct (is_empty _); [| exact H2].
    destruct H2 as [Hf Hinv]. split; [| exact Hinv].
    eapply gen_frame_trans; [exact Hf |].
    apply set_m_force_consider_all_pieces_frame. }
  clearbody st3.
  destruct (negb (_ =? _)); [| exact H3].
  match goal with
  | |- gamma_run _ _ (set_m_is_piece_considered _ ?s) =>
      assert (H4 : gamma_run c st s)
  end.
  { apply gamma_run_fold; [exact H3 |].
    intros st' p _ H'. destruct (negb _); [| exact H'].
    apply gamma_run_fold; [exact H' |].
    intros st'' piece _ H''. apply add_moves_piece_gamma_run; assumption. }
  destruct H4 as [Hf Hinv]. split; [| exact Hinv].
  frame_set. exact Hf.
Qed.

(** C7: whenever [add_move], [add_moves], [init_moves_with_gamma] or
    [update_moves] has completed, the part of [m_cumulative_gamma] that
    belongs to the move list (the positions below [moves.size()]) is
    non-decreasing, its last entry, when the list is not empty, is
    [m_total_gamma], and [m_total_gamma] is not negative.  The two
    generating functions establish this from any state whose gamma tables
    hold no weight below one, which is what [start_search] writes into
    them; [add_move] and [add_moves] keep it. *)
Theorem cumulative_gamma_invariant :
  forall (c : Color) (st : St),
    gamma_tables_at_least_one st ->
    gamma_inv c (init_moves_with_gamma c st) /\
    gamma_inv c (update_moves c st) /\
    (forall mv gamma,
        gamma_inv c st -> fle (f_of_Q 0) gamma ->
        gamma_inv c (add_move c mv gamma st)) /\
    (forall p pieces,
        gamma_inv c st -> gamma_inv c (add_moves p c pieces st)) /\
    (forall p piece adj_status,
        gamma_inv c st -> gamma_inv c (add_moves_piece p c piece adj_status st)).
Proof.
  intros c st Htab. split; [| split; [| split; [| split]]].
  - apply (init_moves_with_gamma_fuel_gamma_run 1 c st Htab).
  - apply (update_moves_gamma_run c st Htab).
  - intros mv gamma Hinv Hgamma. apply add_move_gamma_inv; assumption.
  - intros p pieces Hinv.
    apply (add_moves_gamma_run p c pieces st st Htab).
    split; [apply gen_frame_refl | exact Hinv].
  - intros p piece adj_status Hinv.
    apply (add_moves_piece_gamma_run p c piece adj_status st st Htab).
    split; [apply gen_frame_refl | exact Hinv].
Qed.

(** Every weight that [start_search] writes into the gamma tables is at
    least one. *)

Lemma piece_gamma_at_least_one :
  forall (bt : BoardType) (bc : BoardConst) (piece : Piece),
    fle (f_of_Q 1) (piece_gamma bt bc piece).
Proof.
  intros bt bc piece. unfold piece_gamma. cbv zeta.
  assert (Hexp : forall z, fle (f_of_Q 0) (f_of_Z (wrap_unsigned z))).
  { intros z. unfold f_of_Z. apply f_of_Q_monotone.
    unfold Qle, inject_Z. simpl. unfold wrap_unsigned.
    pose proof (Z.mod_pos_bound z (2 ^ 32) eq_refl). lia. }
  apply fmul_at_least_one; apply fpow_at_least_one; try apply Hexp;
    destruct bt; apply f_of_Q_monotone; unfold Qle; simpl; lia.
Qed.

Lemma nu_attach_gamma_at_least_one :
  forall k : nat, fle (f_of_Q 1) (nu_attach_gamma k).
Proof.
  intros k. unfold nu_attach_gamma. apply fpow_at_least_one.
  - apply f_of_Q_monotone. unfold Qle. simpl. lia.
  - unfold f_of_nat, f_of_Z. apply f_of_Q_monotone.
    unfold Qle, inject_Z. simpl. lia.
Qed.

Lemma start_search_tables_at_least_one :
  forall st : St,
    let st' := start_search st in
    (forall piece, piece < get_nu_pieces (m_bc st') ->
       fle (f_of_Q 1) (m_gamma_piece st' piece)) /\
    (forall k, k <= max_size -> fle (f_of_Q 1) (m_gamma_nu_attach st' k)).
Proof.
  intros st st'. destruct (start_search_tables st) as [Hp Ha].
  split.
  - intros piece H. subst st'. rewrite (Hp piece H).
    apply piece_gamma_at_least_one.
  - intros k H. subst st'. rewrite (Ha k H).
    apply nu_attach_gamma_at_least_one.
Qed.

End GammaOrder.

(** ** Move lists and markers *)

Lemma move_eqb_spec :
  forall a b : Move, move_eqb a b = true <-> a = b.
Proof.
  intros [| | i] [| | j]; simpl; split; try congruence; try discriminate.
  - intros H. apply Nat.eqb_eq in H. congruence.
  - intros H. injection H as H. apply Nat.eqb_eq. exact H.
Qed.


Lemma move_eqb_neq :
  forall a b : Move, a <> b -> move_eqb a b = false.
Proof.
  intros a b H. apply not_true_iff_false. intros Heq.
  apply H. apply move_eqb_spec. exact Heq.
Qed.



Lemma m_moves_add_move :
  forall (c : Color) (mv : Move) (gamma : F) (st : St),
    m_moves (add_move c mv gamma st) c = m_moves st c ++ [mv].
Proof.
  intros. unfold add_move. simpl. unfold cm_set. rewrite Nat.eqb_refl.
  reflexivity.
Qed.

(** Legality of a move and the contract of the board only read what move
    generation leaves alone. *)



(** The invariant along a run of move generation that starts in [st0]. *)



(** Adding an unmarked move that passes the check. *)







(** Clearing the marker of the listed moves. *)


(** The state in which [init_moves_with_gamma] starts to enumerate: the
    list is empty and, when the marker held listed moves only, so is the
    marker. *)


(** Starting moves: the moves of one piece, then the pieces in turn.  No
    marker is tested (the source asserts that it is clear); the lists of
    the board hold no move twice and a move belongs to one piece. *)





(** The first loop of [update_moves] over the remaining old moves [rest]:
    the marker holds the moves put back so far and the old moves still to
    come. *)










(** One unit of fuel is what [init_moves_with_gamma] needs: more changes
    nothing.  The nested call runs with [m_force_consider_all_pieces] set,
    and no step of move generation clears it. *)

Lemma forced_fold :
  forall {B : Type} (f : St -> B -> St) (l : list B) (st : St),
    m_force_consider_all_pieces st = true ->
    (forall st' x, m_force_consider_all_pieces st' = true ->
                   m_force_consider_all_pieces (f st' x) = true) ->
    m_force_consider_all_pieces (fold_left f l st) = true.
Proof.
  intros B f l st H Hstep.
  apply (fold_left_invariant
           (fun st' : St => m_force_consider_all_pieces st' = true));
    [exact H | intros st' x _ H'; apply Hstep; exact H'].
Qed.

Lemma init_moves_with_gamma_once_forced :
  forall (c : Color) (st : St),
    m_force_consider_all_pieces st = true ->
    m_force_consider_all_pieces (init_moves_with_gamma_once c st) = true.
Proof.
  intros c st Hforce. unfold init_moves_with_gamma_once.
  set (st0 := set_m_total_gamma _ (set_m_local_value _ (set_m_is_piece_considered _ st))).
  set (st1 := set_m_moves _ (marker_clear_all_set_known c (m_moves st0 c) st0)).
  assert (H1 : m_force_consider_all_pieces st1 = true).
  { destruct (marker_clear_all_set_known_fields c (m_moves st0 c) st0)
      as (_ & _ & H).
    change (m_force_consider_all_pieces st1)
      with (m_force_consider_all_pieces
              (marker_clear_all_set_known c (m_moves st0 c) st0)).
    rewrite H. exact Hforce. }
  clearbody st1. clear st0.
  match goal with
  | |- m_force_consider_all_pieces
         (set_m_new_moves _ (set_m_is_move_list_initialized _ ?s)) = true =>
      change (m_force_consider_all_pieces s = true)
  end.
  destruct (is_first_piece (m_bd st1) c).
  - unfold add_starting_moves.
    destruct (find_best_starting_point c st1); [| exact H1].
    apply forced_fold; [exact H1 |]. intros st' piece H'.
    apply forced_fold; [exact H' |]. intros st'' mv H''.
    unfold add_starting_moves_step.
    destruct (check_move_without_gamma _ _ _); exact H''.
  - apply forced_fold; [exact H1 |]. intros st' p H'.
    destruct (negb _); [| exact H'].
    unfold add_moves.
    match goal with
    | |- m_force_consider_all_pieces (set_m_moves_added_at _ ?s) = true =>
        change (m_force_consider_all_pieces s = true)
    end.
    apply forced_fold; [exact H' |]. intros st'' piece H''.
    apply forced_fold; [exact H'' |]. intros st3 mv H3.
    unfold add_moves_step.
    destruct (negb _); [| exact H3].
    destruct (check_move _ _ _); exact H3.
Qed.

Lemma init_moves_with_gamma_fuel_enough :
  forall (fuel : nat) (c : Color) (st : St),
    init_moves_with_gamma_fuel (S fuel) c st = init_moves_with_gamma c st.
Proof.
  intros fuel c st. unfold init_moves_with_gamma.
  rewrite !(init_moves_with_gamma_fuel_unfold (S _)). cbv zeta.
  remember (init_moves_with_gamma_once c st) as st1 eqn:E. clear E.
  destruct (_ && _); [| reflexivity].
  rewrite !(init_moves_with_gamma_fuel_unfold _ c
              (set_m_force_consider_all_pieces true st1)). cbv zeta.
  rewrite (init_moves_with_gamma_once_forced c
             (set_m_force_consider_all_pieces true st1) eq_refl).
  rewrite andb_false_r. reflexivity.
Qed.

(** ** The first move list of a colour with a single starting move *)

Lemma find_best_starting_point_frame :
  forall (c : Color) (st st' : St),
    gen_frame st st' ->
    find_best_starting_point c st' = find_best_starting_point c st.
Proof.
  intros c st st' Hf. unfold find_best_starting_point, starting_distance.
  rewrite (gf_bd Hf), (gf_nu_colors Hf). reflexivity.
Qed.

Lemma check_move_without_gamma_frame :
  forall (is_forb : Grid bool) (mv : Move) (st st' : St),
    gen_frame st st' ->
    check_move_without_gamma is_forb mv st'
    = check_move_without_gamma is_forb mv st.
Proof.
  intros is_forb mv st st' Hf. unfold check_move_without_gamma, get_move_info.
  rewrite (gf_move_info_array Hf). reflexivity.
Qed.

(** When the colour has played no piece, the best starting point lists one
    move of the one piece considered and the move is not forbidden, the move
    list is that move and the total is the weight of the piece. *)

Lemma init_moves_with_gamma_single_start :
  forall (c : Color) (st : St) (p : Point) (piece : Piece) (mv : Move),
    is_first_piece (m_bd st) c = true ->
    find_best_starting_point c st = Some p ->
    pieces_considered_of (get_pieces_considered st) c st = [piece] ->
    get_moves st c piece p 0 = [mv] ->
    check_move_without_gamma (is_forbidden (m_bd st) c) mv st = true ->
    let st' := init_moves_with_gamma c st in
    gen_frame st st' /\
    m_moves st' c = [mv] /\
    m_total_gamma st' = f_of_Q 0 +@ m_gamma_piece st piece /\
    m_local_value st' = lv_init (m_local_value st) (m_bd st).
Proof.
  intros c st p piece mv Hfirst Hbest Hpieces Hmoves Hcheck. cbv zeta.
  assert (Honce :
            gen_frame st (init_moves_with_gamma_once c st) /\
            m_moves (init_moves_with_gamma_once c st) c = [mv] /\
            m_total_gamma (init_moves_with_gamma_once c st)
            = f_of_Q 0 +@ m_gamma_piece st piece /\
            m_local_value (init_moves_with_gamma_once c st)
            = lv_init (m_local_value st) (m_bd st)).
  { split; [apply init_moves_with_gamma_once_frame |].
    unfold init_moves_with_gamma_once.
    set (st0 := set_m_total_gamma _ (set_m_local_value _ (set_m_is_piece_considered _ st))).
    set (st1 := set_m_moves _ (marker_clear_all_set_known c (m_moves st0 c) st0)).
    assert (Hf1 : gen_frame st st1).
    { subst st1. frame_set.
      eapply gen_frame_trans; [| apply marker_clear_all_set_known_frame].
      subst st0. frame_step. }
    destruct (marker_clear_all_set_known_gamma c (m_moves st0 c) st0)
      as (Ht & _ & _).
    destruct (marker_clear_all_set_known_fields c (m_moves st0 c) st0)
      as (Hpc & Hlv & _).
    assert (Hempty : m_moves st1 c = []).
    { subst st1. simpl. unfold cm_set. rewrite Nat.eqb_refl. reflexivity. }
    assert (Htotal : m_total_gamma st1 = f_of_Q 0).
    { change (m_total_gamma st1)
        with (m_total_gamma (marker_clear_all_set_known c (m_moves st0 c) st0)).
      rewrite Ht. reflexivity. }
    assert (Hlocal : m_local_value st1 = lv_init (m_local_value st) (m_bd st)).
    { change (m_local_value st1)
        with (m_local_value (marker_clear_all_set_known c (m_moves st0 c) st0)).
      rewrite Hlv. reflexivity. }
    assert (Hptr : m_is_piece_considered st1 c = get_pieces_considered st).
    { change (m_is_piece_considered st1)
        with (m_is_piece_considered
                (marker_clear_all_set_known c (m_moves st0 c) st0)).
      rewrite Hpc. subst st0. simpl. unfold cm_set. rewrite Nat.eqb_refl.
      reflexivity. }
    assert (Hpieces1 : pieces_considered_of (m_is_piece_considered st1 c) c st1
                       = [piece]).
    { rewrite Hptr. unfold pieces_considered_of in *.
      rewrite (gf_bd Hf1), (gf_shared_const Hf1). exact Hpieces. }
    clearbody st1.
    match goal with
    | |- context [set_m_is_move_list_initialized _ ?s] => set (mid := s)
    end.
    assert (Hmid : mid = add_move c mv (m_gamma_piece st1 piece)
                           (marker_set c mv st1)).
    { subst mid. rewrite Hpieces1, (gf_bd Hf1), Hfirst.
      unfold add_starting_moves.
      rewrite (find_best_starting_point_frame c st st1 Hf1), Hbest.
      assert (Hmoves1 : get_moves st1 c piece p 0 = [mv]).
      { unfold get_moves in *. rewrite (gf_bc Hf1). exact Hmoves. }
      simpl fold_left. rewrite Hmoves1. simpl fold_left.
      unfold add_starting_moves_step. rewrite ?(gf_bd Hf1).
      rewrite (check_move_without_gamma_frame _ mv st st1 Hf1), Hcheck.
      reflexivity. }
    clearbody mid. subst mid. simpl. unfold cm_set. rewrite Nat.eqb_refl.
    rewrite Hempty, Htotal, Hlocal, (gf_gamma_piece Hf1).
    repeat split. }
  destruct Honce as (Hf & Hm & Ht & Hl).
  unfold init_moves_with_gamma.
  rewrite init_moves_with_gamma_fuel_unfold. cbv zeta.
  remember (init_moves_with_gamma_once c st) as st1 eqn:E. clear E.
  replace (is_empty (m_moves st1 c)) with false by (rewrite Hm; reflexivity).
  simpl. split; [exact Hf |]. split; [exact Hm |]. split; [exact Ht | exact Hl].
Qed.

(** ** Colour maps *)

Lemma cm_set_other :
  forall {T : Type} (m : ColorMap T) (c c' : Color) (v : T),
    c' <> c -> cm_set m c v c' = m c'.
Proof.
  intros T m c c' v H. unfold cm_set.
  rewrite (proj2 (Nat.eqb_neq c' c) H). reflexivity.
Qed.

Lemma cm_set_same :
  forall {T : Type} (m : ColorMap T) (c : Color) (v : T), cm_set m c v c = v.
Proof. intros T m c v. unfold cm_set. rewrite Nat.eqb_refl. reflexivity. Qed.

(** ** What playing a move leaves of the move lists *)


(** ** What [evaluate_playout] writes *)

(** [evaluate_playout] writes the two statistics and nothing else. *)

Lemma evaluate_player_only_stats :
  forall (i : nat) (sorted_points : list F) (result_array : ResultArray)
         (st0 st : St),
    (exists ss sl, st = set_m_stat_len sl (set_m_stat_score ss st0)) ->
    exists ss sl,
      snd (snd (evaluate_player i sorted_points (result_array, st)))
      = set_m_stat_len sl (set_m_stat_score ss st0).
Proof.
  intros i sorted_points result_array st0 st (ss & sl & ->).
  unfold evaluate_player.
  destruct (_ && _); simpl; eexists; eexists; reflexivity.
Qed.

Lemma evaluate_players_only_stats :
  forall (players : list nat) (sorted_points : list F)
         (result_array : ResultArray) (st0 st : St),
    (exists ss sl, st = set_m_stat_len sl (set_m_stat_score ss st0)) ->
    exists ss sl,
      snd (evaluate_players players sorted_points (result_array, st))
      = set_m_stat_len sl (set_m_stat_score ss st0).
Proof.
  induction players as [| i players IH];
    intros sorted_points result_array st0 st H.
  - exact H.
  - change (evaluate_players (i :: players) sorted_points (result_array, st))
      with (let (stop, acc') := evaluate_player i sorted_points (result_array, st) in
            if stop then acc' else evaluate_players players sorted_points acc').
    pose proof (evaluate_player_only_stats i sorted_points result_array st0 st H)
      as H1.
    destruct (evaluate_player i sorted_points (result_array, st))
      as [stop [result_array' st']].
    simpl in H1. destruct stop; [exact H1 |].
    apply IH. exact H1.
Qed.

Lemma state_eta_stats :
  forall st : St,
    st = set_m_stat_len (m_stat_len st) (set_m_stat_score (m_stat_score st) st).
Proof. intros []. reflexivity. Qed.

Lemma evaluate_playout_stats_frame :
  forall st : St,
    exists ss sl,
      snd (evaluate_playout st) = set_m_stat_len sl (set_m_stat_score ss st).
Proof.
  intros st. unfold evaluate_playout.
  destruct (_ && _).
  - exists (m_stat_score st), (m_stat_len st). apply state_eta_stats.
  - destruct (evaluate_players_only_stats
                (seq 0 (get_nu_players (m_bd st)))
                (if 2 <? get_nu_players (m_bd st)
                 then sort_points
                        (map (fun c => f_of_Z (get_points_with_bonus (m_bd st) c))
                           (colors (m_nu_colors st)))
                 else [])
                (fun _ => None) st st) as (ss & sl & H).
    { exists (m_stat_score st), (m_stat_len st). apply state_eta_stats. }
    match goal with
    | |- context [evaluate_players ?l ?s ?a] =>
        set (r := evaluate_players l s a) in *;
        change (evaluate_players l s (fun _ => None, st)) with r in H;
        destruct r as [result_array st']
    end.
    simpl in H. exists ss, sl. simpl. exact H.
Qed.

(** X1: [evaluate_playout] writes the two statistics and nothing else: with
    the statistics put back, the state after the call is the state before
    it. *)
Theorem evaluate_playout_writes_only_statistics :
  forall st : St,
    set_m_stat_len (m_stat_len st)
      (set_m_stat_score (m_stat_score st) (snd (evaluate_playout st)))
    = st.
Proof.
  intros st. destruct (evaluate_playout_stats_frame st) as (ss & sl & ->).
  destruct st. reflexivity.
Qed.

(** X2: the result of a team game: when the board has more colours than
    players, the entries of colours 2 and 3 repeat those of colours 0 and
    1, in the symmetric draw as in every other playout. *)
Theorem team_results_repeat :
  forall st : St,
    get_nu_players (m_bd st) < m_nu_colors st ->
    fst (evaluate_playout st) 2 = fst (evaluate_playout st) 0 /\
    fst (evaluate_playout st) 3 = fst (evaluate_playout st) 1.
Proof.
  intros st Hteam. unfold evaluate_playout.
  destruct (_ && _); [split; reflexivity |].
  match goal with
  | |- context [evaluate_players ?l ?s ?a] =>
      destruct (evaluate_players_only_stats l s (fun _ => None) st st)
        as (ss & sl & H);
      [exists (m_stat_score st), (m_stat_len st); apply state_eta_stats |];
      set (r := evaluate_players l s a) in *;
      change (evaluate_players l s (fun _ => None, st)) with r in H;
      destruct r as [result_array st']
  end.
  simpl in H. subst st'. simpl.
  apply Nat.ltb_lt in Hteam. rewrite Hteam. split; reflexivity.
Qed.


(** ** The samples that [evaluate_playout] adds to the statistics *)





(** ** The playout loop: counters, passes and the symmetry flag *)

Lemma playout_loop_body_frame :
  forall st : St,
    match playout_loop_body st with
    | LoopBreak st' | LoopReturnFalse st' =>
        m_nu_playout_moves st' = m_nu_playout_moves st /\
        m_nu_last_good_reply_moves st' = m_nu_last_good_reply_moves st /\
        m_random st' = m_random st /\
        m_nu_passes st' = m_nu_passes st /\
        m_nu_colors st' = m_nu_colors st
    | LoopPass st' =>
        m_nu_playout_moves st' = m_nu_playout_moves st /\
        m_nu_last_good_reply_moves st' = m_nu_last_good_reply_moves st /\
        m_random st' = m_random st /\
        m_nu_passes st' = wrap_unsigned (m_nu_passes st + 1) /\
        m_nu_colors st' = m_nu_colors st
    end.
Proof.
  intros st. unfold playout_loop_body.
  pose proof (playout_loop_generate_frame st) as Hf.
  remember (playout_loop_generate st) as stg eqn:E. clear E.
  destruct (negb (is_empty _)); simpl;
    [rewrite (gf_nu_playout_moves Hf), (gf_nu_last_good_reply_moves Hf),
       (gf_random Hf), (gf_nu_passes Hf), (gf_nu_colors Hf); repeat split |].
  destruct (_ =? _)%Z; simpl;
    [rewrite (gf_nu_playout_moves Hf), (gf_nu_last_good_reply_moves Hf),
       (gf_random Hf), (gf_nu_passes Hf), (gf_nu_colors Hf); repeat split |].
  destruct (_ && _); simpl;
    rewrite (gf_nu_playout_moves Hf), (gf_nu_last_good_reply_moves Hf),
      (gf_random Hf), (gf_nu_passes Hf), (gf_nu_colors Hf); repeat split.
Qed.

Lemma playout_loop_counters :
  forall (fuel : nat) (st st' : St) (found : bool),
    playout_loop fuel st = Some (found, st') ->
    m_nu_playout_moves st' = m_nu_playout_moves st /\
    m_nu_last_good_reply_moves st' = m_nu_last_good_reply_moves st /\
    m_random st' = m_random st /\
    m_nu_colors st' = m_nu_colors st.
Proof.
  induction fuel as [| fuel IH]; intros st st' found H; simpl in H.
  - discriminate.
  - pose proof (playout_loop_body_frame st) as Hb.
    destruct (playout_loop_body st) as [st1 | st1 | st1].
    + injection H as _ H. subst st1. tauto.
    + injection H as _ H. subst st1. tauto.
    + apply IH in H. destruct Hb as (H1 & H2 & H3 & _ & H5).
      destruct H as (H1' & H2' & H3' & H5').
      repeat split; congruence.
Qed.

(** With fewer passes than colours before the loop there are fewer passes
    than colours after it: the pass that would be the last one is not
    recorded, the loop returns [false] instead. *)

Lemma playout_loop_passes_below_colors :
  forall (fuel : nat) (st st' : St) (found : bool),
    (0 <= m_nu_passes st < Z.of_nat (m_nu_colors st))%Z ->
    (Z.of_nat (m_nu_colors st) < 2 ^ 32)%Z ->
    playout_loop fuel st = Some (found, st') ->
    (m_nu_passes st <= m_nu_passes st' < Z.of_nat (m_nu_colors st))%Z.
Proof.
  induction fuel as [| fuel IH]; intros st st' found Hp Hc H; simpl in H.
  - discriminate.
  - pose proof (playout_loop_body_frame st) as Hb.
    destruct (playout_loop_body st) as [st1 | st1 | st1] eqn:Hbody.
    + injection H as _ H. subst st1. destruct Hb as (_ & _ & _ & -> & _). lia.
    + injection H as _ H. subst st1. destruct Hb as (_ & _ & _ & -> & _). lia.
    + apply playout_loop_body_pass in Hbody.
      destruct Hbody as (_ & _ & _ & _ & _ & _ & Hne).
      destruct Hb as (_ & _ & _ & Hpass & Hcol).
      assert (Hw : wrap_unsigned (m_nu_passes st + 1) = (m_nu_passes st + 1)%Z).
      { unfold wrap_unsigned. apply Z.mod_small. lia. }
      rewrite Hw in *.
      apply IH in H; rewrite ?Hpass, ?Hcol in *; lia.
Qed.

(** X4: [gen_playout_move] never lets the passes reach the number of
    colours: called with fewer passes than colours it returns with fewer
    passes than colours, and at least as many as before; the pass that would
    be the last one is not recorded, the function returns [false]
    instead.  It leaves [m_nu_colors] alone. *)
Theorem gen_playout_move_passes_below_colors :
  forall (fuel : nat) (lgr1 lgr2 mv mv' : Move) (found : bool) (st st' : St),
    (0 <= m_nu_passes st < Z.of_nat (m_nu_colors st))%Z ->
    (Z.of_nat (m_nu_colors st) < 2 ^ 32)%Z ->
    gen_playout_move fuel lgr1 lgr2 mv st = Some (found, mv', st') ->
    (m_nu_passes st <= m_nu_passes st' < Z.of_nat (m_nu_colors st'))%Z /\
    m_nu_colors st' = m_nu_colors st.
Proof.
  intros fuel lgr1 lgr2 mv mv' found st st' Hp Hc H.
  unfold gen_playout_move in H.
  destruct (_ =? _)%Z; [injection H as _ _ H; subst st'; split; [lia | reflexivity] |].
  destruct (_ && _); [injection H as _ _ H; subst st'; split; [lia | reflexivity] |].
  destruct (_ && _); [injection H as _ _ H; subst st'; simpl; split; [lia | reflexivity] |].
  destruct (_ && _); [injection H as _ _ H; subst st'; simpl; split; [lia | reflexivity] |].
  destruct (playout_loop fuel _) as [[found' st1] |] eqn:Hloop; [| discriminate].
  pose proof (playout_loop_counters _ _ _ _ Hloop) as (_ & _ & _ & Hcol).
  apply playout_loop_passes_below_colors in Hloop; simpl; try assumption.
  simpl in Hloop, Hcol.
  destruct found'.
  - destruct (generate_double (m_random st1)) as [r rng].
    injection H as _ _ H. subst st'. simpl. rewrite Hcol. split; [lia | reflexivity].
  - injection H as _ _ H. subst st'. rewrite Hcol. split; [lia | reflexivity].
Qed.

Lemma start_search_counters :
  forall st : St,
    m_nu_simulations (start_search st) = 0%Z /\
    m_nu_playout_moves (start_search st) = 0%Z /\
    m_nu_last_good_reply_moves (start_search st) = 0%Z.
Proof.
  intros st. unfold start_search. cbv zeta.
  match goal with
  | |- context [fold_left ?g ?l2 (fold_left ?f ?l (set_m_stat_len ?v (fold_left ?h ?l0 ?s)))] =>
      set (pre := s);
      set (P := fun st' : St =>
                  m_nu_simulations st' = 0%Z /\
                  m_nu_playout_moves st' = 0%Z /\
                  m_nu_last_good_reply_moves st' = 0%Z);
      change (P (fold_left g l2 (fold_left f l (set_m_stat_len v (fold_left h l0 pre)))));
      assert (Hpre : P pre) by (subst pre P; repeat split);
      assert (Hmid : P (fold_left h l0 pre))
  end.
  { clearbody pre.
    apply (fold_left_invariant P); [exact Hpre | intros st' x _ H; exact H]. }
  clearbody pre.
  apply (fold_left_invariant P); [| intros st' x _ H; exact H].
  apply (fold_left_invariant P); [| intros st' x _ H; exact H].
  exact Hmid.
Qed.

(** X5: the last-good-reply counter never overtakes the counter of playout
    moves, so the percentage that [write_info] prints is at most 100:
    [start_search] zeroes both counters, and [gen_playout_move], the one
    function that counts, adds one to the playout moves whenever it adds one
    to the last good replies, and at most one in a call. *)
Theorem last_good_replies_at_most_playout_moves :
  forall (fuel : nat) (lgr1 lgr2 mv mv' : Move) (found : bool) (st st' : St),
    (0 <= m_nu_last_good_reply_moves st <= m_nu_playout_moves st)%Z ->
    (m_nu_playout_moves st < 2 ^ 64 - 1)%Z ->
    gen_playout_move fuel lgr1 lgr2 mv st = Some (found, mv', st') ->
    (0 <= m_nu_last_good_reply_moves st' <= m_nu_playout_moves st')%Z /\
    (m_nu_playout_moves st <= m_nu_playout_moves st' <= m_nu_playout_moves st + 1)%Z /\
    (forall st0 : St,
        m_nu_playout_moves (start_search st0) = 0%Z /\
        m_nu_last_good_reply_moves (start_search st0) = 0%Z).
Proof.
  intros fuel lgr1 lgr2 mv mv' found st st' Hle Hmax H.
  rewrite <- and_assoc.
  split; [| intros st0; apply (start_search_counters st0)].
  assert (Hw1 : wrap_size_t (m_nu_playout_moves st + 1)
                = (m_nu_playout_moves st + 1)%Z).
  { unfold wrap_size_t. apply Z.mod_small. lia. }
  assert (Hw2 : wrap_size_t (m_nu_last_good_reply_moves st + 1)
                = (m_nu_last_good_reply_moves st + 1)%Z).
  { unfold wrap_size_t. apply Z.mod_small. lia. }
  unfold gen_playout_move in H.
  destruct (_ =? _)%Z; [injection H as _ _ H; subst st'; lia |].
  destruct (_ && _); [injection H as _ _ H; subst st'; lia |].
  destruct (_ && _);
    [injection H as _ _ H; subst st'; simpl; rewrite Hw1, Hw2; lia |].
  destruct (_ && _);
    [injection H as _ _ H; subst st'; simpl; rewrite Hw1, Hw2; lia |].
  destruct (playout_loop fuel _) as [[found' st1] |] eqn:Hloop; [| discriminate].
  apply playout_loop_counters in Hloop. simpl in Hloop.
  destruct Hloop as (H1 & H2 & _ & _).
  destruct found'.
  - destruct (generate_double (m_random st1)) as [r rng].
    injection H as _ _ H. subst st'. simpl. rewrite H1, H2, Hw1. lia.
  - injection H as _ _ H. subst st'. rewrite H1, H2, Hw1. lia.
Qed.

(** X6: nothing in [State.cpp] clears the symmetry-broken flag: once it is
    set, it is set after every operation of the state, whatever the move or
    the colour. *)
Theorem symmetry_flag_is_never_cleared :
  forall st : St,
    m_is_symmetry_broken st = true ->
    (forall mv, m_is_symmetry_broken (play_playout mv st) = true) /\
    (forall mv, m_is_symmetry_broken (play_expanded_child mv st) = true) /\
    (forall mv, m_is_symmetry_broken (update_symmetry_broken mv st) = true) /\
    (forall c, m_is_symmetry_broken (init_moves_with_gamma c st) = true) /\
    (forall c, m_is_symmetry_broken (update_moves c st) = true) /\
    (forall n, m_is_symmetry_broken (start_simulation n st) = true) /\
    m_is_symmetry_broken (snd (evaluate_playout st)) = true /\
    (forall fuel lgr1 lgr2 mv mv' found st',
        gen_playout_move fuel lgr1 lgr2 mv st = Some (found, mv', st') ->
        m_is_symmetry_broken st' = true) /\
    (forall fuel lgr1 lgr2 found st',
        gen_and_play_playout_move fuel lgr1 lgr2 st = Some (found, st') ->
        m_is_symmetry_broken st' = true).
Proof.
  intros st Hflag.
  assert (Hplay : forall (s : St) mv,
             m_is_symmetry_broken s = true ->
             m_is_symmetry_broken (play_playout mv s) = true).
  { intros s mv Hs. unfold play_playout. cbv zeta.
    match goal with
    | |- m_is_symmetry_broken (if negb (m_is_symmetry_broken ?x) then _ else _) = _ =>
        change (m_is_symmetry_broken x) with (m_is_symmetry_broken s)
    end.
    rewrite Hs. exact Hs. }
  assert (Hgen : forall fuel lgr1 lgr2 mv mv' found st',
             gen_playout_move fuel lgr1 lgr2 mv st = Some (found, mv', st') ->
             m_is_symmetry_broken st' = true).
  { intros fuel lgr1 lgr2 mv mv' found st' H.
    unfold gen_playout_move in H.
    destruct (_ =? _)%Z; [injection H as _ _ H; subst st'; exact Hflag |].
    destruct (_ && _); [injection H as _ _ H; subst st'; exact Hflag |].
    destruct (_ && _); [injection H as _ _ H; subst st'; exact Hflag |].
    destruct (_ && _); [injection H as _ _ H; subst st'; exact Hflag |].
    destruct (playout_loop fuel _) as [[found' st1] |] eqn:Hloop; [| discriminate].
    apply playout_loop_passes in Hloop. simpl in Hloop.
    assert (H1 : m_is_symmetry_broken st1 = true).
    { destruct Hloop as [(_ & _ & H1) | H1]; congruence. }
    destruct found'.
    - destruct (generate_double (m_random st1)) as [r rng].
      injection H as _ _ H. subst st'. exact H1.
    - injection H as _ _ H. subst st'. exact H1. }
  split; [intros mv; apply Hplay; exact Hflag |].
  split.
  { intros mv. unfold play_expanded_child.
    destruct (negb (is_pass mv)); [apply Hplay; exact Hflag | reflexivity]. }
  split.
  { intros mv. unfold update_symmetry_broken.
    destruct (_ || _); destruct (forallb _ _); try exact Hflag; reflexivity. }
  split; [intros c; rewrite (gf_is_symmetry_broken (init_moves_with_gamma_frame c st));
          exact Hflag |].
  split; [intros c; rewrite (gf_is_symmetry_broken (update_moves_frame c st));
          exact Hflag |].
  split.
  { intros n. unfold start_simulation. simpl.
    rewrite start_simulation_colors_flag. exact Hflag. }
  split.
  { destruct (evaluate_playout_stats_frame st) as (ss & sl & ->). exact Hflag. }
  split; [exact Hgen |].
  intros fuel lgr1 lgr2 found st' H. unfold gen_and_play_playout_move in H.
  destruct (gen_playout_move fuel lgr1 lgr2 MvNull st)
    as [[[found' mv'] st1] |] eqn:Hg; [| discriminate].
  apply Hgen in Hg.
  destruct found'; injection H as _ H; subst st'; [apply Hplay |]; exact Hg.
Qed.

(** ** What adding moves for a colour touches

    The functions that add moves for a colour [c] append to the list of
    [c], set marker bits of [c] and bits of [m_moves_added_at] of [c], and
    move the gamma sums.  The other colours and the bookkeeping of the
    generation are left alone. *)

Set Implicit Arguments.

Record add_frame (c : Color) (st st' : St) : Prop := {
  af_gen : gen_frame st st';
  af_moves : exists new, m_moves st' c = m_moves st c ++ new;
  af_moves_other : forall c', c' <> c -> m_moves st' c' = m_moves st c';
  af_marker_other : forall c', c' <> c -> m_marker st' c' = m_marker st c';
  af_marker_mono :
    forall mv, m_marker st c mv = true -> m_marker st' c mv = true;
  af_added_other :
    forall c', c' <> c -> m_moves_added_at st' c' = m_moves_added_at st c';
  af_new_moves : m_new_moves st' = m_new_moves st;
  af_initialized :
    m_is_move_list_initialized st' = m_is_move_list_initialized st;
  af_piece_considered : m_is_piece_considered st' = m_is_piece_considered st;
  af_force : m_force_consider_all_pieces st' = m_force_consider_all_pieces st;
  af_has_moves : m_has_moves st' = m_has_moves st;
  af_local_value : m_local_value st' = m_local_value st
}.

Unset Implicit Arguments.

Ltac add_frame_fields :=
  constructor;
  try (intros; reflexivity);
  try (intros ? Hother; simpl; apply cm_set_other; exact Hother);
  try (intros ? Hmarked; exact Hmarked).

Lemma add_frame_refl : forall c (st : St), add_frame c st st.
Proof.
  intros c st. add_frame_fields.
  - apply gen_frame_refl.
  - exists []. rewrite app_nil_r. reflexivity.
Qed.

Lemma add_frame_trans :
  forall c (st1 st2 st3 : St),
    add_frame c st1 st2 -> add_frame c st2 st3 -> add_frame c st1 st3.
Proof.
  intros c st1 st2 st3 H12 H23. constructor.
  - eapply gen_frame_trans; [exact (af_gen H12) | exact (af_gen H23)].
  - destruct (af_moves H12) as [n1 E1]. destruct (af_moves H23) as [n2 E2].
    exists (n1 ++ n2). rewrite E2, E1, app_assoc. reflexivity.
  - intros c' Hc. rewrite (af_moves_other H23 Hc). apply (af_moves_other H12 Hc).
  - intros c' Hc. rewrite (af_marker_other H23 Hc). apply (af_marker_other H12 Hc).
  - intros mv H. apply (af_marker_mono H23). apply (af_marker_mono H12). exact H.
  - intros c' Hc. rewrite (af_added_other H23 Hc). apply (af_added_other H12 Hc).
  - rewrite (af_new_moves H23). apply (af_new_moves H12).
  - rewrite (af_initialized H23). apply (af_initialized H12).
  - rewrite (af_piece_considered H23). apply (af_piece_considered H12).
  - rewrite (af_force H23). apply (af_force H12).
  - rewrite (af_has_moves H23). apply (af_has_moves H12).
  - rewrite (af_local_value H23). apply (af_local_value H12).
Qed.

Lemma add_frame_fold :
  forall {B : Type} c (f : St -> B -> St) (l : list B) (st : St),
    (forall st' x, In x l -> add_frame c st' (f st' x)) ->
    add_frame c st (fold_left f l st).
Proof.
  intros B c f l st Hstep.
  apply (fold_left_invariant (fun st' => add_frame c st st')).
  - apply add_frame_refl.
  - intros st' x Hx Hst'. eapply add_frame_trans; [exact Hst' |].
    apply Hstep. exact Hx.
Qed.

Lemma add_move_add_frame :
  forall c mv gamma (st : St), add_frame c st (add_move c mv gamma st).
Proof.
  intros c mv gamma st. unfold add_move. add_frame_fields.
  - apply (add_move_frame c mv gamma st).
  - exists [mv]. simpl. apply cm_set_same.
Qed.

Lemma marker_set_add_frame :
  forall c mv (st : St), add_frame c st (marker_set c mv st).
Proof.
  intros c mv st. unfold marker_set. add_frame_fields.
  - apply (marker_set_frame c mv st).
  - exists []. rewrite app_nil_r. reflexivity.
  - intros mv' H. simpl. rewrite cm_set_same.
    destruct (move_eqb mv' mv); [reflexivity | exact H].
Qed.

Lemma add_moves_step_add_frame :
  forall c is_forb (st : St) mv, add_frame c st (add_moves_step c is_forb st mv).
Proof.
  intros c is_forb st mv. unfold add_moves_step.
  destruct (negb _); [| apply add_frame_refl].
  destruct (check_move _ _ _); [| apply add_frame_refl].
  eapply add_frame_trans; [apply marker_set_add_frame | apply add_move_add_frame].
Qed.

Lemma add_moves_piece_add_frame :
  forall p c piece adj_status (st : St),
    add_frame c st (add_moves_piece p c piece adj_status st).
Proof.
  intros. unfold add_moves_piece. apply add_frame_fold.
  intros st' mv _. apply add_moves_step_add_frame.
Qed.

Lemma set_m_moves_added_at_add_frame :
  forall c g (st : St),
    add_frame c st (set_m_moves_added_at (cm_set (m_moves_added_at st) c g) st).
Proof.
  intros c g st. add_frame_fields.
  - apply set_m_moves_added_at_frame.
  - exists []. rewrite app_nil_r. reflexivity.
Qed.

Lemma add_moves_add_frame :
  forall p c pieces_considered (st : St),
    add_frame c st (add_moves p c pieces_considered st).
Proof.
  intros. unfold add_moves. cbv zeta.
  eapply add_frame_trans; [| apply set_m_moves_added_at_add_frame].
  apply add_frame_fold. intros st' piece _.
  apply add_frame_fold. intros st'' mv _. apply add_moves_step_add_frame.
Qed.

Lemma add_starting_moves_step_add_frame :
  forall c is_forb piece with_gamma (st : St) mv,
    add_frame c st (add_starting_moves_step c is_forb piece with_gamma st mv).
Proof.
  intros. unfold add_starting_moves_step.
  destruct (check_move_without_gamma _ _ _); [| apply add_frame_refl].
  cbv zeta. destruct with_gamma.
  - eapply add_frame_trans; [apply marker_set_add_frame | apply add_move_add_frame].
  - set (s := marker_set c mv st).
    apply (add_frame_trans c st s); [apply marker_set_add_frame |].
    clearbody s. add_frame_fields.
    + apply set_m_moves_frame.
    + exists [mv]. simpl. apply cm_set_same.
Qed.

Lemma add_starting_moves_add_frame :
  forall c pieces_considered with_gamma (st : St),
    add_frame c st (add_starting_moves c pieces_considered with_gamma st).
Proof.
  intros. unfold add_starting_moves.
  destruct (find_best_starting_point c st); [| apply add_frame_refl].
  apply add_frame_fold. intros st' piece _.
  apply add_frame_fold. intros st'' mv _.
  apply add_starting_moves_step_add_frame.
Qed.

(** ** What move generation for a colour leaves to the other colours *)

Set Implicit Arguments.

Record others_kept (c : Color) (st st' : St) : Prop := {
  ok_moves : forall c', c' <> c -> m_moves st' c' = m_moves st c';
  ok_marker : forall c', c' <> c -> m_marker st' c' = m_marker st c';
  ok_added :
    forall c', c' <> c -> m_moves_added_at st' c' = m_moves_added_at st c';
  ok_new_moves : forall c', c' <> c -> m_new_moves st' c' = m_new_moves st c';
  ok_initialized :
    forall c', c' <> c ->
      m_is_move_list_initialized st' c' = m_is_move_list_initialized st c';
  ok_piece_considered :
    forall c', c' <> c ->
      m_is_piece_considered st' c' = m_is_piece_considered st c';
  ok_has_moves : m_has_moves st' = m_has_moves st;
  ok_force :
    m_force_consider_all_pieces st = true ->
    m_force_consider_all_pieces st' = true
}.

Unset Implicit Arguments.

Ltac others_fields :=
  constructor;
  try (intros; reflexivity);
  try (intros ? Hother; simpl; apply cm_set_other; exact Hother);
  try (intros Hforced; exact Hforced).

Lemma others_kept_refl : forall c (st : St), others_kept c st st.
Proof. intros c st. others_fields. Qed.

Lemma others_kept_trans :
  forall c (st1 st2 st3 : St),
    others_kept c st1 st2 -> others_kept c st2 st3 -> others_kept c st1 st3.
Proof.
  intros c st1 st2 st3 H12 H23. constructor.
  - intros c' Hc. rewrite (ok_moves H23 Hc). apply (ok_moves H12 Hc).
  - intros c' Hc. rewrite (ok_marker H23 Hc). apply (ok_marker H12 Hc).
  - intros c' Hc. rewrite (ok_added H23 Hc). apply (ok_added H12 Hc).
  - intros c' Hc. rewrite (ok_new_moves H23 Hc). apply (ok_new_moves H12 Hc).
  - intros c' Hc. rewrite (ok_initialized H23 Hc). apply (ok_initialized H12 Hc).
  - intros c' Hc. rewrite (ok_piece_considered H23 Hc).
    apply (ok_piece_considered H12 Hc).
  - rewrite (ok_has_moves H23). apply (ok_has_moves H12).
  - intros H. apply (ok_force H23). apply (ok_force H12). exact H.
Qed.

Lemma others_kept_fold :
  forall {B : Type} c (f : St -> B -> St) (l : list B) (st : St),
    (forall st' x, In x l -> others_kept c st' (f st' x)) ->
    others_kept c st (fold_left f l st).
Proof.
  intros B c f l st Hstep.
  apply (fold_left_invariant (fun st' => others_kept c st st')).
  - apply others_kept_refl.
  - intros st' x Hx Hst'. eapply others_kept_trans; [exact Hst' |].
    apply Hstep. exact Hx.
Qed.

Lemma add_frame_others_kept :
  forall c (st st' : St), add_frame c st st' -> others_kept c st st'.
Proof.
  intros c st st' H. constructor.
  - apply (af_moves_other H).
  - apply (af_marker_other H).
  - apply (af_added_other H).
  - intros c' _. rewrite (af_new_moves H). reflexivity.
  - intros c' _. rewrite (af_initialized H). reflexivity.
  - intros c' _. rewrite (af_piece_considered H). reflexivity.
  - apply (af_has_moves H).
  - intros Hf. rewrite (af_force H). exact Hf.
Qed.

Lemma marker_clear_others_kept :
  forall c mv (st : St), others_kept c st (marker_clear c mv st).
Proof. intros c mv st. unfold marker_clear. others_fields. Qed.

Lemma marker_clear_all_set_known_others_kept :
  forall c moves (st : St),
    others_kept c st (marker_clear_all_set_known c moves st).
Proof.
  intros. unfold marker_clear_all_set_known. apply others_kept_fold.
  intros st' mv _. apply marker_clear_others_kept.
Qed.

Lemma set_m_moves_others_kept :
  forall c v (st : St),
    others_kept c st (set_m_moves (cm_set (m_moves st) c v) st).
Proof. intros. others_fields. Qed.

Lemma set_m_new_moves_others_kept :
  forall c v (st : St),
    others_kept c st (set_m_new_moves (cm_set (m_new_moves st) c v) st).
Proof. intros. others_fields. Qed.

Lemma set_m_is_move_list_initialized_others_kept :
  forall c v (st : St),
    others_kept c st
      (set_m_is_move_list_initialized
         (cm_set (m_is_move_list_initialized st) c v) st).
Proof. intros. others_fields. Qed.

Lemma set_m_is_piece_considered_others_kept :
  forall c v (st : St),
    others_kept c st
      (set_m_is_piece_considered (cm_set (m_is_piece_considered st) c v) st).
Proof. intros. others_fields. Qed.

Lemma set_m_local_value_others_kept :
  forall c v (st : St), others_kept c st (set_m_local_value v st).
Proof. intros. others_fields. Qed.

Lemma set_m_total_gamma_others_kept :
  forall c v (st : St), others_kept c st (set_m_total_gamma v st).
Proof. intros. others_fields. Qed.

Lemma set_m_force_others_kept :
  forall c (st : St),
    others_kept c st (set_m_force_consider_all_pieces true st).
Proof. intros. others_fields. Qed.

Ltac others_set :=
  first
    [ eapply others_kept_trans; [| apply set_m_moves_others_kept]
    | eapply others_kept_trans; [| apply set_m_new_moves_others_kept]
    | eapply others_kept_trans; [| apply set_m_is_move_list_initialized_others_kept]
    | eapply others_kept_trans; [| apply set_m_is_piece_considered_others_kept]
    | eapply others_kept_trans; [| apply set_m_local_value_others_kept]
    | eapply others_kept_trans; [| apply set_m_total_gamma_others_kept]
    | eapply others_kept_trans; [| apply set_m_force_others_kept] ].

Ltac others_step := repeat others_set; try apply others_kept_refl.

Lemma init_moves_with_gamma_once_others_kept :
  forall c (st : St), others_kept c st (init_moves_with_gamma_once c st).
Proof.
  intros. unfold init_moves_with_gamma_once. do 2 others_set.
  match goal with
  | |- others_kept _ _ (if ?b then _ else _) => destruct b
  end.
  - eapply others_kept_trans;
      [| apply add_frame_others_kept; apply add_starting_moves_add_frame].
    others_set.
    eapply others_kept_trans; [| apply marker_clear_all_set_known_others_kept].
    others_step.
  - eapply others_kept_trans; [| apply others_kept_fold].
    + others_set.
      eapply others_kept_trans; [| apply marker_clear_all_set_known_others_kept].
      others_step.
    + intros st' p _.
      destruct (negb (is_forbidden (m_bd st') c p));
        [apply add_frame_others_kept; apply add_moves_add_frame
        | apply others_kept_refl].
Qed.

Lemma init_moves_with_gamma_fuel_others_kept :
  forall fuel c (st : St),
    others_kept c st (init_moves_with_gamma_fuel fuel c st).
Proof.
  induction fuel as [| fuel IH]; intros c st;
    rewrite init_moves_with_gamma_fuel_unfold; cbv zeta;
    pose proof (init_moves_with_gamma_once_others_kept c st) as Hf;
    remember (init_moves_with_gamma_once c st) as st1 eqn:E; clear E;
    destruct (_ && _); try exact Hf.
  eapply others_kept_trans; [| apply IH].
  eapply others_kept_trans; [exact Hf |].
  apply set_m_force_others_kept.
Qed.

Lemma update_moves_keep_others_kept :
  forall c is_piece_left is_forb (st : St) mv,
    others_kept c st (update_moves_keep c is_piece_left is_forb st mv).
Proof.
  intros. unfold update_moves_keep.
  destruct (is_piece_left _); [| apply marker_clear_others_kept].
  destruct (check_move _ _ _);
    [apply add_frame_others_kept; apply add_move_add_frame
    | apply marker_clear_others_kept].
Qed.

Lemma update_moves_new_add_frame :
  forall c is_forb pieces (st : St) mv,
    add_frame c st (update_moves_new c is_forb pieces st mv).
Proof.
  intros. unfold update_moves_new. apply add_frame_fold.
  intros st' p _.
  destruct (_ && _); [apply add_moves_add_frame | apply add_frame_refl].
Qed.

Lemma update_moves_others_kept :
  forall c (st : St), others_kept c st (update_moves c st).
Proof.
  intros c st. unfold update_moves.
  set (st0 := set_m_moves _ (set_m_total_gamma _ (set_m_local_value _ st))).
  assert (H0 : others_kept c st st0) by (subst st0; others_step).
  set (st1 := fold_left _ (m_moves _ c) st0).
  assert (H1 : others_kept c st st1).
  { eapply others_kept_trans; [exact H0 |]. subst st1. apply others_kept_fold.
    intros. apply update_moves_keep_others_kept. }
  set (st2 := set_m_new_moves _ _).
  assert (H2 : others_kept c st st2).
  { subst st2. others_set. eapply others_kept_trans; [exact H1 |].
    apply others_kept_fold. intros. apply add_frame_others_kept.
    apply update_moves_new_add_frame. }
  clearbody st2. clear H0 H1 st0 st1.
  destruct (negb (_ =? _)); [| exact H2].
  set (st3 := if is_empty (m_moves st2 c) then _ else st2).
  assert (H3 : others_kept c st st3).
  { subst st3. destruct (is_empty _); [| exact H2].
    eapply others_kept_trans; [exact H2 | others_step]. }
  clearbody st3.
  destruct (negb (_ =? _)); [| exact H3].
  others_set. eapply others_kept_trans; [exact H3 |].
  apply others_kept_fold. intros st' p _.
  destruct (negb _); [| apply others_kept_refl].
  apply others_kept_fold. intros. apply add_frame_others_kept.
  apply add_moves_piece_add_frame.
Qed.

(** X7: generating the moves of one colour, from scratch or as an update,
    leaves the move lists, the markers, the new moves, the initialization
    flags, the piece tables and the attach-point marks of every other colour
    as they were, does not touch [m_has_moves], and never takes
    [m_force_consider_all_pieces] back. *)
Theorem move_generation_keeps_other_colors :
  forall (c c' : Color) (st : St),
    c' <> c ->
    let kept (st' : St) :=
      m_moves st' c' = m_moves st c' /\
      m_marker st' c' = m_marker st c' /\
      m_moves_added_at st' c' = m_moves_added_at st c' /\
      m_new_moves st' c' = m_new_moves st c' /\
      m_is_move_list_initialized st' c' = m_is_move_list_initialized st c' /\
      m_is_piece_considered st' c' = m_is_piece_considered st c' /\
      m_has_moves st' = m_has_moves st /\
      (m_force_consider_all_pieces st = true ->
       m_force_consider_all_pieces st' = true) in
    kept (init_moves_with_gamma c st) /\ kept (update_moves c st).
Proof.
  intros c c' st Hc kept.
  assert (H : forall st', others_kept c st st' -> kept st').
  { intros st' H. unfold kept.
    rewrite (ok_moves H Hc), (ok_marker H Hc), (ok_added H Hc),
      (ok_new_moves H Hc), (ok_initialized H Hc), (ok_piece_considered H Hc),
      (ok_has_moves H).
    repeat split. apply (ok_force H). }
  split; apply H.
  - apply init_moves_with_gamma_fuel_others_kept.
  - apply update_moves_others_kept.
Qed.

(** ** The two move checks agree *)

Lemma check_move_some_iff :
  forall (is_forb : Grid bool) (mv : Move) (st0 st : St),
    m_move_info_array st = m_move_info_array st0 ->
    match check_move is_forb (get_move_info st mv) st with
    | Some _ => true
    | None => false
    end = check_move_without_gamma is_forb mv st0.
Proof.
  intros is_forb mv st0 st Hinfo.
  unfold check_move_without_gamma. cbv zeta.
  replace (get_move_info st0 mv) with (get_move_info st mv)
    by (unfold get_move_info; rewrite Hinfo; reflexivity).
  destruct (check_move is_forb (get_move_info st mv) st) as [gamma |] eqn:H.
  - apply check_move_accepts in H. destruct H as [_ H].
    unfold mi_points in H. simpl in H.
    destruct (is_forb (mi_first (get_move_info st mv))); [discriminate |].
    symmetry. exact H.
  - apply check_move_rejects in H.
    unfold mi_points in H. simpl in H.
    destruct (is_forb (mi_first (get_move_info st mv))); [reflexivity |].
    symmetry. exact H.
Qed.

(** X8: [check_move] accepts a move exactly when [check_move_without_gamma]
    does: the gamma weight and the local value have no say in whether a move
    enters the list. *)
Theorem check_move_agrees_with_check_move_without_gamma :
  forall (is_forb : Grid bool) (mv : Move) (st : St),
    match check_move is_forb (get_move_info st mv) st with
    | Some _ => true
    | None => false
    end = check_move_without_gamma is_forb mv st.
Proof.
  intros is_forb mv st. apply check_move_some_iff. reflexivity.
Qed.

(** ** The first loop of [update_moves] filters the old list *)

Lemma update_moves_keep_moves :
  forall (c : Color) (is_piece_left : Piece -> bool) (is_forb : Grid bool)
         (st0 : St) (l : list Move) (st : St),
    gen_frame st0 st ->
    m_moves
      (fold_left (update_moves_keep c is_piece_left is_forb) l st) c
    = m_moves st c
      ++ filter
           (fun mv =>
              is_piece_left (get_piece (get_move_info st0 mv))
              && check_move_without_gamma is_forb mv st0) l.
Proof.
  intros c is_piece_left is_forb st0 l.
  induction l as [| mv l IH]; intros st Hf.
  - simpl. rewrite app_nil_r. reflexivity.
  - change (fold_left (update_moves_keep c is_piece_left is_forb) (mv :: l) st)
      with (fold_left (update_moves_keep c is_piece_left is_forb) l
              (update_moves_keep c is_piece_left is_forb st mv)).
    rewrite IH;
      [| eapply gen_frame_trans; [exact Hf | apply update_moves_keep_frame]].
    pose proof (check_move_some_iff is_forb mv st0 st (gf_move_info_array Hf))
      as Hc.
    unfold update_moves_keep. cbv zeta.
    assert (Hinfo : get_move_info st mv = get_move_info st0 mv).
    { unfold get_move_info. rewrite (gf_move_info_array Hf). reflexivity. }
    rewrite Hinfo in *.
    simpl filter.
    destruct (is_piece_left (get_piece (get_move_info st0 mv))); simpl andb.
    + destruct (check_move is_forb (get_move_info st0 mv) st) as [gamma |];
        rewrite <- Hc.
      * rewrite m_moves_add_move, <- app_assoc. reflexivity.
      * reflexivity.
    + reflexivity.
Qed.

Lemma add_frame_moves_nonempty :
  forall c (st st' : St),
    add_frame c st st' -> m_moves st' c = [] -> m_moves st c = [].
Proof.
  intros c st st' H E. destruct (af_moves H) as [new Hn].
  rewrite Hn in E. apply app_eq_nil in E. apply E.
Qed.

(** X9: [update_moves] keeps, in their order and at the front of the list,
    exactly the old moves whose piece is still left and whose points are
    all not forbidden; what it generates comes after them.  It empties the
    list of new moves, and a list that comes out empty was generated with
    every piece considered. *)
Theorem update_moves_keeps_legal_moves :
  forall (c : Color) (st : St),
    (exists new,
        m_moves (update_moves c st) c
        = filter (still_legal c st) (m_moves st c) ++ new) /\
    m_new_moves (update_moves c st) c = [] /\
    (m_moves (update_moves c st) c = [] ->
     considers_all_pieces c (update_moves c st)).
Proof.
  intros c st. unfold update_moves, considers_all_pieces.
  set (st0 := set_m_moves _ (set_m_total_gamma _ (set_m_local_value _ st))).
  assert (H0 : gen_frame st st0) by (subst st0; frame_step).
  set (st1 := fold_left _ (m_moves _ c) st0).
  assert (H1 : m_moves st1 c = filter (still_legal c st) (m_moves st c)).
  { subst st1.
    rewrite (update_moves_keep_moves c _ _ st (m_moves st c) st0 H0).
    subst st0. simpl. rewrite cm_set_same. reflexivity. }
  assert (Hf1 : gen_frame st st1).
  { eapply gen_frame_trans; [exact H0 |]. subst st1. apply gen_frame_fold.
    intros. apply update_moves_keep_frame. }
  set (st2 := set_m_new_moves _ _).
  assert (H2 : exists new,
             m_moves st2 c = filter (still_legal c st) (m_moves st c) ++ new).
  { subst st2.
    match goal with
    | |- exists new, m_moves (set_m_new_moves _ ?s) c = _ =>
        change (exists new,
                   m_moves s c = filter (still_legal c st) (m_moves st c) ++ new);
        assert (Ha : add_frame c st1 s)
          by (apply add_frame_fold; intros; apply update_moves_new_add_frame)
    end.
    destruct (af_moves Ha) as [new Hn]. exists new. rewrite Hn, H1. reflexivity. }
  assert (Hn2 : m_new_moves st2 c = []).
  { subst st2. simpl. apply cm_set_same. }
  assert (Hf2 : gen_frame st st2).
  { subst st2. frame_set. eapply gen_frame_trans; [exact Hf1 |].
    apply gen_frame_fold. intros. apply update_moves_new_frame. }
  clearbody st2. clear H0 H1 Hf1 st0 st1.
  destruct (Nat.eqb_spec (m_is_piece_considered st2 c)
              (is_piece_considered_all (m_shared_const st2))) as [Hall | Hnot];
    simpl negb; cbv iota.
  { split; [exact H2 |]. split; [exact Hn2 |]. intros _. exact Hall. }
  set (st3 := if is_empty (m_moves st2 c) then _ else st2).
  assert (Hm3 : m_moves st3 c = m_moves st2 c).
  { subst st3. destruct (is_empty _); reflexivity. }
  assert (Hn3 : m_new_moves st3 c = []).
  { subst st3. destruct (is_empty _); exact Hn2. }
  assert (Hp3 : m_is_piece_considered st3 c = m_is_piece_considered st2 c).
  { subst st3. destruct (is_empty _); reflexivity. }
  assert (Hs3 : m_shared_const st3 = m_shared_const st2).
  { subst st3. destruct (is_empty _); reflexivity. }
  assert (He3 : m_moves st2 c = [] ->
                get_pieces_considered st3
                = is_piece_considered_all (m_shared_const st2)).
  { intros E. subst st3. rewrite E. simpl is_empty. cbv iota.
    unfold get_pieces_considered. simpl. rewrite orb_true_r. reflexivity. }
  clearbody st3.
  destruct (Nat.eqb_spec (m_is_piece_considered st2 c)
              (get_pieces_considered st3)) as [Hsame | Hdiff];
    simpl negb; cbv iota.
  { split; [rewrite Hm3; exact H2 |]. split; [exact Hn3 |].
    intros E. exfalso. apply Hnot. rewrite Hsame. apply He3.
    rewrite <- Hm3. exact E. }
  match goal with
  | |- context [set_m_is_piece_considered _ (fold_left ?f ?l st3)] =>
      set (st4 := fold_left f l st3);
      assert (Ha : add_frame c st3 st4)
  end.
  { subst st4. apply add_frame_fold. intros st' p _.
    destruct (negb _); [| apply add_frame_refl].
    apply add_frame_fold. intros. apply add_moves_piece_add_frame. }
  clearbody st4.
  change (m_moves (set_m_is_piece_considered _ st4) c) with (m_moves st4 c).
  change (m_new_moves (set_m_is_piece_considered _ st4) c)
    with (m_new_moves st4 c).
  split.
  { destruct (af_moves Ha) as [new Hn]. destruct H2 as [new2 H2].
    exists (new2 ++ new). rewrite Hn, Hm3, H2, app_assoc. reflexivity. }
  split; [rewrite (af_new_moves Ha); exact Hn3 |].
  intros E. simpl. rewrite cm_set_same.
  rewrite (gf_shared_const (af_gen Ha)), Hs3. apply He3.
  rewrite <- Hm3. apply (add_frame_moves_nonempty c st3 st4 Ha E).
Qed.

(** ** What [init_moves_with_gamma] leaves behind for its colour *)

Lemma init_moves_with_gamma_once_own :
  forall (c : Color) (st : St),
    m_is_move_list_initialized (init_moves_with_gamma_once c st) c = true /\
    m_new_moves (init_moves_with_gamma_once c st) c = [] /\
    m_is_piece_considered (init_moves_with_gamma_once c st) c
    = get_pieces_considered st /\
    m_force_consider_all_pieces (init_moves_with_gamma_once c st)
    = m_force_consider_all_pieces st.
Proof.
  intros c st. unfold init_moves_with_gamma_once.
  set (st0 := set_m_total_gamma _ (set_m_local_value _ (set_m_is_piece_considered _ st))).
  set (st1 := set_m_moves _ (marker_clear_all_set_known c (m_moves st0 c) st0)).
  assert (H1 : m_is_piece_considered st1 c = get_pieces_considered st /\
               m_force_consider_all_pieces st1 = m_force_consider_all_pieces st).
  { destruct (marker_clear_all_set_known_fields c (m_moves st0 c) st0)
      as (Hp & _ & Hforce).
    change (m_is_piece_considered st1)
      with (m_is_piece_considered
              (marker_clear_all_set_known c (m_moves st0 c) st0)).
    change (m_force_consider_all_pieces st1)
      with (m_force_consider_all_pieces
              (marker_clear_all_set_known c (m_moves st0 c) st0)).
    rewrite Hp, Hforce. subst st0. simpl. rewrite cm_set_same.
    split; reflexivity. }
  clearbody st1. clear st0.
  match goal with
  | |- context [set_m_new_moves _ (set_m_is_move_list_initialized _ ?s)] =>
      set (st2 := s); assert (Ha : add_frame c st1 st2)
  end.
  { subst st2. destruct (is_first_piece (m_bd st1) c).
    - apply add_starting_moves_add_frame.
    - apply add_frame_fold. intros st' p _.
      destruct (negb _); [apply add_moves_add_frame | apply add_frame_refl]. }
  clearbody st2. simpl. rewrite !cm_set_same.
  rewrite (af_piece_considered Ha), (af_force Ha).
  destruct H1 as [Hp Hforce]. rewrite Hp, Hforce. repeat split.
Qed.

Lemma init_moves_with_gamma_unfold :
  forall (c : Color) (st : St),
    init_moves_with_gamma c st
    = if is_empty (m_moves (init_moves_with_gamma_once c st) c)
         && negb (m_force_consider_all_pieces (init_moves_with_gamma_once c st))
      then
        init_moves_with_gamma_once c
          (set_m_force_consider_all_pieces true (init_moves_with_gamma_once c st))
      else init_moves_with_gamma_once c st.
Proof.
  intros c st. unfold init_moves_with_gamma.
  rewrite (init_moves_with_gamma_fuel_unfold 1). cbv zeta.
  remember (init_moves_with_gamma_once c st) as st1 eqn:E. clear E.
  destruct (_ && _); [| reflexivity].
  rewrite (init_moves_with_gamma_fuel_unfold 0). cbv zeta.
  remember (init_moves_with_gamma_once c
              (set_m_force_consider_all_pieces true st1)) as st2 eqn:E.
  clear E. destruct (_ && _); reflexivity.
Qed.

Lemma get_pieces_considered_forced :
  forall st : St,
    m_force_consider_all_pieces st = true ->
    get_pieces_considered st = is_piece_considered_all (m_shared_const st).
Proof.
  intros st H. unfold get_pieces_considered. rewrite H, orb_true_r.
  reflexivity.
Qed.

Lemma empty_list_considered_all :
  forall (c : Color) (st st1 st2 : St),
    m_is_piece_considered st1 c = get_pieces_considered st ->
    m_force_consider_all_pieces st1 = m_force_consider_all_pieces st ->
    m_shared_const st1 = m_shared_const st ->
    m_is_piece_considered st2 c
    = get_pieces_considered (set_m_force_consider_all_pieces true st1) ->
    m_force_consider_all_pieces st2
    = m_force_consider_all_pieces (set_m_force_consider_all_pieces true st1) ->
    m_shared_const st2
    = m_shared_const (set_m_force_consider_all_pieces true st1) ->
    let st' :=
      if is_empty (m_moves st1 c) && negb (m_force_consider_all_pieces st1)
      then st2 else st1 in
    m_moves st' c = [] ->
    m_force_consider_all_pieces st' = true /\ considers_all_pieces c st'.
Proof.
  intros c st st1 st2 Hp Hf Hs Hp2 Hf2 Hs2. cbv zeta.
  rewrite (get_pieces_considered_forced
             (set_m_force_consider_all_pieces true st1) eq_refl) in Hp2.
  change (m_force_consider_all_pieces st2 = true) in Hf2.
  change (m_shared_const st2 = m_shared_const st1) in Hs2.
  change (m_is_piece_considered st2 c
          = is_piece_considered_all (m_shared_const st1)) in Hp2.
  unfold considers_all_pieces.
  destruct (is_empty (m_moves st1 c)) eqn:Hempty;
    [destruct (m_force_consider_all_pieces st1) eqn:Hforce |]; simpl andb;
    cbv iota; intros E.
  - split; [exact Hforce |]. rewrite Hp, Hs.
    apply get_pieces_considered_forced. rewrite <- Hf. reflexivity.
  - split; [exact Hf2 |]. rewrite Hp2, Hs2. reflexivity.
  - rewrite E in Hempty. discriminate.
Qed.

(** X10: after [init_moves_with_gamma] the list of the colour counts as
    initialized and its list of new moves is empty; a move list that comes
    out empty was generated with [m_force_consider_all_pieces] set and with
    the table that considers every piece, so an empty list is never owed to
    the restriction of the pieces considered. *)
Theorem init_moves_with_gamma_empty_list_considered_all :
  forall (c : Color) (st : St),
    m_is_move_list_initialized (init_moves_with_gamma c st) c = true /\
    m_new_moves (init_moves_with_gamma c st) c = [] /\
    (m_moves (init_moves_with_gamma c st) c = [] ->
     m_force_consider_all_pieces (init_moves_with_gamma c st) = true /\
     considers_all_pieces c (init_moves_with_gamma c st)).
Proof.
  intros c st. rewrite init_moves_with_gamma_unfold.
  destruct (init_moves_with_gamma_once_own c st) as (Hi & Hn & Hp & Hf).
  pose proof (gf_shared_const (init_moves_with_gamma_once_frame c st)) as Hs.
  remember (init_moves_with_gamma_once c st) as st1 eqn:E. clear E.
  destruct (init_moves_with_gamma_once_own c
              (set_m_force_consider_all_pieces true st1))
    as (Hi' & Hn' & Hp' & Hf').
  pose proof (gf_shared_const
                (init_moves_with_gamma_once_frame c
                   (set_m_force_consider_all_pieces true st1))) as Hs'.
  remember (init_moves_with_gamma_once c
              (set_m_force_consider_all_pieces true st1)) as st2 eqn:E.
  clear E.
  split; [destruct (_ && _); assumption |].
  split; [destruct (_ && _); assumption |].
  exact (empty_list_considered_all c st st1 st2 Hp Hf Hs Hp' Hf' Hs').
Qed.

(** ** [start_simulation] *)

Lemma start_simulation_colors_reset :
  forall (l : list Color) (st : St),
    let st' :=
      fold_left
        (fun st c =>
           let st := set_m_has_moves (cm_set (m_has_moves st) c true) st in
           let st :=
             set_m_is_move_list_initialized
               (cm_set (m_is_move_list_initialized st) c false) st in
           let st := set_m_new_moves (cm_set (m_new_moves st) c []) st in
           set_m_moves_added_at
             (cm_set (m_moves_added_at st) c (fun _ => false)) st)
        l st in
    (forall c, In c l ->
       m_has_moves st' c = true /\
       m_is_move_list_initialized st' c = false /\
       m_new_moves st' c = [] /\
       (forall p, m_moves_added_at st' c p = false)) /\
    m_moves st' = m_moves st /\
    m_marker st' = m_marker st /\
    m_is_piece_considered st' = m_is_piece_considered st /\
    m_bd st' = m_bd st /\
    m_force_consider_all_pieces st' = m_force_consider_all_pieces st /\
    m_nu_simulations st' = m_nu_simulations st.
Proof.
  intros l. induction l as [| x l IH] using rev_ind; intros st; cbv zeta.
  - simpl. split; [intros c [] |]. repeat split.
  - rewrite fold_left_app.
    specialize (IH st). cbv zeta in IH.
    match type of IH with
    | context [m_moves (fold_left ?f l st)] =>
        remember (fold_left f l st) as st1 eqn:E; clear E
    end.
    destruct IH as (Hin & Hm & Hk & Hp & Hb & Hf & Hs).
    simpl. split; [| repeat split; assumption].
    intros c Hc. destruct (Nat.eq_dec c x) as [-> | Hne].
    + rewrite !cm_set_same. repeat split.
    + rewrite !cm_set_other by exact Hne.
      apply in_app_iff in Hc. destruct Hc as [Hc | [Hc | []]].
      * apply (Hin c Hc).
      * exfalso. apply Hne. symmetry. exact Hc.
Qed.

(** X11: [start_simulation] restores the board to the snapshot, counts the
    simulation, takes [m_force_consider_all_pieces] back and tells every
    colour of the game to generate its moves anew (it has moves, its list is
    not initialized, it has no new moves and no attach point counts as
    handled).  It does not clear the move lists or the markers themselves:
    they keep the moves of the previous simulation until
    [init_moves_with_gamma] runs for the colour. *)
Theorem start_simulation_resets_move_generation :
  forall (n : nat) (st : St),
    let st' := start_simulation n st in
    m_bd st' = restore_snapshot (m_bd st) /\
    m_nu_simulations st' = wrap_size_t (m_nu_simulations st + 1) /\
    m_force_consider_all_pieces st' = false /\
    (forall c, c < m_nu_colors st ->
       m_has_moves st' c = true /\
       m_is_move_list_initialized st' c = false /\
       m_new_moves st' c = [] /\
       (forall p, m_moves_added_at st' c p = false)) /\
    m_moves st' = m_moves st /\
    m_marker st' = m_marker st /\
    m_is_piece_considered st' = m_is_piece_considered st.
Proof.
  intros n st. cbv zeta. unfold start_simulation. cbv zeta.
  match goal with
  | |- context [fold_left ?f (colors ?k) ?s] =>
      pose proof (start_simulation_colors_reset (colors k) s) as H;
      cbv zeta in H;
      change k with (m_nu_colors st) in *;
      set (st0 := s) in *;
      assert (H0 : m_bd st0 = restore_snapshot (m_bd st) /\
                   m_nu_simulations st0 = wrap_size_t (m_nu_simulations st + 1) /\
                   m_force_consider_all_pieces st0 = false /\
                   m_moves st0 = m_moves st /\ m_marker st0 = m_marker st /\
                   m_is_piece_considered st0 = m_is_piece_considered st)
        by (subst st0; repeat split);
      clearbody st0;
      remember (fold_left f (colors (m_nu_colors st)) st0) as st1 eqn:E; clear E
  end.
  destruct H as (Hin & Hm & Hk & Hp & Hb & Hf & Hs).
  destruct H0 as (Hb0 & Hs0 & Hf0 & Hm0 & Hk0 & Hp0).
  simpl. rewrite Hb, Hs, Hf, Hm, Hk, Hp.
  repeat split; try assumption;
    apply Hin; unfold colors; apply in_seq; lia.
Qed.

Lemma trailing_passes_spec :
  forall (bd : Board) (i : nat) (k0 : Z),
    (0 <= k0)%Z ->
    (k0 + Z.of_nat i < 2 ^ 32)%Z ->
    exists k,
      k <= i /\
      trailing_passes bd i k0 = (k0 + Z.of_nat k)%Z /\
      (forall j, i - k <= j < i -> is_pass (get_move bd j) = true) /\
      (k < i -> is_pass (get_move bd (i - k - 1)) = false).
Proof.
  intros bd i. induction i as [| i IH]; intros k0 Hk0 Hbound.
  - exists 0. simpl. split; [lia |]. split; [lia |].
    split; [intros j Hj; lia | intros H; lia].
  - simpl. destruct (is_pass (get_move bd i)) eqn:Hpass; simpl.
    + assert (Hw : wrap_unsigned (k0 + 1) = (k0 + 1)%Z).
      { unfold wrap_unsigned. apply Z.mod_small. lia. }
      rewrite Hw.
      destruct (IH (k0 + 1)%Z) as (k & Hk & Hres & Hall & Hstop); try lia.
      exists (S k). split; [lia |]. split; [rewrite Hres; lia |]. split.
      * intros j Hj. destruct (Nat.eq_dec j i) as [-> | Hne]; [exact Hpass |].
        apply Hall. lia.
      * intros Hlt. replace (S i - S k - 1) with (i - k - 1) by lia.
        apply Hstop. lia.
    + exists 0. split; [lia |]. split; [lia |]. split.
      * intros j Hj. lia.
      * intros _. simpl; rewrite Nat.sub_0_r. exact Hpass.
Qed.

(** X12: after [start_simulation] the number of passes is the number of pass
    moves at the end of the move history of the restored board: the last
    [k] moves are passes and the move before them, if there is one, is
    not. *)
Theorem start_simulation_counts_trailing_passes :
  forall (n : nat) (st : St),
    let bd := restore_snapshot (m_bd st) in
    (Z.of_nat (get_nu_moves bd) < 2 ^ 32)%Z ->
    exists k,
      m_nu_passes (start_simulation n st) = Z.of_nat k /\
      k <= get_nu_moves bd /\
      (forall j, get_nu_moves bd - k <= j < get_nu_moves bd ->
                 is_pass (get_move bd j) = true) /\
      (k < get_nu_moves bd ->
       is_pass (get_move bd (get_nu_moves bd - k - 1)) = false).
Proof.
  intros n st bd Hbound. unfold start_simulation. cbv zeta.
  match goal with
  | |- context [fold_left ?f (colors ?k) ?s] =>
      pose proof (start_simulation_colors_reset (colors k) s) as H;
      cbv zeta in H;
      remember (fold_left f (colors k) s) as st1 eqn:E; clear E
  end.
  destruct H as (_ & _ & _ & _ & Hb & _).
  change (m_bd st1 = bd) in Hb.
  simpl. rewrite Hb.
  destruct (trailing_passes_spec bd (get_nu_moves bd) 0%Z)
    as (k & Hk & Hres & Hall & Hstop); try lia.
  exists k. rewrite Hres. repeat split; try assumption; lia.
Qed.

(** ** The starting point *)

Lemma find_best_starting_point_fold :
  forall (test : Point -> bool) (dist : Point -> F) (l : list Point)
         (acc : option Point * F),
    (match fst acc with
     | Some p => test p = false
     | None => True
     end) ->
    match
      fst (fold_left
             (fun (acc : option Point * F) p =>
                let (best, max_distance) := acc in
                if test p then acc
                else if max_distance <@? dist p then (Some p, dist p) else acc)
             l acc)
    with
    | Some p => (In p l \/ fst acc = Some p) /\ test p = false
    | None => fst acc = None
    end.
Proof.
  intros test dist l. induction l as [| x l IH]; intros [best d] Hacc.
  - simpl in *. destruct best; [split; [right; reflexivity | exact Hacc] |].
    reflexivity.
  - simpl fold_left.
    destruct (test x) eqn:Hx.
    + specialize (IH (best, d) Hacc).
      destruct (fst (fold_left _ l (best, d))) as [p |]; [| exact IH].
      destruct IH as [[Hin | Hb] Ht]; (split; [| exact Ht]);
        [left; right; exact Hin | right; exact Hb].
    + destruct (d <@? dist x).
      * specialize (IH (Some x, dist x) Hx).
        destruct (fst (fold_left _ l (Some x, dist x))) as [p |];
          [| discriminate IH].
        destruct IH as [[Hin | Hb] Ht]; (split; [| exact Ht]);
          [left; right; exact Hin |].
        injection Hb as Hb. left. left. exact Hb.
      * specialize (IH (best, d) Hacc).
        destruct (fst (fold_left _ l (best, d))) as [p |]; [| exact IH].
        destruct IH as [[Hin | Hb] Ht]; (split; [| exact Ht]);
          [left; right; exact Hin | right; exact Hb].
Qed.

Lemma find_best_starting_point_forbidden_fold :
  forall (test : Point -> bool) (dist : Point -> F) (l : list Point)
         (acc : option Point * F),
    (forall p, In p l -> test p = true) ->
    fold_left
      (fun (acc : option Point * F) p =>
         let (best, max_distance) := acc in
         if test p then acc
         else if max_distance <@? dist p then (Some p, dist p) else acc)
      l acc
    = acc.
Proof.
  intros test dist l. induction l as [| x l IH]; intros [best d] Hall.
  - reflexivity.
  - simpl fold_left. rewrite (Hall x (or_introl eq_refl)).
    apply IH. intros p Hp. apply Hall. right. exact Hp.
Qed.

(** X13: the point that [find_best_starting_point] returns is a starting
    point of the colour that is not forbidden to it; when every starting
    point of the colour is forbidden the result is the null point, and
    [add_starting_moves] then adds no move at all. *)
Theorem find_best_starting_point_is_free :
  forall (c : Color) (st : St),
    (forall p, find_best_starting_point c st = Some p ->
       In p (get_starting_points (m_bd st) c) /\
       is_forbidden (m_bd st) c p = false) /\
    ((forall p, In p (get_starting_points (m_bd st) c) ->
                is_forbidden (m_bd st) c p = true) ->
     find_best_starting_point c st = None /\
     forall pieces_considered with_gamma,
       add_starting_moves c pieces_considered with_gamma st = st).
Proof.
  intros c st. split.
  - intros p Hp. unfold find_best_starting_point in Hp. cbv zeta in Hp.
    match type of Hp with
    | fst (fold_left _ ?l ?acc) = _ =>
        pose proof (find_best_starting_point_fold
                      (is_forbidden (m_bd st) c)
                      (fun p =>
                         starting_distance c
                           (f_of_nat (get_x p (get_width (m_bd st))))
                           (f_of_nat (get_y p (get_width (m_bd st))))
                           (if match get_board_type (m_bd st) with
                               | bt_trigon | bt_trigon_3 => true
                               | _ => false
                               end
                            then f_of_Q 1.732 else f_of_Q 1) st)
                      l acc I) as H
    end.
    cbv beta in H. rewrite Hp in H.
    destruct H as [[Hin | Hb] Ht]; [split; assumption | discriminate Hb].
  - intros Hall.
    assert (Hnone : find_best_starting_point c st = None).
    { unfold find_best_starting_point. cbv zeta.
      match goal with
      | |- fst (fold_left _ ?l ?acc) = _ =>
          rewrite (find_best_starting_point_forbidden_fold
                     (is_forbidden (m_bd st) c)
                     (fun p =>
                        starting_distance c
                          (f_of_nat (get_x p (get_width (m_bd st))))
                          (f_of_nat (get_y p (get_width (m_bd st))))
                          (if match get_board_type (m_bd st) with
                              | bt_trigon | bt_trigon_3 => true
                              | _ => false
                              end
                           then f_of_Q 1.732 else f_of_Q 1) st)
                     l acc Hall)
      end.
      reflexivity. }
    split; [exact Hnone |].
    intros pieces_considered with_gamma. unfold add_starting_moves.
    rewrite Hnone. reflexivity.
Qed.

(** ** The move that the playout policy samples *)

Lemma lower_bound_from_spec :
  forall (a : nat -> F) (x : F) (n i : nat),
    i <= lower_bound_from a i n x <= i + n /\
    (forall j, i <= j < lower_bound_from a i n x -> (a j <@? x) = true) /\
    (lower_bound_from a i n x < i + n ->
     (a (lower_bound_from a i n x) <@? x) = false).
Proof.
  intros a x n. induction n as [| n IH]; intros i.
  - simpl. split; [lia |]. split; [intros j Hj; lia | intros H; lia].
  - simpl. destruct (a i <@? x) eqn:Hi.
    + destruct (IH (S i)) as (Hb & Hall & Hstop).
      split; [lia |]. split.
      * intros j Hj. destruct (Nat.eq_dec j i) as [-> | Hne]; [exact Hi |].
        apply Hall. lia.
      * intros Hlt. apply Hstop. lia.
    + split; [lia |]. split; [intros j Hj; lia | intros _; exact Hi].
Qed.

Lemma lower_bound_found :
  forall (a : nat -> F) (x : F) (n k : nat),
    k < n -> (a k <@? x) = false -> lower_bound a n x < n.
Proof.
  intros a x n k Hk Hak. unfold lower_bound.
  destruct (lower_bound_from_spec a x n 0) as (Hb & Hall & _).
  destruct (Nat.lt_ge_cases (lower_bound_from a 0 n x) n) as [Hlt | Hge];
    [exact Hlt |].
  rewrite (Hall k) in Hak by lia. discriminate Hak.
Qed.

Lemma playout_loop_found :
  forall (fuel : nat) (st st' : St),
    playout_loop fuel st = Some (true, st') ->
    m_moves st' (get_to_play (m_bd st')) <> [].
Proof.
  induction fuel as [| fuel IH]; intros st st' H; simpl in H.
  - discriminate.
  - destruct (playout_loop_body st) as [st1 | st1 | st1] eqn:Hbody.
    + injection H as H. subst st1.
      pose proof (playout_loop_body_no_pass st st' (or_introl Hbody))
        as (_ & Hbd & _).
      rewrite Hbd. unfold playout_loop_body in Hbody.
      destruct (m_moves (playout_loop_generate st) (get_to_play (m_bd st)))
        as [| mv moves] eqn:Hm; simpl in Hbody.
      * destruct (_ =? _)%Z; [discriminate |].
        destruct (_ && _); discriminate.
      * injection Hbody as Hbody. subst st'. simpl. rewrite Hm. discriminate.
    + discriminate.
    + apply (IH st1 st' H).
Qed.

(** X14: a move that [gen_playout_move] draws from the move list (no last
    good reply being playable) is the move at the first position whose
    cumulative gamma is not less than the random threshold, the total gamma
    times the number drawn; it is a move of the list of the colour to play
    whenever the threshold is not above the last cumulative gamma, which is
    what the assertion on [pos] in the source demands. *)
Theorem sampled_move_is_listed :
  forall (fuel : nat) (lgr1 lgr2 mv mv' : Move) (st st' : St),
    gen_playout_move fuel lgr1 lgr2 mv st = Some (true, mv', st') ->
    is_regular lgr2 && is_legal_nonpass (m_bd st) lgr2 = false ->
    is_regular lgr1 && is_legal_nonpass (m_bd st) lgr1 = false ->
    let moves := m_moves st' (get_to_play (m_bd st')) in
    let random := m_total_gamma st' *@ fst (generate_double (m_random st)) in
    (m_cumulative_gamma st' (length moves - 1) <@? random) = false ->
    exists pos,
      pos < length moves /\
      mv' = nth pos moves MvNull /\
      In mv' moves /\
      (m_cumulative_gamma st' pos <@? random) = false /\
      (forall j, j < pos -> (m_cumulative_gamma st' j <@? random) = true).
Proof.
  intros fuel lgr1 lgr2 mv mv' st st' H Hl2 Hl1 moves random Hlast.
  unfold gen_playout_move in H.
  destruct (_ =? _)%Z; [discriminate |].
  destruct (negb (m_is_symmetry_broken st) && _); [discriminate |].
  change (m_bd (set_m_nu_playout_moves _ st)) with (m_bd st) in H.
  rewrite Hl2, Hl1 in H.
  destruct (playout_loop fuel _) as [[found st1] |] eqn:Hloop; [| discriminate].
  destruct found; [| discriminate].
  pose proof (playout_loop_found _ _ _ Hloop) as Hne.
  apply playout_loop_counters in Hloop. destruct Hloop as (_ & _ & Hrand & _).
  simpl in Hrand.
  subst random. rewrite <- Hrand in *.
  destruct (generate_double (m_random st1)) as [r rng].
  injection H as Hmv Hst. subst st'. subst moves. simpl in *.
  set (moves := m_moves st1 (get_to_play (m_bd st1))) in *.
  set (x := m_total_gamma st1 *@ r) in *.
  assert (Hpos : lower_bound (m_cumulative_gamma st1) (length moves) x
                 < length moves).
  { apply (lower_bound_found _ _ _ (length moves - 1)); [| exact Hlast].
    destruct moves; [contradiction Hne; reflexivity | simpl; lia]. }
  destruct (lower_bound_from_spec (m_cumulative_gamma st1) x (length moves) 0)
    as (_ & Hall & Hstop).
  fold (lower_bound (m_cumulative_gamma st1) (length moves) x) in Hall, Hstop.
  exists (lower_bound (m_cumulative_gamma st1) (length moves) x).
  split; [exact Hpos |]. split; [symmetry; exact Hmv |].
  split; [rewrite <- Hmv; apply nth_In; exact Hpos |].
  split; [apply Hstop; exact Hpos |].
  intros j Hj. apply Hall. lia.
Qed.

(** A call that finds moves in the first round of the loop. *)

Lemma gen_playout_move_first_round :
  forall (fuel : nat) (lgr1 lgr2 mv : Move) (st : St),
    (m_nu_passes st =? Z.of_nat (m_nu_colors st))%Z = false ->
    negb (m_is_symmetry_broken st)
    && (m_symmetry_min_nu_pieces st <=? get_nu_onboard_pieces (m_bd st)) = false ->
    is_regular lgr2 && is_legal_nonpass (m_bd st) lgr2 = false ->
    is_regular lgr1 && is_legal_nonpass (m_bd st) lgr1 = false ->
    let stg :=
      playout_loop_generate
        (set_m_nu_playout_moves (wrap_size_t (m_nu_playout_moves st + 1)) st) in
    m_moves stg (get_to_play (m_bd st)) <> [] ->
    exists mv' st',
      gen_playout_move (S fuel) lgr1 lgr2 mv st = Some (true, mv', st') /\
      m_moves st' = m_moves stg /\
      m_cumulative_gamma st' = m_cumulative_gamma stg /\
      m_total_gamma st' = m_total_gamma stg /\
      m_bd st' = m_bd st.
Proof.
  intros fuel lgr1 lgr2 mv st Hp Hs Hl2 Hl1 stg Hne.
  unfold gen_playout_move. rewrite Hp, Hs.
  change (m_bd (set_m_nu_playout_moves _ st)) with (m_bd st).
  rewrite Hl2, Hl1.
  set (st0 := set_m_nu_playout_moves _ st) in *.
  change (playout_loop (S fuel) st0)
    with (match playout_loop_body st0 with
          | LoopBreak st' => Some (true, st')
          | LoopReturnFalse st' => Some (false, st')
          | LoopPass st' => playout_loop fuel st'
          end).
  unfold playout_loop_body. cbv zeta.
  change (get_to_play (m_bd st0)) with (get_to_play (m_bd st)).
  fold stg.
  pose proof (gf_bd (playout_loop_generate_frame st0)) as Hbd.
  fold stg in Hbd. change (m_bd st0) with (m_bd st) in Hbd.
  clearbody stg.
  destruct (m_moves stg (get_to_play (m_bd st))) as [| mv0 moves] eqn:Hm;
    [contradiction Hne; reflexivity |].
  simpl negb. cbv iota.
  match goal with
  | |- context [generate_double ?r] => destruct (generate_double r) as [r' rng]
  end.
  eexists. eexists. split; [reflexivity |].
  repeat split. exact Hbd.
Qed.

(** X15: [gen_and_play_playout_move] returns: with as many rounds of the
    playout loop as the game has colours the call ends, whatever the
    position. *)
Theorem gen_and_play_playout_move_returns :
  forall (fuel : nat) (lgr1 lgr2 : Move) (st : St),
    (0 <= m_nu_passes st <= Z.of_nat (m_nu_colors st))%Z ->
    (Z.of_nat (m_nu_colors st) < 2 ^ 32)%Z ->
    m_nu_colors st <= fuel ->
    exists found st',
      gen_and_play_playout_move fuel lgr1 lgr2 st = Some (found, st').
Proof.
  intros fuel lgr1 lgr2 st Hp Hc Hfuel. unfold gen_and_play_playout_move.
  destruct (gen_playout_move_returns fuel lgr1 lgr2 MvNull st Hp Hc Hfuel)
    as [[[found mv] st'] ->].
  destruct found; eexists; eexists; reflexivity.
Qed.

(** ** The move generation of the root: [init_moves_without_gamma] *)

Set Implicit Arguments.

Record same_lists (s1 s2 : St) : Prop := {
  sl_shared_const : m_shared_const s1 = m_shared_const s2;
  sl_bd : m_bd s1 = m_bd s2;
  sl_bc : m_bc s1 = m_bc s2;
  sl_nu_colors : m_nu_colors s1 = m_nu_colors s2;
  sl_move_info_array : m_move_info_array s1 = m_move_info_array s2;
  sl_moves : m_moves s1 = m_moves s2;
  sl_marker : m_marker s1 = m_marker s2;
  sl_added : m_moves_added_at s1 = m_moves_added_at s2;
  sl_new_moves : m_new_moves s1 = m_new_moves s2;
  sl_initialized :
    m_is_move_list_initialized s1 = m_is_move_list_initialized s2;
  sl_piece_considered : m_is_piece_considered s1 = m_is_piece_considered s2;
  sl_force : m_force_consider_all_pieces s1 = m_force_consider_all_pieces s2;
  sl_has_moves : m_has_moves s1 = m_has_moves s2
}.

Unset Implicit Arguments.

Ltac same_fields H :=
  constructor; simpl;
  rewrite ?(sl_shared_const H), ?(sl_bd H), ?(sl_bc H), ?(sl_nu_colors H),
    ?(sl_move_info_array H), ?(sl_moves H), ?(sl_marker H), ?(sl_added H),
    ?(sl_new_moves H), ?(sl_initialized H), ?(sl_piece_considered H),
    ?(sl_force H), ?(sl_has_moves H);
  reflexivity.

Lemma related_fold :
  forall {B : Type} (R : St -> St -> Prop) (f g : St -> B -> St)
         (l : list B) (s1 s2 : St),
    R s1 s2 ->
    (forall a b x, R a b -> R (f a x) (g b x)) ->
    R (fold_left f l s1) (fold_left g l s2).
Proof.
  intros B R f g l. induction l as [| x l IH]; intros s1 s2 H Hstep.
  - exact H.
  - simpl. apply IH; [apply Hstep; exact H | exact Hstep].
Qed.

Lemma same_lists_fold :
  forall {B : Type} (f g : St -> B -> St) (l : list B) (s1 s2 : St),
    same_lists s1 s2 ->
    (forall a b x, same_lists a b -> same_lists (f a x) (g b x)) ->
    same_lists (fold_left f l s1) (fold_left g l s2).
Proof. intros B f g l s1 s2. apply (related_fold same_lists). Qed.

Lemma same_lists_marker_set :
  forall c mv (s1 s2 : St),
    same_lists s1 s2 -> same_lists (marker_set c mv s1) (marker_set c mv s2).
Proof. intros c mv s1 s2 H. unfold marker_set. same_fields H. Qed.

Lemma same_lists_marker_clear_all :
  forall c l (s1 s2 : St),
    same_lists s1 s2 ->
    same_lists (marker_clear_all_set_known c l s1)
      (marker_clear_all_set_known c l s2).
Proof.
  intros c l s1 s2 H. unfold marker_clear_all_set_known.
  apply same_lists_fold; [exact H |].
  intros a b mv Hab. unfold marker_clear. same_fields Hab.
Qed.

Lemma same_lists_push :
  forall c mv gamma (s1 s2 : St),
    same_lists s1 s2 ->
    same_lists (add_move c mv gamma s1)
      (set_m_moves (cm_set (m_moves s2) c (m_moves s2 c ++ [mv])) s2).
Proof. intros c mv gamma s1 s2 H. unfold add_move. same_fields H. Qed.

Lemma same_lists_check :
  forall is_forb mv (s1 s2 : St),
    same_lists s1 s2 ->
    check_move_without_gamma is_forb mv s1
    = check_move_without_gamma is_forb mv s2.
Proof.
  intros is_forb mv s1 s2 H. unfold check_move_without_gamma, get_move_info.
  rewrite (sl_move_info_array H). reflexivity.
Qed.

Lemma same_lists_step :
  forall c is_forb mv (s1 s2 : St),
    same_lists s1 s2 ->
    same_lists (add_moves_step c is_forb s1 mv)
      (init_moves_without_gamma_step c is_forb s2 mv).
Proof.
  intros c is_forb mv s1 s2 H.
  unfold add_moves_step, init_moves_without_gamma_step.
  rewrite (sl_marker H).
  destruct (negb (m_marker s2 c mv)); simpl andb; cbv iota; [| exact H].
  rewrite <- (same_lists_check is_forb mv s1 s2 H).
  rewrite <- (check_move_some_iff is_forb mv s1 s1 eq_refl).
  destruct (check_move is_forb (get_move_info s1 mv) s1) as [gamma |];
    [| exact H].
  cbv zeta. apply same_lists_push. apply same_lists_marker_set. exact H.
Qed.

Lemma same_lists_get_moves :
  forall c piece p adj_status (s1 s2 : St),
    same_lists s1 s2 ->
    get_moves s1 c piece p adj_status = get_moves s2 c piece p adj_status.
Proof.
  intros c piece p adj_status s1 s2 H. unfold get_moves.
  rewrite (sl_bc H). reflexivity.
Qed.

Lemma same_lists_add_moves :
  forall p c pieces_considered (s1 s2 : St),
    same_lists s1 s2 ->
    same_lists (add_moves p c pieces_considered s1)
      (let adj_status := get_adj_status (m_bd s2) p c in
       let st :=
         fold_left
           (fun st piece =>
              fold_left
                (init_moves_without_gamma_step c (is_forbidden (m_bd s2) c))
                (get_moves st c piece p adj_status) st)
           pieces_considered s2 in
       set_m_moves_added_at
         (cm_set (m_moves_added_at st) c
            (grid_set (m_moves_added_at st c) p true)) st).
Proof.
  intros p c pieces_considered s1 s2 H. unfold add_moves. cbv zeta.
  rewrite (sl_bd H).
  match goal with
  | |- same_lists (set_m_moves_added_at _ ?a) (set_m_moves_added_at _ ?b) =>
      assert (Hab : same_lists a b)
  end.
  { apply same_lists_fold; [exact H |].
    intros a b piece Hab.
    rewrite (same_lists_get_moves c piece p _ a b Hab).
    apply same_lists_fold; [exact Hab |].
    intros a' b' mv Hab'. apply same_lists_step. exact Hab'. }
  match goal with
  | |- same_lists (set_m_moves_added_at _ ?a) (set_m_moves_added_at _ ?b) =>
      generalize dependent b; generalize a
  end.
  intros a b Hab. same_fields Hab.
Qed.

Lemma same_lists_find_best_starting_point :
  forall c (s1 s2 : St),
    same_lists s1 s2 ->
    find_best_starting_point c s1 = find_best_starting_point c s2.
Proof.
  intros c s1 s2 H. unfold find_best_starting_point, starting_distance.
  rewrite (sl_bd H), (sl_nu_colors H). reflexivity.
Qed.

Lemma same_lists_add_starting_moves :
  forall c pieces_considered (s1 s2 : St),
    same_lists s1 s2 ->
    same_lists (add_starting_moves c pieces_considered true s1)
      (add_starting_moves c pieces_considered false s2).
Proof.
  intros c pieces_considered s1 s2 H. unfold add_starting_moves.
  rewrite (same_lists_find_best_starting_point c s1 s2 H), (sl_bd H).
  destruct (find_best_starting_point c s2) as [p |]; [| exact H].
  apply same_lists_fold; [exact H |].
  intros a b piece Hab.
  rewrite (same_lists_get_moves c piece p 0 a b Hab).
  apply same_lists_fold; [exact Hab |].
  intros a' b' mv Hab'. unfold add_starting_moves_step.
  rewrite (same_lists_check _ mv a' b' Hab').
  destruct (check_move_without_gamma _ mv b'); [| exact Hab'].
  cbv zeta.
  apply (same_lists_push c mv _ (marker_set c mv a') (marker_set c mv b')).
  apply same_lists_marker_set. exact Hab'.
Qed.

Lemma same_lists_once :
  forall c (s1 s2 : St),
    same_lists s1 s2 ->
    same_lists (init_moves_with_gamma_once c s1)
      (init_moves_without_gamma_once c s2).
Proof.
  intros c s1 s2 H.
  unfold init_moves_with_gamma_once, init_moves_without_gamma_once.
  set (a0 := set_m_total_gamma _ (set_m_local_value _ (set_m_is_piece_considered _ s1))).
  set (b0 := set_m_is_piece_considered _ s2).
  assert (H0 : same_lists a0 b0).
  { subst a0 b0. unfold get_pieces_considered. same_fields H. }
  set (a1 := set_m_moves _ (marker_clear_all_set_known c (m_moves a0 c) a0)).
  set (b1 := set_m_moves _ (marker_clear_all_set_known c (m_moves b0 c) b0)).
  assert (H1 : same_lists a1 b1).
  { subst a1 b1. rewrite (sl_moves H0).
    pose proof (same_lists_marker_clear_all c (m_moves b0 c) a0 b0 H0) as Hc.
    revert Hc.
    generalize (marker_clear_all_set_known c (m_moves b0 c) a0).
    generalize (marker_clear_all_set_known c (m_moves b0 c) b0).
    intros b a Hab. same_fields Hab. }
  clearbody a1 b1. clear H0 a0 b0.
  match goal with
  | |- same_lists
         (set_m_new_moves _ (set_m_is_move_list_initialized _ ?a))
         (set_m_new_moves _ (set_m_is_move_list_initialized _ ?b)) =>
      assert (H2 : same_lists a b)
  end.
  { unfold pieces_considered_of.
    rewrite (sl_piece_considered H1), (sl_shared_const H1), (sl_bd H1).
    destruct (is_first_piece (m_bd b1) c).
    - apply same_lists_add_starting_moves. exact H1.
    - apply (related_fold
               (fun a b => same_lists a b /\ m_bd b = m_bd b1));
        [split; [exact H1 | reflexivity] |].
      intros a b p [Hab Hbd]. rewrite (sl_bd Hab), Hbd.
      destruct (negb (is_forbidden (m_bd b1) c p));
        [| split; [exact Hab | exact Hbd]].
      pose proof (same_lists_add_moves p c
                    (filter (piece_map (m_shared_const b1)
                               (m_is_piece_considered b1 c))
                       (get_pieces_left (m_bd b1) c)) a b Hab) as Hadd.
      cbv zeta in Hadd. rewrite Hbd in Hadd.
      split; [exact Hadd |].
      rewrite <- (sl_bd Hadd), (gf_bd (add_moves_frame _ _ _ _)), (sl_bd Hab).
      exact Hbd. }
  revert H2.
  match goal with
  | |- same_lists ?a ?b -> _ => generalize a; generalize b
  end.
  intros b a Hab. same_fields Hab.
Qed.

Lemma init_moves_without_gamma_fuel_unfold :
  forall (fuel : nat) (c : Color) (st : St),
    init_moves_without_gamma_fuel fuel c st
    = let st1 := init_moves_without_gamma_once c st in
      if is_empty (m_moves st1 c) && negb (m_force_consider_all_pieces st1) then
        match fuel with
        | O => st1
        | S fuel' =>
            init_moves_without_gamma_fuel fuel' c
              (set_m_force_consider_all_pieces true st1)
        end
      else st1.
Proof. intros [| fuel] c st; reflexivity. Qed.

Lemma same_lists_force :
  forall (a b : St),
    same_lists a b ->
    same_lists (set_m_force_consider_all_pieces true a)
      (set_m_force_consider_all_pieces true b).
Proof. intros a b H. same_fields H. Qed.

Lemma same_lists_fuel :
  forall fuel c (s1 s2 : St),
    same_lists s1 s2 ->
    same_lists (init_moves_with_gamma_fuel fuel c s1)
      (init_moves_without_gamma_fuel fuel c s2).
Proof.
  induction fuel as [| fuel IH]; intros c s1 s2 H.
  - rewrite (init_moves_with_gamma_fuel_unfold 0 c s1),
      (init_moves_without_gamma_fuel_unfold 0 c s2).
    cbv zeta.
    pose proof (same_lists_once c s1 s2 H) as Ho.
    remember (init_moves_with_gamma_once c s1) as a eqn:Ea. clear Ea.
    remember (init_moves_without_gamma_once c s2) as b eqn:Eb. clear Eb.
    destruct (is_empty (m_moves a c) && negb (m_force_consider_all_pieces a));
      destruct (is_empty (m_moves b c) && negb (m_force_consider_all_pieces b));
      exact Ho.
  - rewrite (init_moves_with_gamma_fuel_unfold (S fuel) c s1),
      (init_moves_without_gamma_fuel_unfold (S fuel) c s2).
    cbv zeta.
    pose proof (same_lists_once c s1 s2 H) as Ho.
    remember (init_moves_with_gamma_once c s1) as a eqn:Ea. clear Ea.
    remember (init_moves_without_gamma_once c s2) as b eqn:Eb. clear Eb.
    rewrite (sl_moves Ho), (sl_force Ho).
    destruct (is_empty (m_moves b c) && negb (m_force_consider_all_pieces b));
      [| exact Ho].
    apply IH. apply same_lists_force. exact Ho.
Qed.

Lemma init_moves_without_gamma_unfold :
  forall (c : Color) (st : St),
    init_moves_without_gamma c st
    = if is_empty (m_moves (init_moves_without_gamma_once c st) c)
         && negb (m_force_consider_all_pieces
                    (init_moves_without_gamma_once c st))
      then
        init_moves_without_gamma_once c
          (set_m_force_consider_all_pieces true
             (init_moves_without_gamma_once c st))
      else init_moves_without_gamma_once c st.
Proof.
  intros c st. unfold init_moves_without_gamma.
  rewrite (init_moves_without_gamma_fuel_unfold 1). cbv zeta.
  remember (init_moves_without_gamma_once c st) as st1 eqn:E. clear E.
  destruct (_ && _); [| reflexivity].
  rewrite (init_moves_without_gamma_fuel_unfold 0). cbv zeta.
  remember (init_moves_without_gamma_once c
              (set_m_force_consider_all_pieces true st1)) as st2 eqn:E.
  clear E. destruct (_ && _); reflexivity.
Qed.

(** What [init_moves_without_gamma] does not touch. *)

Lemma fold_left_keeps :
  forall {A B C : Type} (proj : A -> C) (f : A -> B -> A) (l : list B) (a : A),
    (forall a' x, proj (f a' x) = proj a') ->
    proj (fold_left f l a) = proj a.
Proof.
  intros A B C proj f l a H.
  apply (fold_left_invariant (fun a' => proj a' = proj a)); [reflexivity |].
  intros a' x _ Ha'. rewrite H. exact Ha'.
Qed.

Lemma init_moves_without_gamma_once_gamma :
  forall c (st : St),
    gamma_part (init_moves_without_gamma_once c st) = gamma_part st.
Proof.
  intros c st. unfold init_moves_without_gamma_once.
  set (b0 := set_m_is_piece_considered _ st).
  set (b1 := set_m_moves _ (marker_clear_all_set_known c (m_moves b0 c) b0)).
  assert (H1 : gamma_part b1 = gamma_part st).
  { subst b1.
    change (gamma_part (marker_clear_all_set_known c (m_moves b0 c) b0)
            = gamma_part st).
    unfold marker_clear_all_set_known.
    rewrite (fold_left_keeps gamma_part); [reflexivity |].
    intros a' x. reflexivity. }
  clearbody b1. clear b0.
  match goal with
  | |- gamma_part (set_m_new_moves _ (set_m_is_move_list_initialized _ ?b)) = _ =>
      change (gamma_part b = gamma_part st)
  end.
  rewrite <- H1.
  destruct (is_first_piece (m_bd b1) c).
  - unfold add_starting_moves.
    destruct (find_best_starting_point c b1); [| reflexivity].
    apply (fold_left_keeps gamma_part). intros a' piece.
    apply (fold_left_keeps gamma_part). intros a'' mv.
    unfold add_starting_moves_step.
    destruct (check_move_without_gamma _ _ _); reflexivity.
  - apply (fold_left_keeps gamma_part). intros a' p.
    destruct (negb _); [| reflexivity].
    cbv zeta.
    match goal with
    | |- gamma_part (set_m_moves_added_at _ ?b) = _ =>
        change (gamma_part b = gamma_part a')
    end.
    apply (fold_left_keeps gamma_part). intros a'' piece.
    apply (fold_left_keeps gamma_part). intros a3 mv.
    unfold init_moves_without_gamma_step.
    destruct (_ && _); reflexivity.
Qed.

Lemma gamma_part_force :
  forall b : St,
    gamma_part (set_m_force_consider_all_pieces true b) = gamma_part b.
Proof. intros b. reflexivity. Qed.

Lemma init_moves_without_gamma_gamma :
  forall c (st : St),
    gamma_part (init_moves_without_gamma c st) = gamma_part st.
Proof.
  intros c st. rewrite init_moves_without_gamma_unfold.
  pose proof (init_moves_without_gamma_once_gamma c st) as H1.
  pose proof (init_moves_without_gamma_once_gamma c
                (set_m_force_consider_all_pieces true
                   (init_moves_without_gamma_once c st))) as H2.
  rewrite gamma_part_force in H2.
  destruct (_ && _); [| exact H1].
  rewrite H2. exact H1.
Qed.

Lemma same_lists_refl : forall st : St, same_lists st st.
Proof. intros st. constructor; reflexivity. Qed.

Lemma same_lists_init :
  forall c (st : St),
    same_lists (init_moves_with_gamma c st) (init_moves_without_gamma c st).
Proof.
  intros c st. exact (same_lists_fuel 1 c st st (same_lists_refl st)).
Qed.

(** X16: [init_moves_without_gamma], the generation for the root of the
    search, and [init_moves_with_gamma], the generation of the playouts,
    produce the same move list: lists, markers, handled attach points, piece
    tables and flags of all colours agree after the two calls.  The first
    leaves the gamma sums and the local values as they were. *)
Theorem init_moves_without_gamma_generates_same_moves :
  forall (c : Color) (st : St),
    let with_gamma := init_moves_with_gamma c st in
    let without_gamma := init_moves_without_gamma c st in
    m_moves without_gamma = m_moves with_gamma /\
    m_marker without_gamma = m_marker with_gamma /\
    m_moves_added_at without_gamma = m_moves_added_at with_gamma /\
    m_new_moves without_gamma = m_new_moves with_gamma /\
    m_is_move_list_initialized without_gamma
    = m_is_move_list_initialized with_gamma /\
    m_is_piece_considered without_gamma = m_is_piece_considered with_gamma /\
    m_force_consider_all_pieces without_gamma
    = m_force_consider_all_pieces with_gamma /\
    m_total_gamma without_gamma = m_total_gamma st /\
    m_cumulative_gamma without_gamma = m_cumulative_gamma st /\
    m_local_value without_gamma = m_local_value st.
Proof.
  intros c st with_gamma without_gamma.
  pose proof (same_lists_init c st) as H.
  pose proof (init_moves_without_gamma_gamma c st) as Hg.
  subst with_gamma without_gamma.
  remember (init_moves_with_gamma c st) as a eqn:Ea. clear Ea.
  remember (init_moves_without_gamma c st) as b eqn:Eb. clear Eb.
  rewrite (sl_moves H), (sl_marker H), (sl_added H), (sl_new_moves H),
    (sl_initialized H), (sl_piece_considered H), (sl_force H).
  do 7 (split; [reflexivity |]).
  unfold gamma_part in Hg.
  injection Hg as H1 H2 H3. repeat split; assumption.
Qed.

(** ** The first round of the playout loop and the cumulative gammas *)

Lemma init_moves_with_gamma_one_fuel :
  forall (c : Color) (st : St),
    init_moves_with_gamma_fuel 1 c st = init_moves_with_gamma c st.
Proof. intros c st. unfold init_moves_with_gamma. reflexivity. Qed.

Lemma playout_loop_generate_uninitialized :
  forall (c : Color) (st : St),
    get_to_play (m_bd st) = c ->
    m_is_move_list_initialized st c = false ->
    playout_loop_generate st = init_moves_with_gamma c st.
Proof.
  intros c st Hc Hinit. unfold playout_loop_generate.
  rewrite Hc, Hinit. reflexivity.
Qed.

Section FirstRound.

Context {float_order : FloatOrder F}.

Lemma generated_list_last_gamma :
  forall (c : Color) (st0 st' : St),
    gamma_inv c (init_moves_with_gamma c st0) ->
    m_moves (init_moves_with_gamma c st0) c <> [] ->
    m_moves st' = m_moves (init_moves_with_gamma c st0) ->
    m_cumulative_gamma st' = m_cumulative_gamma (init_moves_with_gamma c st0) ->
    m_total_gamma st' = m_total_gamma (init_moves_with_gamma c st0) ->
    m_cumulative_gamma st' (length (m_moves st' c) - 1) = m_total_gamma st' /\
    fle (f_of_Q 0) (m_total_gamma st').
Proof.
  intros c st0 st'. generalize (init_moves_with_gamma c st0). intros stg.
  intros (_ & Hlast & Htotal) Hne Hm Hcum Ht.
  rewrite Hm, Hcum, Ht. split; [| exact Htotal].
  apply Hlast. destruct (m_moves stg c); [contradiction Hne; reflexivity |].
  simpl. lia.
Qed.

Lemma gen_playout_move_first_round_gamma :
  forall (fuel : nat) (lgr1 lgr2 mv : Move) (c : Color) (st : St),
    (m_nu_passes st =? Z.of_nat (m_nu_colors st))%Z = false ->
    negb (m_is_symmetry_broken st)
    && (m_symmetry_min_nu_pieces st <=? get_nu_onboard_pieces (m_bd st)) = false ->
    is_regular lgr2 && is_legal_nonpass (m_bd st) lgr2 = false ->
    is_regular lgr1 && is_legal_nonpass (m_bd st) lgr1 = false ->
    get_to_play (m_bd st) = c ->
    m_is_move_list_initialized st c = false ->
    gamma_tables_at_least_one st ->
    m_moves
      (init_moves_with_gamma c
         (set_m_nu_playout_moves (wrap_size_t (m_nu_playout_moves st + 1)) st)) c
    <> [] ->
    exists mv' st',
      gen_playout_move (S fuel) lgr1 lgr2 mv st = Some (true, mv', st') /\
      m_cumulative_gamma st'
        (length (m_moves st' (get_to_play (m_bd st'))) - 1)
      = m_total_gamma st' /\
      fle (f_of_Q 0) (m_total_gamma st').
Proof.
  intros fuel lgr1 lgr2 mv c st Hp Hs Hl2 Hl1 Hc Hinit Htab Hne.
  pose proof (playout_loop_generate_uninitialized c
                (set_m_nu_playout_moves (wrap_size_t (m_nu_playout_moves st + 1)) st)
                Hc Hinit) as Hgen.
  pose proof (init_moves_with_gamma_fuel_gamma_run 1 c
                (set_m_nu_playout_moves (wrap_size_t (m_nu_playout_moves st + 1)) st)
                Htab) as [_ Hinv].
  rewrite init_moves_with_gamma_one_fuel in Hinv.
  destruct (gen_playout_move_first_round fuel lgr1 lgr2 mv st Hp Hs Hl2 Hl1)
    as (mv' & st' & H & Hm & Hcum & Ht & Hb).
  { rewrite Hgen, Hc. exact Hne. }
  rewrite Hgen in Hm, Hcum, Ht.
  exists mv', st'. split; [exact H |].
  rewrite Hb, Hc.
  exact (generated_list_last_gamma c _ st' Hinv Hne Hm Hcum Ht).
Qed.

End FirstRound.


(** ** The score statistics during a search of a two-player game *)














(** The score statistic of colour 1 holds no sample at any time of a search
    of a two-player game: [start_search] clears it and no function adds to
    it. *)



End StateTheory.

(** * The text written by [Response::write] *)

Lemma write_char_fold :
  forall (text out : list ascii) (was_newline : bool),
    (let (out', was_newline') :=
       fold_left Response.write_char text (out, was_newline) in
     (if negb was_newline' then out' ++ [newline] else out') ++ [newline])
    = out ++ Response.written was_newline text.
Proof.
  induction text as [| c text IH]; intros out was_newline.
  - simpl. destruct was_newline; simpl; [reflexivity |].
    rewrite <- app_assoc. reflexivity.
  - change (fold_left Response.write_char (c :: text) (out, was_newline))
      with (fold_left Response.write_char text
              ((if Ascii.eqb c newline && was_newline
                then out ++ [space] else out) ++ [c],
               Ascii.eqb c newline)).
    rewrite IH. simpl Response.written.
    destruct (Ascii.eqb c newline && was_newline);
      rewrite <- !app_assoc; reflexivity.
Qed.

Lemma write_written :
  forall text out : list ascii,
    Response.write text out = out ++ Response.written false text.
Proof.
  intros text out. unfold Response.write. cbv zeta.
  apply (write_char_fold text out false).
Qed.

Lemma written_after_newline :
  forall (text rest : list ascii),
    Response.written true text = newline :: rest -> rest = [].
Proof.
  intros [| c text] rest H; simpl in H.
  - injection H as H. symmetry. exact H.
  - destruct (Ascii.eqb_spec c newline) as [-> | Hne]; simpl in H.
    + discriminate H.
    + injection H as H _. contradiction.
Qed.

Lemma written_ends :
  forall (text : list ascii) (was_newline : bool),
    exists body,
      (if was_newline then [newline] else []) ++ Response.written was_newline text
      = body ++ [newline; newline].
Proof.
  induction text as [| c text IH]; intros was_newline.
  - exists []. destruct was_newline; reflexivity.
  - simpl Response.written.
    destruct (IH (Ascii.eqb c newline)) as [body Hbody].
    destruct (Ascii.eqb_spec c newline) as [-> | Hne]; simpl in Hbody |- *.
    + destruct was_newline; simpl.
      * exists (newline :: space :: body). simpl. rewrite <- Hbody. reflexivity.
      * exists body. exact Hbody.
    + destruct was_newline; simpl.
      * exists (newline :: c :: body). simpl. rewrite <- Hbody. reflexivity.
      * exists (c :: body). simpl. rewrite <- Hbody. reflexivity.
Qed.

Lemma written_blank_line :
  forall (text : list ascii) (was_newline : bool) (pre post : list ascii),
    Response.written was_newline text = pre ++ [newline; newline] ++ post ->
    post = [].
Proof.
  induction text as [| c text IH]; intros was_newline pre post H.
  - destruct was_newline; simpl in H.
    + destruct pre as [| x [| y pre]]; simpl in H; discriminate H.
    + destruct pre as [| x [| y [| z pre]]]; simpl in H; try discriminate H.
      injection H as H. symmetry. exact H.
  - simpl Response.written in H.
    destruct (Ascii.eqb_spec c newline) as [-> | Hne].
    + assert (Hinner :
                forall pre',
                  newline :: Response.written true text
                  = pre' ++ [newline; newline] ++ post -> post = []).
      { intros [| x pre'] H'; simpl in H'.
        - injection H' as H'. apply written_after_newline in H'. exact H'.
        - injection H' as _ H'. apply (IH true pre' post H'). }
      destruct was_newline; simpl in H.
      * destruct pre as [| x pre]; simpl in H; [discriminate H |].
        injection H as _ H. apply (Hinner pre H).
      * apply (Hinner pre H).
    + replace (Ascii.eqb c newline && was_newline) with false in H
        by (destruct (Ascii.eqb_spec c newline); [contradiction | reflexivity]).
      replace (Ascii.eqb c newline) with false in H
        by (destruct (Ascii.eqb_spec c newline); [contradiction | reflexivity]).
      simpl in H.
      destruct pre as [| x pre]; simpl in H.
      * injection H as H _. contradiction.
      * injection H as _ H. apply (IH false pre post H).
Qed.

(** X18: what [Response::write] appends to the stream ends with an empty
    line, two newlines, and holds no other empty line: wherever a newline
    follows a newline in the text, a space is written between them, so two
    newlines in a row are the last two characters of the response. *)
Theorem response_ends_with_its_only_blank_line :
  forall text out : list ascii,
    exists response,
      Response.write text out = out ++ response /\
      (exists body, response = body ++ [newline; newline]) /\
      (forall pre post,
          response = pre ++ [newline; newline] ++ post -> post = []).
Proof.
  intros text out. exists (Response.written false text).
  split; [apply write_written |]. split.
  - apply (written_ends text false).
  - intros pre post H. apply (written_blank_line text false pre post H).
Qed.

Lemma last_default :
  forall (l : list ascii) (a d d' : ascii), last (a :: l) d = last (a :: l) d'.
Proof.
  induction l as [| b l IH]; intros a d d'; [reflexivity |].
  change (last (b :: l) d = last (b :: l) d'). apply IH.
Qed.

Lemma written_unchanged :
  forall (text : list ascii) (was_newline : bool),
    Response.no_blank_line text ->
    (was_newline = true -> hd space text <> newline) ->
    Response.written was_newline text
    = text
      ++ (if Ascii.eqb (last text (if was_newline then newline else space)) newline
          then [newline] else [newline; newline]).
Proof.
  induction text as [| c text IH]; intros was_newline Hno Hhd.
  - simpl. destruct was_newline; reflexivity.
  - simpl Response.written.
    assert (Hcond : Ascii.eqb c newline && was_newline = false).
    { destruct was_newline; [| apply andb_false_r].
      destruct (Ascii.eqb_spec c newline) as [-> | Hne]; [| reflexivity].
      exfalso. apply (Hhd eq_refl). reflexivity. }
    rewrite Hcond. simpl app. f_equal.
    destruct Hno as [Hfirst Hrest].
    rewrite (IH (Ascii.eqb c newline) Hrest).
    + f_equal. destruct text as [| b text].
      * simpl. destruct (Ascii.eqb_spec c newline) as [-> | Hne]; [reflexivity |].
        reflexivity.
      * rewrite (last_default text b _ (if was_newline then newline else space)).
        reflexivity.
    + intros Hc. destruct text as [| b text]; [discriminate |].
      simpl. intros Hb. apply Hfirst. split; [| exact Hb].
      apply Ascii.eqb_eq. exact Hc.
Qed.

(** X19: a text in which no newline follows a newline is written as it is:
    [Response::write] appends the text unchanged, and after it one newline
    when the text ends in a newline and two when it does not. *)
Theorem response_text_without_blank_line_is_written_unchanged :
  forall text out : list ascii,
    Response.no_blank_line text ->
    Response.write text out = out ++ text ++ Response.terminator text.
Proof.
  intros text out Hno. rewrite write_written. f_equal.
  apply (written_unchanged text false Hno). intros H. discriminate H.
Qed.

(** * The text escaped by [Writer::get_escaped] *)

Lemma get_escaped_fold :
  forall (s buffer : list ascii),
    fold_left (fun buffer c => buffer ++ Writer.escape_char c) s buffer
    = buffer ++ flat_map Writer.escape_char s.
Proof.
  induction s as [| c s IH]; intros buffer; simpl.
  - rewrite app_nil_r. reflexivity.
  - rewrite IH, <- app_assoc. reflexivity.
Qed.

Lemma get_escaped_flat_map :
  forall s : list ascii, Writer.get_escaped s = flat_map Writer.escape_char s.
Proof. intros s. unfold Writer.get_escaped. apply get_escaped_fold. Qed.

Lemma escape_char_cases :
  forall c : ascii,
    ((c = right_bracket \/ c = backslash) /\
     Writer.escape_char c = [backslash; c]) \/
    (Writer.is_replaced_space c = true /\ Writer.escape_char c = [space]) \/
    (c <> right_bracket /\ c <> backslash /\
     Writer.is_replaced_space c = false /\ Writer.escape_char c = [c]).
Proof.
  intros c. unfold Writer.escape_char, Writer.is_replaced_space.
  destruct (Ascii.eqb_spec c right_bracket) as [-> | Hb];
    [left; split; [left |]; reflexivity |].
  destruct (Ascii.eqb_spec c backslash) as [-> | Hs];
    [left; split; [right |]; reflexivity |].
  simpl orb.
  destruct (Ascii.eqb c tab || Ascii.eqb c form_feed || Ascii.eqb c vertical_tab);
    [right; left; split; reflexivity |].
  right; right. repeat split; assumption.
Qed.

Lemma not_replaced_space :
  forall c : ascii,
    Writer.is_replaced_space c = false ->
    c <> tab /\ c <> form_feed /\ c <> vertical_tab.
Proof.
  intros c H. unfold Writer.is_replaced_space in H.
  apply orb_false_iff in H. destruct H as [H Hv].
  apply orb_false_iff in H. destruct H as [Ht Hf].
  repeat split; intros ->; discriminate.
Qed.

(** X20: the text that [Writer::get_escaped] returns is well escaped: read
    from the left, every backslash in it is followed by the bracket or the
    backslash that it escapes and no closing bracket stands without a
    backslash; and it holds no tab, form feed or vertical tab. *)
Theorem get_escaped_is_well_escaped :
  forall s : list ascii,
    Writer.well_escaped (Writer.get_escaped s) /\
    (forall c, In c (Writer.get_escaped s) ->
               c <> tab /\ c <> form_feed /\ c <> vertical_tab).
Proof.
  intros s. rewrite get_escaped_flat_map. split.
  - induction s as [| c s IH]; [exact I |].
    simpl flat_map.
    destruct (escape_char_cases c)
      as [[Hc ->] | [[_ ->] | (Hb & Hs & _ & ->)]]; simpl.
    + split; assumption.
    + split; [discriminate | exact IH].
    + destruct (Ascii.eqb_spec c backslash); [contradiction |].
      split; assumption.
  - intros x Hx. apply in_flat_map in Hx. destruct Hx as (c & _ & Hx).
    destruct (escape_char_cases c)
      as [[Hc Hesc] | [[_ Hesc] | (_ & _ & Hw & Hesc)]];
      rewrite Hesc in Hx; simpl in Hx.
    + destruct Hx as [<- | [<- | []]];
        [repeat split; discriminate |].
      destruct Hc as [-> | ->]; repeat split; discriminate.
    + destruct Hx as [<- | []]. repeat split; discriminate.
    + destruct Hx as [<- | []]. apply not_replaced_space. exact Hw.
Qed.

(** X21: reading back what [Writer::get_escaped] wrote gives the text with
    every tab, form feed and vertical tab replaced by a space, and the text
    itself when it has none of them: the escaping loses nothing else. *)
Theorem unescape_get_escaped :
  forall s : list ascii,
    Writer.unescape (Writer.get_escaped s)
    = map (fun c => if Writer.is_replaced_space c then space else c) s /\
    (forallb (fun c => negb (Writer.is_replaced_space c)) s = true ->
     Writer.unescape (Writer.get_escaped s) = s).
Proof.
  intros s.
  assert (H : Writer.unescape (Writer.get_escaped s)
              = map (fun c => if Writer.is_replaced_space c then space else c) s).
  { rewrite get_escaped_flat_map.
    induction s as [| c s IH]; [reflexivity |].
    simpl flat_map. simpl map.
    destruct (escape_char_cases c)
      as [[Hc ->] | [[Hw ->] | (Hb & Hs & Hw & ->)]]; simpl.
    - rewrite IH. destruct Hc as [-> | ->]; reflexivity.
    - rewrite IH, Hw. reflexivity.
    - destruct (Ascii.eqb_spec c backslash); [contradiction |].
      rewrite IH, Hw. reflexivity. }
  split; [exact H |].
  intros Hall. rewrite H. clear H.
  induction s as [| c s IH]; [reflexivity |].
  simpl in Hall. apply andb_true_iff in Hall. destruct Hall as [Hc Hall].
  simpl. rewrite (IH Hall).
  destruct (Writer.is_replaced_space c); [discriminate Hc | reflexivity].
Qed.


(** * The theorems on explicit positions *)

Lemma fixed_budgets_exclusive_witness :
  at_most_one_fixed_budget
    (run_calls [CallSetFixedTime 2%R; CallSetFixedSimulations 1000%R]
       {| m_is_book_loaded := false; m_use_book := true; m_level := 4%Z;
          m_fixed_simulations := 7%R; m_fixed_time := 3%R |}).
Proof.
  apply (fixed_budgets_exclusive
           [CallSetFixedTime 2%R; CallSetFixedSimulations 1000%R]).
  left. discriminate.
Defined.

Lemma symmetric_position_is_a_draw_witness :
  let st := strip_state strip_three false no_local_values in
  gen_playout_move 2 MvNull MvNull MvNull st = Some (false, MvNull, st) /\
  (forall i, i < 4 -> fst (evaluate_playout st) i = Some (f_of_Q 0.5)) /\
  snd (evaluate_playout st) = st.
Proof.
  apply symmetric_position_is_a_draw.
  - reflexivity.
  - simpl. lia.
Defined.

Lemma last_good_reply_is_played_witness :
  let st := strip_state strip_mirrored true no_local_values in
  gen_playout_move 2 (MvReg 0) (MvReg 2) MvNull st
  = Some (true, MvReg 2, count_last_good_reply st).
Proof.
  intros st.
  apply (last_good_reply_is_played 2 (MvReg 0) (MvReg 2) MvNull st).
  - simpl. lia.
  - left. reflexivity.
  - reflexivity.
  - reflexivity.
Defined.

Lemma symmetry_flag_after_playout_move_witness :
  let st := strip_state strip_empty false no_local_values in
  m_is_symmetry_broken (play_playout (MvReg 1) st) = false <->
  forall p, In p (mi_points (get_move_info st (MvReg 1))) ->
            mirror_point_keeps_symmetry (m_bd (play_playout (MvReg 1) st))
              strip_mirror p.
Proof.
  intros st.
  apply (symmetry_flag_after_playout_move (MvReg 1) st).
  reflexivity.
Defined.

(** C3, the claim as it is worded, fails in both of its cases.  Colour 0
    plays point 1 of the empty strip: the flag stays false although the
    mirror point 4 is not owned by the opponent, colour 1 (it is empty).
    Then colour 1 answers on point 4: the flag stays false although the
    mirror point 1 is not empty (colour 0 owns it). *)
Lemma symmetry_claim_counterexample :
  let st := strip_state strip_empty false no_local_values in
  let st1 := play_playout (MvReg 1) st in
  let st2 := play_playout (MvReg 4) st1 in
  (get_to_play (m_bd st) = 0 /\
   m_is_symmetry_broken st = false /\
   m_is_symmetry_broken st1 = false /\
   ~ (forall p, In p (mi_points (get_move_info st (MvReg 1))) ->
                get_point_state (m_bd st1) (strip_mirror p) = PsColor 1)) /\
  (get_to_play (m_bd st1) = 1 /\
   m_is_symmetry_broken st2 = false /\
   ~ (forall p, In p (mi_points (get_move_info st1 (MvReg 4))) ->
                get_point_state (m_bd st2) (strip_mirror p) = PsEmpty)).
Proof.
  intros st st1 st2. split.
  - repeat split; try reflexivity.
    intros H. specialize (H 1 (or_introl eq_refl)). discriminate H.
  - repeat split; try reflexivity.
    intros H. specialize (H 4 (or_introl eq_refl)). discriminate H.
Qed.

(** C4, the claim as it is worded, fails: a state whose flag is set still
    has it set after [start_simulation]. *)
Lemma start_simulation_flag_counterexample :
  let st := strip_state strip_empty true no_local_values in
  m_is_symmetry_broken st = true /\
  m_is_symmetry_broken (start_simulation 1 st) = true /\
  m_is_symmetry_broken (start_simulation 1 st) <> false.
Proof.
  intros st. repeat split; try reflexivity. discriminate.
Qed.

Lemma pass_only_on_empty_move_list_witness :
  let st := strip_state strip_full true no_local_values in
  exists st',
    playout_loop_body st = LoopPass st' /\
    m_moves (playout_loop_generate st) (get_to_play (m_bd st)) = [] /\
    m_nu_passes st' = wrap_unsigned (m_nu_passes st + 1) /\
    m_bd st' = set_to_play (m_bd st) (get_next (m_bd st) (get_to_play (m_bd st))) /\
    m_is_symmetry_broken st' = true.
Proof.
  intros st.
  destruct (playout_loop_body st) as [st' | st' | st'] eqn:Hbody;
    [discriminate Hbody | discriminate Hbody |].
  exists st'. split; [reflexivity |].
  exact (proj1 pass_only_on_empty_move_list st st' Hbody).
Defined.

(** ** Real arithmetic of the examples *)

Lemma R_ltb_true : forall x y : R, (x < y)%R -> R_ltb x y = true.
Proof. intros x y H. unfold R_ltb. destruct (Rlt_dec x y); [reflexivity | contradiction]. Qed.

Lemma R_ltb_false : forall x y : R, (y <= x)%R -> R_ltb x y = false.
Proof. intros x y H. unfold R_ltb. destruct (Rlt_dec x y); [lra | reflexivity]. Qed.

Lemma Q2R_inject_Z : forall z : Z, Q2R (inject_Z z) = IZR z.
Proof. intros z. unfold Q2R, inject_Z. simpl. lra. Qed.




(** ** The order of the real numbers *)

Lemma R_fle_nonneg_refl : forall x : R, (Q2R 0 <= x)%R -> (x <= x)%R.
Proof. intros x _. apply Rle_refl. Qed.

Lemma R_fadd_nondecreasing :
  forall x g : R, (Q2R 0 <= x)%R -> (Q2R 0 <= g)%R -> (x <= x + g)%R.
Proof. intros x g _ Hg. unfold Q2R in Hg. simpl in Hg. lra. Qed.

Lemma Q2R_one : Q2R 1 = 1%R.
Proof. unfold Q2R. simpl. lra. Qed.

Lemma Q2R_zero : Q2R 0 = 0%R.
Proof. unfold Q2R. simpl. lra. Qed.

Lemma R_fmul_at_least_one :
  forall x y : R, (Q2R 1 <= x)%R -> (Q2R 1 <= y)%R -> (Q2R 1 <= x * y)%R.
Proof. intros x y. rewrite Q2R_one. intros Hx Hy. nra. Qed.

Lemma Rpower_at_least_one :
  forall a b : R, (1 <= a)%R -> (0 <= b)%R -> (1 <= Rpower a b)%R.
Proof.
  intros x y Hx Hy. unfold Rpower.
  assert (Hln : (0 <= ln x)%R).
  { rewrite <- ln_1. destruct Hx as [Hx | <-]; [| apply Rle_refl].
    left. apply ln_increasing; [lra | exact Hx]. }
  assert (Hprod : (0 <= y * ln x)%R) by (apply Rmult_le_pos; assumption).
  rewrite <- exp_0. destruct Hprod as [Hprod | <-]; [| apply Rle_refl].
  left. apply exp_increasing. exact Hprod.
Qed.

Lemma R_fpow_at_least_one :
  forall x y : R, (Q2R 1 <= x)%R -> (Q2R 0 <= y)%R -> (Q2R 1 <= Rpower x y)%R.
Proof.
  intros x y. rewrite Q2R_one, Q2R_zero. apply Rpower_at_least_one.
Qed.

Lemma R_f_of_Q_monotone :
  forall q1 q2 : Q, (q1 <= q2)%Q -> (Q2R q1 <= Q2R q2)%R.
Proof. intros q1 q2 H. apply Qreals.Qle_Rle. exact H. Qed.

#[export] Instance R_float_order : FloatOrder R := {|
  fle := Rle;
  fle_trans := Rle_trans;
  fle_nonneg_refl := R_fle_nonneg_refl;
  fadd_nondecreasing := R_fadd_nondecreasing;
  fmul_at_least_one := R_fmul_at_least_one;
  fpow_at_least_one := R_fpow_at_least_one;
  f_of_Q_monotone := R_f_of_Q_monotone
|}.

(** ** The order of the special values *)

Lemma R_is_zero_true : forall r, R_is_zero r = true <-> r = 0%R.
Proof.
  intros r. unfold R_is_zero.
  destruct (Req_dec_T r 0); split; intros;
    try assumption; try reflexivity; try discriminate; contradiction.
Qed.

Lemma xr_of_R_value : forall r, xr_value (xr_of_R r) = r.
Proof.
  intros r. unfold xr_of_R. destruct (R_is_zero r) eqn:E; [| reflexivity].
  apply R_is_zero_true in E. subst r. reflexivity.
Qed.

Lemma xr_of_R_le :
  forall a b : R, (a <= b)%R -> xr_le (xr_of_R a) (xr_of_R b).
Proof.
  intros a b H.
  pose proof (xr_of_R_value a) as Ha. pose proof (xr_of_R_value b) as Hb.
  unfold xr_of_R in *. destruct (R_is_zero a), (R_is_zero b); simpl in *; lra.
Qed.

Lemma xr_zero_le_inv :
  forall x, xr_le (xr_of_R (Q2R 0)) x ->
    x = xr_inf false \/ (exists s, x = xr_zero s) \/
    (exists r, x = xr_fin r /\ (0 <= r)%R).
Proof.
  intros x. replace (Q2R 0) with 0%R by (unfold Q2R; simpl; lra).
  unfold xr_of_R.
  replace (R_is_zero 0) with true
    by (symmetry; apply R_is_zero_true; reflexivity).
  destruct x as [| [|] | s | r]; simpl; intros H; try contradiction.
  - left; reflexivity.
  - right; left; eauto.
  - right; right; eauto.
Qed.

Lemma xr_one : xr_of_R (Q2R 1) = xr_fin 1.
Proof.
  rewrite Q2R_one. unfold xr_of_R. destruct (R_is_zero 1) eqn:E; [| reflexivity].
  apply R_is_zero_true in E. lra.
Qed.

Lemma xr_one_le_inv :
  forall x, xr_le (xr_of_R (Q2R 1)) x ->
    x = xr_inf false \/ (exists r, x = xr_fin r /\ (1 <= r)%R).
Proof.
  intros x. rewrite xr_one.
  destruct x as [| [|] | s | r]; simpl; intros H; try contradiction; try lra.
  - left; reflexivity.
  - right; eauto.
Qed.

Lemma xr_le_trans : forall x y z, xr_le x y -> xr_le y z -> xr_le x z.
Proof.
  intros [| [|] | sx | a] [| [|] | sy | b] [| [|] | sz | c]; simpl; intros;
    try contradiction; try exact I; try lra.
Qed.

Lemma xr_le_nonneg_refl : forall x, xr_le (xr_of_R (Q2R 0)) x -> xr_le x x.
Proof.
  intros x H. apply xr_zero_le_inv in H.
  destruct H as [-> | [[s ->] | (r & -> & H)]]; simpl; try exact I; lra.
Qed.

Lemma xr_add_nondecreasing :
  forall x g,
    xr_le (xr_of_R (Q2R 0)) x -> xr_le (xr_of_R (Q2R 0)) g ->
    xr_le x (xr_add x g).
Proof.
  intros x g Hx Hg. apply xr_zero_le_inv in Hx, Hg.
  destruct Hx as [-> | [[s ->] | (a & -> & Ha)]];
    destruct Hg as [-> | [[s' ->] | (b & -> & Hb)]]; simpl; try exact I; try lra.
  pose proof (xr_of_R_value (a + b)) as Hv.
  destruct (xr_of_R (a + b)) eqn:E; unfold xr_of_R in E;
    destruct (R_is_zero (a + b)); try discriminate; simpl in *; lra.
Qed.

Lemma R_negative_false : forall r, (0 <= r)%R -> R_negative r = false.
Proof. intros r H. unfold R_negative. destruct (Rlt_dec r 0); [lra | reflexivity]. Qed.

Lemma R_is_zero_false : forall r, r <> 0%R -> R_is_zero r = false.
Proof.
  intros r H. destruct (R_is_zero r) eqn:E; [| reflexivity].
  apply R_is_zero_true in E. contradiction.
Qed.

Lemma xr_fin_one_le : forall r, (1 <= r)%R -> xr_le (xr_fin 1) (xr_of_R r).
Proof.
  intros r H. unfold xr_of_R. rewrite R_is_zero_false by lra. exact H.
Qed.

Lemma xr_mul_at_least_one :
  forall x y,
    xr_le (xr_of_R (Q2R 1)) x -> xr_le (xr_of_R (Q2R 1)) y ->
    xr_le (xr_of_R (Q2R 1)) (xr_mul x y).
Proof.
  intros x y Hx Hy. apply xr_one_le_inv in Hx, Hy. rewrite xr_one.
  destruct Hx as [-> | (a & -> & Ha)]; destruct Hy as [-> | (b & -> & Hb)];
    simpl.
  - exact I.
  - rewrite R_is_zero_false by lra. rewrite R_negative_false by lra. exact I.
  - rewrite R_is_zero_false by lra. rewrite R_negative_false by lra. exact I.
  - apply xr_fin_one_le. nra.
Qed.

Lemma xr_pow_at_least_one :
  forall x y,
    xr_le (xr_of_R (Q2R 1)) x -> xr_le (xr_of_R (Q2R 0)) y ->
    xr_le (xr_of_R (Q2R 1)) (xr_pow x y).
Proof.
  intros x y Hx Hy. apply xr_one_le_inv in Hx. apply xr_zero_le_inv in Hy.
  rewrite xr_one. unfold xr_pow.
  destruct (xr_is_zero y) eqn:Hz; [simpl; lra |].
  destruct (xr_eqb x (xr_fin 1)) eqn:H1; [simpl; lra |].
  destruct Hx as [-> | (a & -> & Ha)];
    destruct Hy as [-> | [[s' ->] | (b & -> & Hb)]]; simpl in *;
    try exact I; try discriminate.
  - rewrite R_negative_false by lra. exact I.
  - destruct (Req_dec_T a 1) as [| Hne]; [discriminate |].
    assert (Habs : Rabs a = a) by (apply Rabs_right; lra).
    rewrite Habs. destruct (Rlt_dec a 1); [lra |].
    destruct (Rlt_dec 1 a); [exact I | lra].
  - rewrite R_is_zero_false by lra. rewrite R_negative_false by lra.
    simpl. apply Rpower_at_least_one; assumption.
Qed.

Lemma xr_of_Q_monotone :
  forall q1 q2 : Q,
    (q1 <= q2)%Q -> xr_le (xr_of_R (Q2R q1)) (xr_of_R (Q2R q2)).
Proof. intros q1 q2 H. apply xr_of_R_le. apply Qreals.Qle_Rle. exact H. Qed.

(** What sets this arithmetic apart from the real numbers: [<=] is not
    reflexive, a product of values that are not negative can be NaN and a
    power of a value that is not negative can be negative. *)

Lemma xr_special_values :
  ~ xr_le xr_nan xr_nan /\
  xr_le (xr_of_R (Q2R 0)) (xr_inf false) /\
  xr_mul (xr_inf false) (xr_of_R (Q2R 0)) = xr_nan /\
  xr_le (xr_of_R (Q2R 0)) (xr_zero true) /\
  xr_pow (xr_zero true) (xr_fin (-1)) = xr_inf true.
Proof.
  assert (Hz : xr_of_R (Q2R 0) = xr_zero false).
  { unfold xr_of_R.
    replace (R_is_zero (Q2R 0)) with true; [reflexivity |].
    symmetry. apply R_is_zero_true. unfold Q2R. simpl. lra. }
  rewrite Hz. split; [intros [] |]. split; [exact I |].
  split; [reflexivity |]. split; [simpl; lra |].
  destruct (Int_part_frac_part_spec (-1) (-1) 0) as [Hi Hf]; [lra | lra |].
  unfold xr_pow. simpl.
  rewrite (R_is_zero_false (-1)) by lra.
  unfold R_negative. destruct (Rlt_dec (-1) 0) as [_ | H]; [| lra].
  unfold R_is_odd_integer, R_is_integer. rewrite <- Hf, <- Hi.
  replace (R_is_zero 0) with true
    by (symmetry; apply R_is_zero_true; reflexivity).
  destruct (Req_dec_T 0 1) as [H |]; [lra | reflexivity].
Qed.

#[export] Instance XR_float_order : FloatOrder XR := {|
  fle := xr_le;
  fle_trans := xr_le_trans;
  fle_nonneg_refl := xr_le_nonneg_refl;
  fadd_nondecreasing := xr_add_nondecreasing;
  fmul_at_least_one := xr_mul_at_least_one;
  fpow_at_least_one := xr_pow_at_least_one;
  f_of_Q_monotone := xr_of_Q_monotone
|}.

(** ** Gamma weights on the strip *)

Lemma gamma_of_accepted_moves_witness :
  let st := strip_state strip_first_played false center_local_values in
  exists gamma : R,
    check_move (is_forbidden (m_bd st) 1) (get_move_info st (MvReg 3)) st
    = Some gamma /\
    gamma = move_gamma st (get_move_info st (MvReg 3)).
Proof.
  intros st.
  destruct (check_move (is_forbidden (m_bd st) 1) (get_move_info st (MvReg 3)) st)
    as [gamma |] eqn:Hc; [| discriminate Hc].
  exists gamma. split; [reflexivity |].
  exact (proj1 (proj2 gamma_of_accepted_moves) _ _ _ _ Hc).
Defined.

Lemma strip_start_search_weights :
  let st := start_search
              (strip_state strip_center_played false center_local_values) in
  m_gamma_piece st 0 = 1%R /\ m_gamma_nu_attach st 1 = 10000000000%R.
Proof.
  intros st.
  destruct (start_search_tables
              (strip_state strip_center_played false center_local_values))
    as [Hpiece Hattach].
  fold st in Hpiece, Hattach. split.
  - rewrite (Hpiece 0) by (simpl; lia).
    unfold piece_gamma. simpl.
    assert (Hz : Q2R (inject_Z (wrap_unsigned 0)) = 0%R)
      by (rewrite Q2R_inject_Z; reflexivity).
    rewrite Hz.
    rewrite !Rpower_O by (unfold Q2R; simpl; lra). lra.
  - rewrite (Hattach 1) by (simpl; lia).
    unfold nu_attach_gamma, f_of_nat, f_of_Z. simpl.
    rewrite Q2R_inject_Z. rewrite Rpower_1 by (unfold Q2R; simpl; lra).
    unfold Q2R. simpl. lra.
Qed.

(** C5, the claim as it is worded, fails for a starting move.  Colour 0
    has played its starting point 2, so point 3, the starting point of
    colour 1, is an attach point of the last opponent move.  The first move
    list of colour 1 is the move on point 3; the move is local with one
    local attach point, yet its weight is the weight 1 of its piece and not
    that weight times 1e10. *)
Lemma starting_move_gamma_counterexample :
  let st := start_search
              (strip_state strip_center_played false center_local_values) in
  let st' := init_moves_with_gamma 1 st in
  let info := get_move_info st' (MvReg 3) in
  let local := local_of_move (m_local_value st') info in
  m_moves st' 1 = [MvReg 3] /\
  has_local local = true /\
  get_nu_attach local = 1 /\
  m_total_gamma st' = (f_of_Q 0 +@ m_gamma_piece st' (get_piece info))%fl /\
  m_total_gamma st' <> (f_of_Q 0 +@ move_gamma st' info)%fl.
Proof.
  intros st st' info local.
  assert (Hbest : find_best_starting_point 1 st = Some 3).
  { unfold find_best_starting_point. simpl.
    rewrite R_ltb_true; [reflexivity |].
    unfold starting_distance. simpl.
    match goal with
    | |- (_ < _ + _ * sqrt ?x)%R =>
        pose proof (sqrt_pos x) as Hs; revert Hs; generalize (sqrt x)
    end.
    intros r Hr. unfold Q2R. simpl. lra. }
  destruct (init_moves_with_gamma_single_start 1 st 3 0 (MvReg 3)
              eq_refl Hbest eq_refl eq_refl eq_refl)
    as (Hf & Hmoves & Htotal & Hlocal).
  fold st' in Hf, Hmoves, Htotal, Hlocal.
  destruct strip_start_search_weights as [Hw0 Hw1]. fold st in Hw0, Hw1.
  assert (Hinfo : info = {| mi_first := 3; mi_rest := []; get_piece := 0 |}).
  { subst info. unfold get_move_info. rewrite (gf_move_info_array Hf).
    reflexivity. }
  assert (Hloc : local
                 = {| lc_nu_attach := 1; lc_adj_attach := false; lc_local := true |}).
  { subst local. rewrite Hinfo, Hlocal. reflexivity. }
  split; [exact Hmoves |]. split; [rewrite Hloc; reflexivity |].
  split; [rewrite Hloc; reflexivity |].
  split.
  - rewrite Htotal, Hinfo, (gf_gamma_piece Hf). reflexivity.
  - rewrite Htotal. unfold move_gamma. fold info. fold local.
    rewrite Hloc, Hinfo. simpl has_local. simpl has_adj_attach.
    simpl get_nu_attach. simpl get_piece. cbv iota.
    rewrite (gf_gamma_piece Hf), (gf_gamma_nu_attach Hf), Hw0, Hw1.
    simpl. unfold Q2R. simpl. lra.
Qed.

(** ** The invariants on the strip *)



Lemma strip_state_tables :
  forall st : StripState,
    m_gamma_piece st = (fun _ => 1%R) ->
    m_gamma_nu_attach st = (fun _ => 1%R) ->
    gamma_tables_at_least_one st.
Proof.
  intros st Hp Ha. unfold gamma_tables_at_least_one. rewrite Hp, Ha.
  split; intros _; simpl; unfold Q2R; simpl; lra.
Qed.


(** The same four states: the sums of the first list are 1, 2, 3 and 4, of
    the updated list 1 and 2; [add_move] puts a move of weight 7 behind the
    two moves that [add_moves] generated. *)
Lemma cumulative_gamma_invariant_witness :
  let st := strip_state strip_mirrored true no_local_values in
  let st1 := init_moves_with_gamma 0 st in
  let st2 := play_playout (MvReg 3) (play_playout (MvReg 2) st1) in
  let st3 := add_moves 2 0 [0] st in
  let st4 := add_moves_piece 3 0 0 0 st3 in
  (length (m_moves st1 0) = 4 /\ m_total_gamma st1 = 4%R /\ gamma_inv 0 st1) /\
  (length (m_moves (update_moves 0 st2) 0) = 2 /\
   m_total_gamma (update_moves 0 st2) = 2%R /\
   gamma_inv 0 (update_moves 0 st2)) /\
  (length (m_moves st3 0) = 1 /\ gamma_inv 0 st3) /\
  (length (m_moves st4 0) = 2 /\ gamma_inv 0 st4) /\
  (m_total_gamma (add_move 0 (MvReg 5) 7%R st4) = 9%R /\
   gamma_inv 0 (add_move 0 (MvReg 5) 7%R st4)).
Proof.
  intros st st1 st2 st3 st4.
  assert (Ht : gamma_tables_at_least_one st)
    by (apply strip_state_tables; reflexivity).
  assert (Ht2 : gamma_tables_at_least_one st2)
    by (apply strip_state_tables; vm_compute; reflexivity).
  assert (Ht3 : gamma_tables_at_least_one st3)
    by (apply strip_state_tables; vm_compute; reflexivity).
  assert (Ht4 : gamma_tables_at_least_one st4)
    by (apply strip_state_tables; vm_compute; reflexivity).
  assert (Hempty : gamma_inv 0 st).
  { split; [intros i j _ Hj; inversion Hj |].
    split; [intros H; inversion H |].
    simpl. unfold Q2R. simpl. lra. }
  assert (H3 : gamma_inv 0 st3)
    by exact (proj1 (proj2 (proj2 (proj2 (cumulative_gamma_invariant 0 st Ht))))
                2 [0] Hempty).
  assert (H4 : gamma_inv 0 st4)
    by exact (proj2 (proj2 (proj2 (proj2 (cumulative_gamma_invariant 0 st3 Ht3))))
                3 0 0 H3).
  split.
  { split; [vm_compute; reflexivity |]. split; [vm_compute; lra |].
    exact (proj1 (cumulative_gamma_invariant 0 st Ht)). }
  split.
  { split; [vm_compute; reflexivity |]. split; [vm_compute; lra |].
    exact (proj1 (proj2 (cumulative_gamma_invariant 0 st2 Ht2))). }
  split; [split; [vm_compute; reflexivity | exact H3] |].
  split; [split; [vm_compute; reflexivity | exact H4] |].
  split; [vm_compute; lra |].
  apply (proj1 (proj2 (proj2 (cumulative_gamma_invariant 0 st4 Ht4)))
           (MvReg 5) 7%R H4).
  simpl. unfold Q2R. simpl. lra.
Defined.
(** ** Further properties on explicit positions *)

(** A search with four colours for the two players of the strip. *)

Definition strip_team : StripState :=
  set_m_nu_colors 4 (strip_state strip_mirrored true no_local_values).

Lemma team_results_repeat_witness :
  fst (evaluate_playout strip_team) 2 = fst (evaluate_playout strip_team) 0 /\
  fst (evaluate_playout strip_team) 3 = fst (evaluate_playout strip_team) 1.
Proof.
  apply (team_results_repeat strip_team).
  change (2 < 4). lia.
Defined.


Lemma gen_playout_move_passes_below_colors_witness :
  let st := strip_state strip_full true no_local_values in
  exists st',
    gen_playout_move 2 MvNull MvNull MvNull st = Some (false, MvNull, st') /\
    (m_nu_passes st <= m_nu_passes st' < Z.of_nat (m_nu_colors st'))%Z /\
    m_nu_colors st' = m_nu_colors st.
Proof.
  intros st.
  destruct (gen_playout_move 2 MvNull MvNull MvNull st)
    as [[[found mv'] st'] |] eqn:H; [| discriminate H].
  destruct found; [discriminate H |].
  destruct mv'; try discriminate H.
  exists st'. split; [reflexivity |].
  apply (gen_playout_move_passes_below_colors 2 MvNull MvNull MvNull MvNull
           false st st').
  - change (0 <= 0 < 2)%Z. lia.
  - change (2 < 2 ^ 32)%Z. lia.
  - exact H.
Defined.

Lemma last_good_replies_at_most_playout_moves_witness :
  let st := strip_state strip_mirrored true no_local_values in
  let st' := count_last_good_reply st in
  (0 <= m_nu_last_good_reply_moves st' <= m_nu_playout_moves st')%Z /\
  (m_nu_playout_moves st <= m_nu_playout_moves st' <= m_nu_playout_moves st + 1)%Z /\
  (forall st0 : StripState,
      m_nu_playout_moves (start_search st0) = 0%Z /\
      m_nu_last_good_reply_moves (start_search st0) = 0%Z).
Proof.
  intros st st'.
  apply (last_good_replies_at_most_playout_moves 2 (MvReg 0) (MvReg 2) MvNull
           (MvReg 2) true st st').
  - change (0 <= 0 <= 0)%Z. lia.
  - change (0 < 2 ^ 64 - 1)%Z. lia.
  - reflexivity.
Defined.

Lemma symmetry_flag_is_never_cleared_witness :
  let st := strip_state strip_mirrored true no_local_values in
  (forall mv, m_is_symmetry_broken (play_playout mv st) = true) /\
  (forall mv, m_is_symmetry_broken (play_expanded_child mv st) = true) /\
  (forall mv, m_is_symmetry_broken (update_symmetry_broken mv st) = true) /\
  (forall c, m_is_symmetry_broken (init_moves_with_gamma c st) = true) /\
  (forall c, m_is_symmetry_broken (update_moves c st) = true) /\
  (forall n, m_is_symmetry_broken (start_simulation n st) = true) /\
  m_is_symmetry_broken (snd (evaluate_playout st)) = true /\
  (forall fuel lgr1 lgr2 mv mv' found st',
      gen_playout_move fuel lgr1 lgr2 mv st = Some (found, mv', st') ->
      m_is_symmetry_broken st' = true) /\
  (forall fuel lgr1 lgr2 found st',
      gen_and_play_playout_move fuel lgr1 lgr2 st = Some (found, st') ->
      m_is_symmetry_broken st' = true).
Proof.
  intros st.
  apply (symmetry_flag_is_never_cleared st).
  reflexivity.
Defined.

Lemma move_generation_keeps_other_colors_witness :
  let st := strip_state strip_mirrored true no_local_values in
  m_moves (init_moves_with_gamma 0 st) 1 = m_moves st 1 /\
  m_marker (update_moves 0 st) 1 = m_marker st 1.
Proof.
  intros st.
  destruct (move_generation_keeps_other_colors 0 1 st) as [Hinit Hupdate].
  - discriminate.
  - split; [apply Hinit | apply Hupdate].
Defined.

Lemma start_simulation_counts_trailing_passes_witness :
  let st := strip_state strip_mirrored true no_local_values in
  let bd := restore_snapshot (m_bd st) in
  exists k,
    m_nu_passes (start_simulation 1 st) = Z.of_nat k /\
    k <= get_nu_moves bd /\
    (forall j, get_nu_moves bd - k <= j < get_nu_moves bd ->
               is_pass (get_move bd j) = true) /\
    (k < get_nu_moves bd ->
     is_pass (get_move bd (get_nu_moves bd - k - 1)) = false).
Proof.
  intros st.
  apply (start_simulation_counts_trailing_passes 1 st).
  change (0 < 2 ^ 32)%Z. lia.
Defined.

Lemma gen_and_play_playout_move_returns_witness :
  let st := strip_state strip_full true no_local_values in
  exists found st',
    gen_and_play_playout_move 2 MvNull MvNull st = Some (found, st').
Proof.
  intros st.
  apply (gen_and_play_playout_move_returns 2 MvNull MvNull st).
  - change (0 <= 0 <= 2)%Z. lia.
  - change (2 < 2 ^ 32)%Z. lia.
  - change (2 <= 2). lia.
Defined.

Lemma response_text_without_blank_line_witness :
  let text := ["o"; "k"; newline; "1"]%char in
  let out := ["="; " "]%char in
  Response.write text out = out ++ text ++ Response.terminator text.
Proof.
  intros text out.
  apply (response_text_without_blank_line_is_written_unchanged text out).
  simpl. repeat split; intros [H1 H2]; discriminate.
Defined.

(** The first move list of colour 0 in the mirrored position. *)

Lemma strip_generated_moves :
  let st := strip_state strip_mirrored true no_local_values in
  m_moves
    (init_moves_with_gamma 0
       (set_m_nu_playout_moves (wrap_size_t (m_nu_playout_moves st + 1)) st)) 0
  = [MvReg 0; MvReg 2; MvReg 3; MvReg 5].
Proof. reflexivity. Qed.

Lemma sampled_move_is_listed_witness :
  exists (mv' : Move) (st' : StripState),
    gen_playout_move 2 MvNull MvNull MvNull
      (strip_state strip_mirrored true no_local_values)
    = Some (true, mv', st') /\
    In mv' (m_moves st' (get_to_play (m_bd st'))).
Proof.
  assert (Htab : gamma_tables_at_least_one
                   (strip_state strip_mirrored true no_local_values)).
  { split; intros; simpl; unfold Q2R; simpl; lra. }
  destruct (gen_playout_move_first_round_gamma 1 MvNull MvNull MvNull 0
              (strip_state strip_mirrored true no_local_values)
              eq_refl eq_refl eq_refl eq_refl eq_refl eq_refl Htab)
    as (mv' & st' & H & Hlast & Htotal).
  { pose proof strip_generated_moves as Hmoves. cbv zeta in Hmoves.
    rewrite Hmoves. discriminate. }
  exists mv', st'. split; [exact H |].
  destruct (sampled_move_is_listed 2 MvNull MvNull MvNull mv'
              (strip_state strip_mirrored true no_local_values) st' H
              eq_refl eq_refl) as (pos & _ & _ & Hin & _); [| exact Hin].
  rewrite Hlast.
  change (fst (generate_double
                 (m_random (strip_state strip_mirrored true no_local_values))))
    with (1 / 2)%R.
  apply R_ltb_false.
  change (Q2R 0 <= m_total_gamma st')%R in Htotal.
  unfold Q2R in Htotal. simpl in Htotal.
  change (m_total_gamma st' * (1 / 2) <= m_total_gamma st')%R.
  lra.
Defined.

